(** * feedback-core: a shallow embedding of the collection pipeline

    The development follows the TypeScript sources module by module:

    - [Errors]        src/utils/errors.ts
    - [Runtime]       the JavaScript run time the library relies on
                      (clock, [Math.random], [crypto.randomUUID], promises)
    - [Retry]         src/core/retry.ts
    - [Pipeline]      src/core/pipeline.ts and src/types/plugins.ts
    - [Debouncer]     src/core/debouncer.ts
    - [MemoryHandler] src/plugins/handlers/memory.ts
    - [Schema]        src/core/schema.ts
    - [Collector]     src/core/collector.ts
    - [Id]            src/utils/id.ts

    Modelling conventions.

    - An [async] function is a computation in the monad [M]: it threads the
      world (plugin-owned store, clock, entropy, trace) and either returns
      or throws.  One [await]ed computation runs to completion before the
      next starts: interleaving between two in-flight executions is not
      modelled.
    - IEEE doubles are idealised as exact rationals ([Q]); integral
      quantities (attempt numbers, milliseconds once rounded) are [Z].
    - Externally supplied capabilities (validators, transformers, handlers,
      hooks, install callbacks) act on a store of an arbitrary type [S];
      they may succeed or throw and may change the store, but they cannot
      reach the library's own state.
    - The trace is ghost state: the run time appends an [Event] whenever a
      capability is invoked, so that "was invoked", "in registration
      order" and "no further attempt" are observable. *)

From Stdlib Require Import ZArith QArith Qround Qminmax Qpower Lia Lqa.
From Stdlib Require Import Ascii HexadecimalString.
From stdpp Require Import base option list gmap strings pretty.

Set Default Proof Using "Type".
Local Open Scope Z_scope.

(* ===================================================================== *)
(** ** src/utils/errors.ts *)
(* ===================================================================== *)

Module Errors.

(** [PluginError.phase] *)
Inductive PluginPhase := PhInstall | PhValidate | PhTransform | PhHandle.

(** The [Error] instances the library can see.  [PlainError] stands for
    [new Error(message)] and for any foreign [Error]; [TypeError] is the
    engine's own (reading a property of [null]). *)
Inductive JsError :=
| PlainError (message : string)
| TypeError
| ValidationError (errors : list string)
| PluginError (pluginName : string) (phase : PluginPhase) (cause : JsError)
| CollectionCancelledError (reason : string)
| RetryExhaustedError (attempts : Z) (lastError : JsError).

(** A thrown value: JavaScript throws anything.  [ThrowValue v] is a value
    that is not an [Error] instance, kept as [String(value)]. *)
Inductive Thrown :=
| ThrowError (e : JsError)
| ThrowValue (v : string).

(** [error instanceof Error ? error : new Error(String(error))] *)
Definition toError (t : Thrown) : JsError :=
  match t with
  | ThrowError e => e
  | ThrowValue v => PlainError v
  end.

End Errors.
Export Errors.

(* ===================================================================== *)
(** ** The run time *)
(* ===================================================================== *)

Module Runtime.

(** The [phase] handed to error hooks (src/types/hooks.ts, [ErrorHook]). *)
Inductive ErrorPhase := Validation | Collection | Transform | Handler.

(** Ghost trace of capability invocations.  Hooks are anonymous, so they
    are named by their position in the registration list. *)
Inductive Event :=
| EvInstall (plugin : string)
| EvBeforeCollect (hook : nat)
| EvValidate (plugin : string)
| EvTransform (plugin : string)
| EvHandle (plugin : string)
| EvAfterCollect (hook : nat) (itemId : string)
| EvError (hook : nat) (error : JsError) (phase : option ErrorPhase)
| EvRetry (hook : nat) (attempt : Z) (error : JsError) (nextDelayMs : Z)
| EvAttempt (attempt : Z)
| EvSleep (ms : Z).

(** The world an execution runs in.  [entropy] and [uuids] are the values
    [Math.random()] and [crypto.randomUUID()] will return, in order. *)
Record World (S : Type) := mkWorld {
  store : S;
  clock : Z;
  entropy : nat -> Q;
  randomsDrawn : nat;
  uuids : nat -> string;
  idsDrawn : nat;
  trace : list Event
}.
Arguments mkWorld {S}.
Arguments store {S}.
Arguments clock {S}.
Arguments entropy {S}.
Arguments randomsDrawn {S}.
Arguments uuids {S}.
Arguments idsDrawn {S}.
Arguments trace {S}.

(** How a computation ends: normally or by a [throw] (for a promise:
    fulfilled or rejected). *)
Inductive Result (A : Type) :=
| Ok (a : A)
| Throw (t : Thrown).
Arguments Ok {A}.
Arguments Throw {A}.

Definition M (S A : Type) := World S -> Result A * World S.

Section Monad.
Context {S : Type}.

Definition ret {A} (a : A) : M S A := fun w => (Ok a, w).

Definition throw {A} (t : Thrown) : M S A := fun w => (Throw t, w).

Definition bind {A B} (m : M S A) (k : A -> M S B) : M S B :=
  fun w =>
    match m w with
    | (Ok a, w') => k a w'
    | (Throw t, w') => (Throw t, w')
    end.

(** [try { m } catch (error) { h error }] *)
Definition tryCatch {A} (m : M S A) (h : Thrown -> M S A) : M S A :=
  fun w =>
    match m w with
    | (Ok a, w') => (Ok a, w')
    | (Throw t, w') => h t w'
    end.

Definition setStore (s : S) (w : World S) : World S :=
  mkWorld s (clock w) (entropy w) (randomsDrawn w) (uuids w) (idsDrawn w)
          (trace w).

Definition addTrace (events : list Event) (w : World S) : World S :=
  mkWorld (store w) (clock w) (entropy w) (randomsDrawn w) (uuids w)
          (idsDrawn w) (trace w ++ events).

(** Recording an invocation in the trace. *)
Definition emit (e : Event) : M S unit := fun w => (Ok tt, addTrace [e] w).

(** Running an externally supplied capability: it sees and changes the
    store only. *)
Definition external {A} (f : S -> Result A * S) : M S A :=
  fun w => let '(r, s') := f (store w) in (r, setStore s' w).

(** [Date.now()] *)
Definition Date_now : M S Z := fun w => (Ok (clock w), w).

(** [Math.random()]: the next value of the entropy stream. *)
Definition Math_random : M S Q :=
  fun w =>
    (Ok (entropy w (randomsDrawn w)),
     mkWorld (store w) (clock w) (entropy w) (Datatypes.S (randomsDrawn w))
             (uuids w) (idsDrawn w) (trace w)).

(** src/utils/id.ts, [generateId]: both branches draw a fresh identifier
    from the environment; the model takes the next one of [uuids]. *)
Definition generateId : M S string :=
  fun w =>
    (Ok (uuids w (idsDrawn w)),
     mkWorld (store w) (clock w) (entropy w) (randomsDrawn w)
             (uuids w) (Datatypes.S (idsDrawn w)) (trace w)).

(** [setTimeout] treats a negative delay as 0. *)
Definition timerDelay (ms : Z) : Z := Z.max 0 ms.

(** src/core/retry.ts, [sleep]: resolves after [ms] on the clock. *)
Definition sleep (ms : Z) : M S unit :=
  fun w =>
    (Ok tt, mkWorld (store w) (clock w + timerDelay ms) (entropy w)
                    (randomsDrawn w) (uuids w) (idsDrawn w)
                    (trace w ++ [EvSleep ms])).

(** A computation that draws no identifier. *)
Definition KeepsIds {A} (m : M S A) : Prop :=
  forall w r w',
    m w = (r, w') -> uuids w' = uuids w /\ idsDrawn w' = idsDrawn w.

End Monad.

Declare Scope js_scope.
Delimit Scope js_scope with js.
Notation "'let*' x ':=' m 'in' k" := (bind m (fun x => k))
  (at level 10, x pattern, m at level 100, k at level 200) : js_scope.

(** [Math.round]: to the nearest integer, halves towards +infinity. *)
Definition Math_round (x : Q) : Z := Qfloor (x + (1 # 2))%Q.

End Runtime.
Export Runtime.

(* ===================================================================== *)
(** ** src/types/config.ts and src/core/retry.ts *)
(* ===================================================================== *)

Module Config.

(** [RetryConfig['backoff']] *)
Inductive Backoff := Exponential | Linear | Fixed.

(** [RetryConfig] *)
Record RetryConfig := mkRetryConfig {
  attempts : Z;
  baseDelay : Q;
  maxDelay : option Q;
  backoff : Backoff;
  retryOn : option (JsError -> bool)
}.

(** [DebounceConfig]; an omitted [leading] is falsy. *)
Record DebounceConfig := mkDebounceConfig {
  wait : Z;
  maxWait : option Z;
  leading : bool
}.

End Config.
Export Config.

Module Retry.

(** The arithmetic of [calculateDelay]: the value of the [switch]. *)
Definition policyDelay (attempt : Z) (baseDelay : Q) (backoff : Backoff) : Q :=
  match backoff with
  | Exponential => baseDelay * Qpower 2 (attempt - 1)
  | Linear => baseDelay * inject_Z attempt
  | Fixed => baseDelay
  end%Q.

(** ... and the jitter, the cap and the rounding, once [Math.random()] has
    returned [rnd]. *)
Definition jitteredDelay (rnd : Q) (attempt : Z) (baseDelay maxDelay : Q)
    (backoff : Backoff) : Z :=
  let delay := policyDelay attempt baseDelay backoff in
  let jitter := (delay * (1 # 10) * (rnd * 2 - 1))%Q in
  let delay := Qmin (delay + jitter)%Q maxDelay in
  Math_round delay.

(** The delay as the specification words it, for comparison: the policy
    value clamped to [0, maxDelay], then the jitter of up to 10% of the
    value before the clamp, then the cap at [maxDelay] again and the
    rounding. *)
Definition specifiedDelay (rnd : Q) (attempt : Z) (baseDelay maxDelay : Q)
    (backoff : Backoff) : Z :=
  let policy := policyDelay attempt baseDelay backoff in
  let clamped := Qmax 0 (Qmin policy maxDelay) in
  let jitter := (policy * (1 # 10) * (rnd * 2 - 1))%Q in
  Math_round (Qmin (clamped + jitter)%Q maxDelay).

Section WithRetry.
Context {S : Type}.
Local Open Scope js_scope.

(** [calculateDelay(attempt, baseDelay, maxDelay, backoff)] *)
Definition calculateDelay (attempt : Z) (baseDelay maxDelay : Q)
    (backoff : Backoff) : M S Z :=
  let* rnd := Math_random in
  ret (jitteredDelay rnd attempt baseDelay maxDelay backoff).

(** [RetryOptions extends RetryConfig] with the [onRetry] callback. *)
Record RetryOptions := mkRetryOptions {
  config :> RetryConfig;
  onRetry : option (Z -> JsError -> Z -> M S unit)
}.

(** [const { maxDelay = 30000 } = options] *)
Definition maxDelayOrDefault (o : RetryOptions) : Q :=
  match maxDelay o with
  | Some d => d
  | None => 30000 # 1
  end.

(** [throw new RetryExhaustedError(attempts, lastError!)]; the constructor
    reads [lastError.message], which is a [TypeError] when no attempt was
    made and [lastError] is still [null]. *)
Definition throwExhausted {T} (o : RetryOptions) (lastError : option JsError)
    : M S T :=
  match lastError with
  | Some e => throw (ThrowError (RetryExhaustedError (attempts o) e))
  | None => throw (ThrowError TypeError)
  end.

(** [retryOn && !retryOn(lastError)] *)
Definition vetoed (o : RetryOptions) (lastError : JsError) : bool :=
  match retryOn o with
  | Some retryOn => negb (retryOn lastError)
  | None => false
  end.

(** [if (onRetry) await onRetry(attempt, lastError, delay)] *)
Definition callOnRetry (o : RetryOptions) (attempt : Z) (lastError : JsError)
    (delay : Z) : M S unit :=
  match onRetry o with
  | Some onRetry => onRetry attempt lastError delay
  | None => ret tt
  end.

(** The [for] loop of [withRetry]; [n] counts the iterations that remain
    before [attempt <= attempts] fails. *)
Fixpoint retryLoop {T} (fn : M S T) (o : RetryOptions) (n : nat)
    (attempt : Z) (lastError : option JsError) : M S T :=
  match n with
  | O => throwExhausted o lastError
  | Datatypes.S n' =>
      tryCatch (let* _ := emit (EvAttempt attempt) in fn)
        (fun error =>
           let lastError := toError error in
           if vetoed o lastError
           then throw (ThrowError lastError)
           else if attempts o <=? attempt
           then throwExhausted o (Some lastError)
           else
             let* delay := calculateDelay attempt (baseDelay o)
                             (maxDelayOrDefault o) (backoff o) in
             let* _ := callOnRetry o attempt lastError delay in
             let* _ := sleep delay in
             retryLoop fn o n' (attempt + 1) (Some lastError))
  end.

(** [withRetry(fn, options)] *)
Definition withRetry {T} (fn : M S T) (o : RetryOptions) : M S T :=
  retryLoop fn o (Z.to_nat (attempts o)) 1 None.

(** Where a run of [withRetry fn o] started in [w0] stands: at the head
    of iteration [attempt], in world [w], with [lastError].  Every
    earlier attempt has failed with an error that [retryOn] let pass, and
    the delay, the [onRetry] callback and the sleep that follow it have
    completed. *)
Inductive AtAttempt {T} (fn : M S T) (o : RetryOptions) (w0 : World S)
    : Z -> option JsError -> World S -> Prop :=
| AtAttempt_first : AtAttempt fn o w0 1 None w0
| AtAttempt_next attempt lastError w error w1 delay w2 w3 w4 :
    AtAttempt fn o w0 attempt lastError w ->
    attempt < attempts o ->
    fn (addTrace [EvAttempt attempt] w) = (Throw error, w1) ->
    vetoed o (toError error) = false ->
    calculateDelay attempt (baseDelay o) (maxDelayOrDefault o) (backoff o) w1
    = (Ok delay, w2) ->
    callOnRetry o attempt (toError error) delay w2 = (Ok tt, w3) ->
    sleep delay w3 = (Ok tt, w4) ->
    AtAttempt fn o w0 (attempt + 1) (Some (toError error)) w4.

(** [createRetryWrapper(fn, options)] *)
Definition createRetryWrapper {Args T} (fn : Args -> M S T)
    (options : RetryOptions) : Args -> M S T :=
  fun args => withRetry (fn args) options.

(** The trace of attempts numbered from [attempt] on with the sleeps
    [delays] between them: one sleep after every attempt but the last. *)
Fixpoint retrySchedule (attempt : Z) (delays : list Z) : list Event :=
  match delays with
  | [] => [EvAttempt attempt]
  | delay :: rest =>
      EvAttempt attempt :: EvSleep delay :: retrySchedule (attempt + 1) rest
  end.

(** The time the sleeps [delays] take. *)
Definition totalSleep (delays : list Z) : Z :=
  foldr (fun delay total => timerDelay delay + total) 0 delays.

End WithRetry.
Arguments RetryOptions : clear implicits.
Arguments mkRetryOptions {S}.

End Retry.

(* ===================================================================== *)
(** ** src/types/feedback.ts, src/types/plugins.ts, src/core/pipeline.ts *)
(* ===================================================================== *)

Module Pipeline.

(** [ValidationResult] *)
Record ValidationResult := mkValidationResult {
  valid : bool;
  errors : list string
}.

Section Pipeline.
Context {S Data : Type}.
Local Open Scope js_scope.

(** [FeedbackItem<T>]; metadata values are kept as strings. *)
Record FeedbackItem := mkFeedbackItem {
  id : string;
  type : string;
  data : Data;
  metadata : gmap string string;
  timestamp : Z
}.

(** [CollectionContext<T>] *)
Record CollectionContext := mkCollectionContext {
  ctx_type : string;
  ctx_data : Data;
  ctx_metadata : gmap string string;
  ctx_timestamp : Z
}.

(** [FeedbackPlugin<T>]: the fields every plugin has, and the method of
    its kind in [run].  An [install] callback acts on the store. *)
Record Plugin (C : Type) := mkPlugin {
  name : string;
  install : option (S -> Result unit * S);
  run : C
}.
Arguments mkPlugin {C}.
Arguments name {C}.
Arguments install {C}.
Arguments run {C}.

Definition ValidatorPlugin := Plugin (Data -> S -> Result ValidationResult * S).
Definition TransformerPlugin :=
  Plugin (FeedbackItem -> S -> Result FeedbackItem * S).
Definition HandlerPlugin := Plugin (FeedbackItem -> S -> Result unit * S).

Definition validate (p : ValidatorPlugin) := run p.
Definition transform (p : TransformerPlugin) := run p.
Definition handle (p : HandlerPlugin) := run p.

(** The discriminant [plugin.type], checked by [isValidatorPlugin],
    [isTransformerPlugin] and [isHandlerPlugin]. *)
Inductive FeedbackPlugin :=
| IsValidator (p : ValidatorPlugin)
| IsTransformer (p : TransformerPlugin)
| IsHandler (p : HandlerPlugin).

Definition pluginName (plugin : FeedbackPlugin) : string :=
  match plugin with
  | IsValidator p => name p
  | IsTransformer p => name p
  | IsHandler p => name p
  end.

Definition pluginInstall (plugin : FeedbackPlugin)
    : option (S -> Result unit * S) :=
  match plugin with
  | IsValidator p => install p
  | IsTransformer p => install p
  | IsHandler p => install p
  end.

(** [PluginRegistry<T>] *)
Record PluginRegistry := mkPluginRegistry {
  validators : list ValidatorPlugin;
  transformers : list TransformerPlugin;
  handlers : list HandlerPlugin
}.

(** [createPluginRegistry()] *)
Definition createPluginRegistry : PluginRegistry :=
  mkPluginRegistry [] [] [].

(** [registerPlugin(registry, plugin)] *)
Definition registerPlugin (registry : PluginRegistry)
    (plugin : FeedbackPlugin) : PluginRegistry :=
  match plugin with
  | IsValidator p =>
      mkPluginRegistry (validators registry ++ [p]) (transformers registry)
                       (handlers registry)
  | IsTransformer p =>
      mkPluginRegistry (validators registry) (transformers registry ++ [p])
                       (handlers registry)
  | IsHandler p =>
      mkPluginRegistry (validators registry) (transformers registry)
                       (handlers registry ++ [p])
  end.

(** [throw new PluginError(name, phase, error instanceof Error ? ...)] *)
Definition throwPluginError {A} (pluginName : string) (phase : PluginPhase)
    (error : Thrown) : M S A :=
  throw (ThrowError (PluginError pluginName phase (toError error))).

(** The [for] loop of [runValidators], with [allErrors] as accumulator. *)
Fixpoint validatorsLoop (validators : list ValidatorPlugin) (data : Data)
    (allErrors : list string) : M S (list string) :=
  match validators with
  | [] => ret allErrors
  | validator :: rest =>
      let* allErrors :=
        tryCatch
          (let* _ := emit (EvValidate (name validator)) in
           let* result := external (validate validator data) in
           ret (if negb (valid result)
                then allErrors ++ errors result
                else allErrors))
          (throwPluginError (name validator) PhValidate) in
      validatorsLoop rest data allErrors
  end.

(** [runValidators(validators, data)] *)
Definition runValidators (validators : list ValidatorPlugin) (data : Data)
    : M S ValidationResult :=
  let* allErrors := validatorsLoop validators data [] in
  ret (mkValidationResult (Nat.eqb (length allErrors) 0) allErrors).

(** What the validators returned, in registration order, when each of
    them ran on the store its predecessor left and none of them threw. *)
Inductive Answers
    : list ValidatorPlugin -> Data -> S -> list ValidationResult -> S -> Prop :=
| Answers_nil data s : Answers [] data s [] s
| Answers_cons validator rest data s result s1 results s' :
    validate validator data s = (Ok result, s1) ->
    Answers rest data s1 results s' ->
    Answers (validator :: rest) data s (result :: results) s'.

(** The errors of the results that are flagged invalid, concatenated. *)
Definition reportedErrors (results : list ValidationResult) : list string :=
  concat (map errors (filter (fun r => valid r = false) results)).

(** A transformer that hands back the [id] and the [type] it was given. *)
Definition KeepsIdentity (transformer : TransformerPlugin) : Prop :=
  forall item s item' s',
    transform transformer item s = (Ok item', s') ->
    id item' = id item /\ type item' = type item.

(** [runTransformers(transformers, item)] *)
Fixpoint runTransformers (transformers : list TransformerPlugin)
    (current : FeedbackItem) : M S FeedbackItem :=
  match transformers with
  | [] => ret current
  | transformer :: rest =>
      let* current :=
        tryCatch
          (let* _ := emit (EvTransform (name transformer)) in
           external (transform transformer current))
          (throwPluginError (name transformer) PhTransform) in
      runTransformers rest current
  end.

(** The closure [runHandler] of [runHandlers]. *)
Definition runHandler (item : FeedbackItem) (handler : HandlerPlugin)
    : M S unit :=
  tryCatch
    (let* _ := emit (EvHandle (name handler)) in
     external (handle handler item))
    (throwPluginError (name handler) PhHandle).

(** [await Promise.all(promises)]: every promise of the array has been
    started, in order; the result rejects with the first rejection, and
    the promises behind it are in flight, so their effects land too. *)
Fixpoint Promise_all (promises : list (M S unit)) : M S unit :=
  match promises with
  | [] => ret tt
  | p :: rest =>
      fun w =>
        match p w with
        | (Ok _, w') => Promise_all rest w'
        | (Throw t, w') => (Throw t, snd (Promise_all rest w'))
        end
  end.

(** [for (const handler of handlers) await runHandler(handler)] *)
Fixpoint handlersLoop (item : FeedbackItem) (handlers : list HandlerPlugin)
    : M S unit :=
  match handlers with
  | [] => ret tt
  | handler :: rest =>
      let* _ := runHandler item handler in
      handlersLoop item rest
  end.

(** [runHandlers(handlers, item, options = { parallel: true })] *)
Definition runHandlers (handlers : list HandlerPlugin) (item : FeedbackItem)
    (parallel : bool) : M S unit :=
  if parallel
  then Promise_all (map (runHandler item) handlers)
  else handlersLoop item handlers.

(** The type guards of src/types/plugins.ts: [plugin.type === ...]. *)
Definition isValidatorPlugin (plugin : FeedbackPlugin) : bool :=
  match plugin with IsValidator _ => true | _ => false end.
Definition isTransformerPlugin (plugin : FeedbackPlugin) : bool :=
  match plugin with IsTransformer _ => true | _ => false end.
Definition isHandlerPlugin (plugin : FeedbackPlugin) : bool :=
  match plugin with IsHandler _ => true | _ => false end.

(** A plugin narrowed to its kind, where a guard answers [true]. *)
Definition asValidator (plugin : FeedbackPlugin) : option ValidatorPlugin :=
  match plugin with IsValidator p => Some p | _ => None end.
Definition asTransformer (plugin : FeedbackPlugin)
    : option TransformerPlugin :=
  match plugin with IsTransformer p => Some p | _ => None end.
Definition asHandler (plugin : FeedbackPlugin) : option HandlerPlugin :=
  match plugin with IsHandler p => Some p | _ => None end.

(** [registerPlugin] called on each of [plugins] in turn. *)
Definition registerAll (plugins : list FeedbackPlugin)
    (registry : PluginRegistry) : PluginRegistry :=
  fold_left registerPlugin plugins registry.

(** What the transformers make of [item], each taking what its predecessor
    returned on the store its predecessor left, when none of them
    throws. *)
Inductive Transformed
    : list TransformerPlugin -> FeedbackItem -> S -> FeedbackItem -> S
      -> Prop :=
| Transformed_nil item s : Transformed [] item s item s
| Transformed_cons transformer rest item s item1 s1 item' s' :
    transform transformer item s = (Ok item1, s1) ->
    Transformed rest item1 s1 item' s' ->
    Transformed (transformer :: rest) item s item' s'.

(** The handlers, each run with [item] on the store its predecessor
    left, all complete normally and leave [s']. *)
Inductive Handled : list HandlerPlugin -> FeedbackItem -> S -> S -> Prop :=
| Handled_nil item s : Handled [] item s s
| Handled_cons handler rest item s s1 s' :
    handle handler item s = (Ok tt, s1) ->
    Handled rest item s1 s' ->
    Handled (handler :: rest) item s s'.

End Pipeline.
Arguments FeedbackItem : clear implicits.
Arguments CollectionContext : clear implicits.
Arguments Plugin : clear implicits.
Arguments mkPlugin {S C}.
Arguments name {S C}.
Arguments install {S C}.
Arguments run {S C}.
Arguments ValidatorPlugin : clear implicits.
Arguments TransformerPlugin : clear implicits.
Arguments HandlerPlugin : clear implicits.
Arguments FeedbackPlugin : clear implicits.
Arguments PluginRegistry : clear implicits.

End Pipeline.

(* ===================================================================== *)
(** ** src/core/debouncer.ts *)
(* ===================================================================== *)

Module Debouncer.

(** What calling the wrapped function [fn] yields: a plain value, a
    synchronous [throw], or a promise that fulfils or rejects. *)
Inductive FnResult (R : Type) :=
| Returned (value : R)
| Threw (error : Thrown)
| PromiseFulfilled (value : R)
| PromiseRejected (error : Thrown).
Arguments Returned {R}.
Arguments Threw {R}.
Arguments PromiseFulfilled {R}.
Arguments PromiseRejected {R}.

(** What the outside observes: [fn] was invoked, or the promise a caller
    got from [call] was resolved or rejected.  Promises are numbered in
    the order [call] created them. *)
Inductive Observation (A R : Type) :=
| Invoked (args : A) (result : FnResult R)
| Settled (promise : nat) (outcome : Result R).
Arguments Invoked {A R}.
Arguments Settled {A R}.

Section Debouncer.
Context {S A R : Type}.
Variable fn : A -> World S -> FnResult R * World S.
Variable options : DebounceConfig.

(** The private fields.  A timer id is the time at which the timer is
    due. *)
Record Debouncer := mkDebouncer {
  timeoutId : option Z;
  maxWaitTimeoutId : option Z;
  lastArgs : option A;
  leadingExecuted : bool;
  pendingPromises : list nat
}.

(** The field initialisers. *)
Definition create : Debouncer := mkDebouncer None None None false [].

(** [clearTimeouts()] *)
Definition clearTimeouts (d : Debouncer) : Debouncer :=
  mkDebouncer None None (lastArgs d) (leadingExecuted d) (pendingPromises d).

(** The four loops over [promises] in [execute]. *)
Definition settle (result : FnResult R) (promises : list nat)
    : list (Observation A R) :=
  match result with
  | Returned value => map (fun p => Settled p (Ok value)) promises
  | Threw error => map (fun p => Settled p (Throw error)) promises
  | PromiseFulfilled value => map (fun p => Settled p (Ok value)) promises
  | PromiseRejected error => map (fun p => Settled p (Throw error)) promises
  end.

(** [execute()] *)
Definition execute (d : Debouncer) (w : World S)
    : Debouncer * World S * list (Observation A R) :=
  let d := clearTimeouts d in
  let args := lastArgs d in
  let promises := pendingPromises d in
  let d := mkDebouncer (timeoutId d) (maxWaitTimeoutId d) None false [] in
  match args with
  | None => (d, w, [])
  | Some args =>
      let '(result, w') := fn args w in
      (d, w', Invoked args result :: settle result promises)
  end.

(** [call(...args)]; [promise] is the promise being constructed. *)
Definition call (args : A) (promise : nat) (d : Debouncer) (w : World S)
    : Debouncer * World S * list (Observation A R) :=
  let d := mkDebouncer (timeoutId d) (maxWaitTimeoutId d) (Some args)
             (leadingExecuted d) (pendingPromises d ++ [promise]) in
  if leading options && negb (leadingExecuted d)
  then
    execute (mkDebouncer (timeoutId d) (maxWaitTimeoutId d) (lastArgs d)
               true (pendingPromises d)) w
  else
    let d := mkDebouncer (Some (clock w + timerDelay (wait options)))
               (maxWaitTimeoutId d) (lastArgs d) (leadingExecuted d)
               (pendingPromises d) in
    let d :=
      match maxWait options, maxWaitTimeoutId d with
      | Some maxWait, None =>
          mkDebouncer (timeoutId d) (Some (clock w + timerDelay maxWait))
            (lastArgs d) (leadingExecuted d) (pendingPromises d)
      | _, _ => d
      end in
    (d, w, []).

(** [flush()] *)
Definition flush (d : Debouncer) (w : World S)
    : Debouncer * World S * list (Observation A R) :=
  match lastArgs d with
  | Some _ => execute d w
  | None => (d, w, [])
  end.

(** [new Error('Debounced call cancelled')] *)
Definition cancelled : Thrown :=
  ThrowError (PlainError "Debounced call cancelled").

(** [cancel()] *)
Definition cancel (d : Debouncer) (w : World S)
    : Debouncer * World S * list (Observation A R) :=
  let d := clearTimeouts d in
  (mkDebouncer (timeoutId d) (maxWaitTimeoutId d) None false [],
   w,
   map (fun p => Settled p (Throw cancelled)) (pendingPromises d)).

(** [get pending()] *)
Definition pending (d : Debouncer) : bool :=
  match lastArgs d with
  | Some _ => true
  | None => false
  end.

(** *** The event loop

    Time passes; a timer that has become due runs its callback, which is
    [execute()] for both timers.  [execute] clears both, so at most one
    of them fires. *)

Definition setClock (t : Z) (w : World S) : World S :=
  mkWorld (store w) t (entropy w) (randomsDrawn w) (uuids w) (idsDrawn w)
          (trace w).

Definition nextTimer (d : Debouncer) : option Z :=
  match timeoutId d, maxWaitTimeoutId d with
  | Some t, Some m => Some (Z.min t m)
  | Some t, None => Some t
  | None, Some m => Some m
  | None, None => None
  end.

Definition advance (dt : Z) (d : Debouncer) (w : World S)
    : Debouncer * World S * list (Observation A R) :=
  let target := clock w + Z.max 0 dt in
  match nextTimer d with
  | Some due =>
      if due <=? target
      then
        let '(d', w', obs) := execute d (setClock (Z.max (clock w) due) w) in
        (d', setClock (Z.max target (clock w')) w', obs)
      else (d, setClock target w, [])
  | None => (d, setClock target w, [])
  end.

(** What a client does with a debouncer, and a debouncer in use: its
    fields, the world, the number of promises handed out and everything
    observed so far. *)
Inductive Input :=
| Call (args : A)
| Advance (dt : Z)
| Flush
| Cancel.

Record System := mkSystem {
  debouncer : Debouncer;
  world : World S;
  promisesCreated : nat;
  observed : list (Observation A R)
}.

Definition start (w : World S) : System := mkSystem create w 0 [].

Definition step (sys : System) (i : Input) : System :=
  match i with
  | Call args =>
      let '(d, w, obs) :=
        call args (promisesCreated sys) (debouncer sys) (world sys) in
      mkSystem d w (Datatypes.S (promisesCreated sys)) (observed sys ++ obs)
  | Advance dt =>
      let '(d, w, obs) := advance dt (debouncer sys) (world sys) in
      mkSystem d w (promisesCreated sys) (observed sys ++ obs)
  | Flush =>
      let '(d, w, obs) := flush (debouncer sys) (world sys) in
      mkSystem d w (promisesCreated sys) (observed sys ++ obs)
  | Cancel =>
      let '(d, w, obs) := cancel (debouncer sys) (world sys) in
      mkSystem d w (promisesCreated sys) (observed sys ++ obs)
  end.

Definition interact (inputs : list Input) (sys : System) : System :=
  fold_left step inputs sys.

(** The arguments of the calls among [inputs], in order: entry [p] is what
    the caller holding promise [p] passed. *)
Definition callArgs (inputs : list Input) : list A :=
  omap (fun i => match i with Call args => Some args | _ => None end) inputs.

(** The arguments [fn] was invoked with, in order. *)
Definition executions (obs : list (Observation A R)) : list A :=
  omap (fun o => match o with Invoked args _ => Some args | _ => None end) obs.

(** The promises that were settled, in order. *)
Definition settledPromises (obs : list (Observation A R)) : list nat :=
  omap (fun o => match o with Settled p _ => Some p | _ => None end) obs.

(** The single outcome a result of [fn] stands for. *)
Definition outcome (result : FnResult R) : Result R :=
  match result with
  | Returned value => Ok value
  | Threw error => Throw error
  | PromiseFulfilled value => Ok value
  | PromiseRejected error => Throw error
  end.

(** Observations that fall into batches.  A batch is one invocation of
    [fn], with the arguments of the last caller of the batch, followed by
    the settlement of every promise of the batch with the outcome of that
    invocation; between batches, cancelled promises are rejected with the
    cancellation error.  [calls] lists the arguments passed to [call],
    by promise. *)
Inductive Batched (calls : list A) : list (Observation A R) -> Prop :=
| Batched_nil : Batched calls []
| Batched_execution args result promises p w w' rest :
    last promises = Some p ->
    calls !! p = Some args ->
    fn args w = (result, w') ->
    Batched calls rest ->
    Batched calls
      (Invoked args result
         :: map (fun p => Settled p (outcome result)) promises ++ rest)
| Batched_cancel promises rest :
    Batched calls rest ->
    Batched calls
      (map (fun p => Settled p (Throw cancelled)) promises ++ rest).

(** What holds of a debouncer in use, [calls] being the arguments of the
    calls made so far: the observations fall into batches; the promises
    handed out are, in order, the settled ones followed by the pending
    ones; and [lastArgs] is set exactly when a promise is pending, to
    the arguments of the latest pending caller. *)
Record Consistent (calls : list A) (sys : System) : Prop := mkConsistent {
  consistent_batched : Batched calls (observed sys);
  consistent_partition :
    settledPromises (observed sys) ++ pendingPromises (debouncer sys)
    = seq 0 (promisesCreated sys);
  consistent_count : promisesCreated sys = length calls;
  consistent_args :
    match lastArgs (debouncer sys) with
    | Some args =>
        exists p,
          last (pendingPromises (debouncer sys)) = Some p
          /\ calls !! p = Some args
    | None => pendingPromises (debouncer sys) = []
    end
}.

(** [debounce(fn, options)] *)
Definition debounce : Debouncer := create.

(** What holds of the timers of a debouncer in use: [leadingExecuted] is
    down; no timer is armed while nothing is buffered; while something
    is buffered the quiet-period timer is armed and due within [wait] of
    now; an armed deadline timer is due within [maxWait] of now. *)
Record Timed (w : World S) (d : Debouncer) : Prop := mkTimed {
  timed_flag : leadingExecuted d = false;
  timed_idle :
    lastArgs d = None -> timeoutId d = None /\ maxWaitTimeoutId d = None;
  timed_quiet :
    lastArgs d <> None ->
    exists t,
      timeoutId d = Some t /\ t <= clock w + timerDelay (wait options);
  timed_deadline :
    forall m,
      maxWaitTimeoutId d = Some m ->
      exists maxWait,
        Config.maxWait options = Some maxWait
        /\ m <= clock w + timerDelay maxWait
}.

(** Inputs that are not calls, inputs that are calls or let time pass,
    and the time a sequence of inputs lets pass. *)
Definition isCall (i : Input) : bool :=
  match i with
  | Call _ => true
  | _ => false
  end.

Definition isCallOrAdvance (i : Input) : bool :=
  match i with
  | Call _ | Advance _ => true
  | _ => false
  end.

(** A burst: each call is followed by the time that passes before the
    next input. *)
Definition burstInputs (burst : list (A * Z)) : list Input :=
  flat_map (fun '(args, gap) => [Call args; Advance gap]) burst.

Fixpoint elapsed (inputs : list Input) : Z :=
  match inputs with
  | [] => 0
  | Advance dt :: rest => Z.max 0 dt + elapsed rest
  | _ :: rest => elapsed rest
  end.

End Debouncer.
Arguments Debouncer : clear implicits.
Arguments Input : clear implicits.
Arguments System : clear implicits.

End Debouncer.

(* ===================================================================== *)
(** ** src/plugins/handlers/memory.ts *)
(* ===================================================================== *)

Module MemoryHandler.

Section MemoryHandler.
Context {Item : Type}.

(** [Array.prototype.slice(start)]: a negative [start] counts from the
    end; out-of-range values are clamped. *)
Definition slice (start : Z) (l : list Item) : list Item :=
  let len := Z.of_nat (length l) in
  let k := if start <? 0 then Z.max (len + start) 0 else Z.min start len in
  drop (Z.to_nat k) l.

Record MemoryHandler := mkMemoryHandler {
  maxItems : Z;
  _items : list Item
}.

(** [constructor(options = {})]: [options.maxItems ?? 0] *)
Definition create (maxItems : option Z) : MemoryHandler :=
  mkMemoryHandler (default 0 maxItems) [].

(** [handle(item)] *)
Definition handle (item : Item) (h : MemoryHandler) : MemoryHandler :=
  let items := _items h ++ [item] in
  if (0 <? maxItems h) && (maxItems h <? Z.of_nat (length items))
  then mkMemoryHandler (maxItems h) (slice (- maxItems h) items)
  else mkMemoryHandler (maxItems h) items.

Definition items (h : MemoryHandler) : list Item := _items h.
Definition count (h : MemoryHandler) : nat := length (_items h).
Definition last (h : MemoryHandler) : option Item :=
  match _items h with
  | [] => None
  | _ => _items h !! (length (_items h) - 1)%nat
  end.
Definition clear (h : MemoryHandler) : MemoryHandler :=
  mkMemoryHandler (maxItems h) [].

(** All of [items] handled one after the other. *)
Definition handleAll (items : list Item) (h : MemoryHandler) : MemoryHandler :=
  fold_left (fun h item => handle item h) items h.

(** The [n] most recent entries of a history kept in arrival order (all
    of it when it is shorter). *)
Definition mostRecent (n : nat) (history : list Item) : list Item :=
  drop (length history - n) history.

(** [find(predicate)] *)
Definition find (predicate : Item -> bool) (h : MemoryHandler) : list Item :=
  List.filter predicate (_items h).

End MemoryHandler.
Arguments MemoryHandler : clear implicits.

(** [findByType(type)] *)
Definition findByType {Data} (type : string)
    (h : MemoryHandler (Pipeline.FeedbackItem Data))
    : list (Pipeline.FeedbackItem Data) :=
  List.filter (fun item => String.eqb (Pipeline.type item) type) (_items h).

(** The handler as the plugin it implements ([name], [type] and
    [handle]); the handler object is the store its [handle] acts on. *)
Definition plugin {Data}
    : Pipeline.HandlerPlugin (MemoryHandler (Pipeline.FeedbackItem Data)) Data :=
  Pipeline.mkPlugin "memory-handler" None
    (fun item h => (Ok tt, handle item h)).

End MemoryHandler.

(* ===================================================================== *)
(** ** src/core/schema.ts *)
(* ===================================================================== *)

Module Schema.
Import Pipeline.

(** A Zod issue, and what [schema.safeParse(data)] answers. *)
Record ZodIssue := mkZodIssue {
  path : list string;
  message : string
}.

Inductive SafeParse :=
| ParseSuccess
| ParseFailure (issues : list ZodIssue).

(** [Array.prototype.join(sep)] on strings *)
Fixpoint join (sep : string) (parts : list string) : string :=
  match parts with
  | [] => ""
  | [x] => x
  | x :: rest => x +:+ sep +:+ join sep rest
  end.

(** [formatZodErrors(error)] *)
Definition formatZodErrors (issues : list ZodIssue) : list string :=
  map (fun issue =>
         let path :=
           if (0 <? length (path issue))%nat
           then join "." (path issue) +:+ ": "
           else "" in
         path +:+ message issue)
      issues.

Section Schema.
Context {S Data : Type}.

Definition ZodType := Data -> SafeParse.

(** [validateWithSchema(schema, data)] *)
Definition validateWithSchema (schema : ZodType) (data : Data)
    : ValidationResult :=
  match schema data with
  | ParseSuccess => mkValidationResult true []
  | ParseFailure issues => mkValidationResult false (formatZodErrors issues)
  end.

(** [createZodValidator(schema, name = 'zod-validator')] *)
Definition createZodValidator (schema : ZodType) : ValidatorPlugin S Data :=
  mkPlugin "zod-validator" None
    (fun data s => (Ok (validateWithSchema schema data), s)).

End Schema.
Arguments ZodType : clear implicits.

End Schema.

(* ===================================================================== *)
(** ** src/types/hooks.ts and src/core/collector.ts *)
(* ===================================================================== *)

Module Collector.
Import Pipeline Schema Retry.

Section Collector.
Context {S Data : Type}.
Local Open Scope js_scope.

(** [CollectorConfig<T>]; the field [type] of the source is [cfg_type]
    here, [FeedbackItem] owns the name. *)
Record CollectorConfig := mkCollectorConfig {
  cfg_type : string;
  schema : option (ZodType Data);
  debounce : option DebounceConfig;
  retry : option RetryConfig;
  defaultMetadata : gmap string string
}.

(** The hook types.  A before-collect hook returns [void] ([None]) or a
    boolean; the optional [context] of an error hook is its [phase]. *)
Definition BeforeCollectHook :=
  CollectionContext Data -> S -> Result (option bool) * S.
Definition AfterCollectHook := FeedbackItem Data -> S -> Result unit * S.
Definition ErrorHook := JsError -> option ErrorPhase -> S -> Result unit * S.
Definition RetryHook := Z -> JsError -> Z -> S -> Result unit * S.

(** [HookRegistry<T>] *)
Record HookRegistry := mkHookRegistry {
  beforeCollect : list BeforeCollectHook;
  afterCollect : list AfterCollectHook;
  error : list ErrorHook;
  retryHooks : list RetryHook
}.

(** What [collect] takes: the data and the optional metadata. *)
Definition CollectArgs : Type := Data * option (gmap string string).

(** The private fields of [FeedbackCollector<T>]. *)
Record FeedbackCollector := mkFeedbackCollector {
  config : CollectorConfig;
  plugins : PluginRegistry S Data;
  hooks : HookRegistry;
  debouncer : option (Debouncer.Debouncer CollectArgs)
}.

(** [use(plugin)]: the registration, which always happens ... *)
Definition register (plugin : FeedbackPlugin S Data) (c : FeedbackCollector)
    : FeedbackCollector :=
  mkFeedbackCollector (config c) (registerPlugin (plugins c) plugin)
                      (hooks c) (debouncer c).

(** ... and then the install hook, if the plugin has one. *)
Definition runInstall (plugin : FeedbackPlugin S Data) : M S unit :=
  match pluginInstall plugin with
  | Some install =>
      tryCatch
        (let* _ := emit (EvInstall (pluginName plugin)) in external install)
        (throwPluginError (pluginName plugin) PhInstall)
  | None => ret tt
  end.

(** [use(plugin)].  The collector is an object: what [use] did to it
    before throwing stays done, so the collector is returned next to the
    result. *)
Definition use (plugin : FeedbackPlugin S Data) (c : FeedbackCollector)
    (w : World S) : Result unit * FeedbackCollector * World S :=
  let c := register plugin c in
  let '(r, w') := runInstall plugin w in
  (r, c, w').

(** [constructor(config)].  The validator made from the schema has no
    install hook, so [this.use] only registers it. *)
Definition new (config : CollectorConfig) : FeedbackCollector :=
  let c :=
    mkFeedbackCollector config createPluginRegistry
      (mkHookRegistry [] [] [] [])
      (match debounce config with
       | Some d => if 0 <? wait d then Some Debouncer.create else None
       | None => None
       end) in
  match schema config with
  | Some schema => register (IsValidator (createZodValidator schema)) c
  | None => c
  end.

(** [withSchema(schema)] *)
Definition withSchema (schema : ZodType Data) (c : FeedbackCollector)
    (w : World S) : Result unit * FeedbackCollector * World S :=
  use (IsValidator (createZodValidator schema)) c w.

Definition setHooks (h : HookRegistry) (c : FeedbackCollector)
    : FeedbackCollector :=
  mkFeedbackCollector (config c) (plugins c) h (debouncer c).

(** [onBeforeCollect(hook)] *)
Definition onBeforeCollect (hook : BeforeCollectHook) (c : FeedbackCollector)
    : FeedbackCollector :=
  setHooks (mkHookRegistry (beforeCollect (hooks c) ++ [hook])
              (afterCollect (hooks c)) (error (hooks c))
              (retryHooks (hooks c))) c.

(** [onAfterCollect(hook)] *)
Definition onAfterCollect (hook : AfterCollectHook) (c : FeedbackCollector)
    : FeedbackCollector :=
  setHooks (mkHookRegistry (beforeCollect (hooks c))
              (afterCollect (hooks c) ++ [hook]) (error (hooks c))
              (retryHooks (hooks c))) c.

(** [onError(hook)] *)
Definition onError (hook : ErrorHook) (c : FeedbackCollector)
    : FeedbackCollector :=
  setHooks (mkHookRegistry (beforeCollect (hooks c))
              (afterCollect (hooks c)) (error (hooks c) ++ [hook])
              (retryHooks (hooks c))) c.

(** [onRetry(hook)] *)
Definition onRetry (hook : RetryHook) (c : FeedbackCollector)
    : FeedbackCollector :=
  setHooks (mkHookRegistry (beforeCollect (hooks c))
              (afterCollect (hooks c)) (error (hooks c))
              (retryHooks (hooks c) ++ [hook])) c.

(** [validate(data)] *)
Definition validate (c : FeedbackCollector) (data : Data)
    : M S ValidationResult :=
  match schema (config c) with
  | Some schema =>
      let schemaResult := validateWithSchema schema data in
      if negb (valid schemaResult)
      then ret schemaResult
      else runValidators (validators (plugins c)) data
  | None => runValidators (validators (plugins c)) data
  end.

(** [getErrorPhase(error)] *)
Definition getErrorPhase (error : Thrown) : option ErrorPhase :=
  match error with
  | ThrowError (ValidationError _) => Some Validation
  | ThrowError (PluginError _ PhValidate _) => Some Validation
  | ThrowError (PluginError _ PhTransform _) => Some Transform
  | ThrowError (PluginError _ PhHandle _) => Some Handler
  | _ => None
  end.

(** [for (const hook of this.hooks.beforeCollect) ...]; [i] is the
    position of the first hook of the list. *)
Fixpoint beforeCollectLoop (i : nat) (hooks : list BeforeCollectHook)
    (context : CollectionContext Data) : M S unit :=
  match hooks with
  | [] => ret tt
  | hook :: rest =>
      let* _ := emit (EvBeforeCollect i) in
      let* result := external (hook context) in
      match result with
      | Some false =>
          throw (ThrowError
                   (CollectionCancelledError "Cancelled by beforeCollect hook"))
      | _ => beforeCollectLoop (Datatypes.S i) rest context
      end
  end.

(** [for (const hook of this.hooks.afterCollect) await hook(item)] *)
Fixpoint afterCollectLoop (i : nat) (hooks : list AfterCollectHook)
    (item : FeedbackItem Data) : M S unit :=
  match hooks with
  | [] => ret tt
  | hook :: rest =>
      let* _ := emit (EvAfterCollect i (id item)) in
      let* _ := external (hook item) in
      afterCollectLoop (Datatypes.S i) rest item
  end.

(** [for (const hook of this.hooks.error) await hook(error, context)] *)
Fixpoint errorLoop (i : nat) (hooks : list ErrorHook) (error : JsError)
    (phase : option ErrorPhase) : M S unit :=
  match hooks with
  | [] => ret tt
  | hook :: rest =>
      let* _ := emit (EvError i error phase) in
      let* _ := external (hook error phase) in
      errorLoop (Datatypes.S i) rest error phase
  end.

(** The error hooks [hooks], called in order with [error] and [phase] on
    the store the previous one left, all complete normally and leave
    [s']. *)
Inductive ObserversComplete (error : JsError) (phase : option ErrorPhase)
    : list ErrorHook -> S -> S -> Prop :=
| ObserversComplete_nil s : ObserversComplete error phase [] s s
| ObserversComplete_cons hook rest s s1 s' :
    hook error phase s = (Ok tt, s1) ->
    ObserversComplete error phase rest s1 s' ->
    ObserversComplete error phase (hook :: rest) s s'.

(** The events the error hooks at positions [i], [i + 1], ... leave. *)
Definition errorEvents (i : nat) (hooks : list ErrorHook) (error : JsError)
    (phase : option ErrorPhase) : list Event :=
  imap (fun j _ => EvError (i + j) error phase) hooks.

(** [for (const hook of this.hooks.retry) await hook(...)] *)
Fixpoint retryHooksLoop (i : nat) (hooks : list RetryHook) (attempt : Z)
    (error : JsError) (nextDelay : Z) : M S unit :=
  match hooks with
  | [] => ret tt
  | hook :: rest =>
      let* _ := emit (EvRetry i attempt error nextDelay) in
      let* _ := external (hook attempt error nextDelay) in
      retryHooksLoop (Datatypes.S i) rest attempt error nextDelay
  end.

(** [runHandlersWithRetry(item)] *)
Definition runHandlersWithRetry (c : FeedbackCollector)
    (item : FeedbackItem Data) : M S unit :=
  let handlersToRun := runHandlers (handlers (plugins c)) item true in
  match retry (config c) with
  | Some retry =>
      withRetry handlersToRun
        (mkRetryOptions retry
           (Some (retryHooksLoop 0 (retryHooks (hooks c)))))
  | None => handlersToRun
  end.

(** The [try] block of [executeCollection]. *)
Definition collectionBody (c : FeedbackCollector) (data : Data)
    (mergedMetadata : gmap string string) (timestamp : Z)
    : M S (FeedbackItem Data) :=
  let context :=
    mkCollectionContext (cfg_type (config c)) data mergedMetadata timestamp in
  let* _ := beforeCollectLoop 0 (beforeCollect (hooks c)) context in
  let* validationResult := validate c data in
  if negb (valid validationResult)
  then throw (ThrowError (ValidationError (errors validationResult)))
  else
    let* id := generateId in
    let item :=
      mkFeedbackItem id (cfg_type (config c)) data mergedMetadata timestamp in
    let* item :=
      if (0 <? length (transformers (plugins c)))%nat
      then runTransformers (transformers (plugins c)) item
      else ret item in
    let* _ :=
      if (0 <? length (handlers (plugins c)))%nat
      then runHandlersWithRetry c item
      else ret tt in
    let* _ := afterCollectLoop 0 (afterCollect (hooks c)) item in
    ret item.

(** [{ ...this.config.defaultMetadata, ...metadata }]: the per-call value
    wins on a shared key. *)
Definition mergeMetadata (defaults : gmap string string)
    (metadata : option (gmap string string)) : gmap string string :=
  match metadata with
  | Some m => m ∪ defaults
  | None => defaults
  end.

(** [executeCollection(data, metadata)] *)
Definition executeCollection (c : FeedbackCollector) (data : Data)
    (metadata : option (gmap string string)) : M S (FeedbackItem Data) :=
  let* timestamp := Date_now in
  let mergedMetadata := mergeMetadata (defaultMetadata (config c)) metadata in
  tryCatch (collectionBody c data mergedMetadata timestamp)
    (fun error =>
       let phase := getErrorPhase error in
       let* _ := errorLoop 0 (Collector.error (hooks c)) (toError error) phase in
       throw error).

(** The function the constructor hands to the debouncer: the bound
    [executeCollection], an [async] function, so it always answers with a
    promise. *)
Definition boundExecute (c : FeedbackCollector) (args : CollectArgs)
    (w : World S) : Debouncer.FnResult (FeedbackItem Data) * World S :=
  match executeCollection c (fst args) (snd args) w with
  | (Ok item, w') => (Debouncer.PromiseFulfilled item, w')
  | (Throw t, w') => (Debouncer.PromiseRejected t, w')
  end.

Definition debounceOptions (c : FeedbackCollector) : DebounceConfig :=
  match debounce (config c) with
  | Some d => d
  | None => mkDebounceConfig 0 None false
  end.

Definition setDebouncer (d : Debouncer.Debouncer CollectArgs)
    (c : FeedbackCollector) : FeedbackCollector :=
  mkFeedbackCollector (config c) (plugins c) (hooks c) (Some d).

(** [collect(data, metadata)]; [promise] is the promise the caller gets.
    Without a debouncer it is the promise of [executeCollection]. *)
Definition collect (data : Data) (metadata : option (gmap string string))
    (promise : nat) (c : FeedbackCollector) (w : World S)
    : FeedbackCollector * World S
      * list (Debouncer.Observation CollectArgs (FeedbackItem Data)) :=
  match debouncer c with
  | Some d =>
      let '(d', w', obs) :=
        Debouncer.call (boundExecute c) (debounceOptions c) (data, metadata)
          promise d w in
      (setDebouncer d' c, w', obs)
  | None =>
      let '(r, w') := executeCollection c data metadata w in
      (c, w', [Debouncer.Settled promise r])
  end.

(** [flush()] *)
Definition flush (c : FeedbackCollector) (w : World S)
    : FeedbackCollector * World S
      * list (Debouncer.Observation CollectArgs (FeedbackItem Data)) :=
  match debouncer c with
  | Some d =>
      let '(d', w', obs) := Debouncer.flush (boundExecute c) d w in
      (setDebouncer d' c, w', obs)
  | None => (c, w, [])
  end.

(** [cancel()] *)
Definition cancel (c : FeedbackCollector) (w : World S)
    : FeedbackCollector * World S
      * list (Debouncer.Observation CollectArgs (FeedbackItem Data)) :=
  match debouncer c with
  | Some d =>
      let '(d', w', obs) := Debouncer.cancel (A := CollectArgs) d w in
      (setDebouncer d' c, w', obs)
  | None => (c, w, [])
  end.

(** The event loop: time passes and a due timer of the debouncer, if
    there is one, runs [execute()]. *)
Definition advance (dt : Z) (c : FeedbackCollector) (w : World S)
    : FeedbackCollector * World S
      * list (Debouncer.Observation CollectArgs (FeedbackItem Data)) :=
  match debouncer c with
  | Some d =>
      let '(d', w', obs) := Debouncer.advance (boundExecute c) dt d w in
      (setDebouncer d' c, w', obs)
  | None => (c, Debouncer.setClock (clock w + Z.max 0 dt) w, [])
  end.

(** The before-collect hooks [hooks], called in order with [context] on
    the store the previous one left, all complete without answering
    [false], and leave [s']. *)
Inductive HooksPass (context : CollectionContext Data)
    : list BeforeCollectHook -> S -> S -> Prop :=
| HooksPass_nil s : HooksPass context [] s s
| HooksPass_cons hook rest s answer s1 s' :
    hook context s = (Ok answer, s1) ->
    answer <> Some false ->
    HooksPass context rest s1 s' ->
    HooksPass context (hook :: rest) s s'.

(** The after-collect hooks [hooks], called in order with [item], all
    complete normally and leave [s']. *)
Inductive HooksComplete (item : FeedbackItem Data)
    : list AfterCollectHook -> S -> S -> Prop :=
| HooksComplete_nil s : HooksComplete item [] s s
| HooksComplete_cons hook rest s s1 s' :
    hook item s = (Ok tt, s1) ->
    HooksComplete item rest s1 s' ->
    HooksComplete item (hook :: rest) s s'.

(** The events the hooks at positions [i], [i + 1], ... leave. *)
Definition beforeEvents (i : nat) (hooks : list BeforeCollectHook)
    : list Event :=
  imap (fun j _ => EvBeforeCollect (i + j)) hooks.

Definition afterEvents (i : nat) (hooks : list AfterCollectHook)
    (item : FeedbackItem Data) : list Event :=
  imap (fun j _ => EvAfterCollect (i + j) (id item)) hooks.

(** The events of a handler stage in which every handler completes at
    the first attempt. *)
Definition handlerEvents (c : FeedbackCollector) : list Event :=
  if (0 <? length (handlers (plugins c)))%nat
  then
    match retry (config c) with
    | Some _ => [EvAttempt 1]
    | None => []
    end ++ map (fun h => EvHandle (name h)) (handlers (plugins c))
  else [].

(** [executeCollection] called for each of [inputs] in turn, as long as
    it succeeds: the items returned, in order. *)
Fixpoint collectAll (c : FeedbackCollector) (inputs : list Data)
    : M S (list (FeedbackItem Data)) :=
  match inputs with
  | [] => ret []
  | data :: rest =>
      let* item := executeCollection c data None in
      let* items := collectAll c rest in
      ret (item :: items)
  end.

End Collector.
Arguments CollectorConfig : clear implicits.
Arguments HookRegistry : clear implicits.
Arguments FeedbackCollector : clear implicits.
Arguments BeforeCollectHook : clear implicits.
Arguments AfterCollectHook : clear implicits.
Arguments ErrorHook : clear implicits.
Arguments RetryHook : clear implicits.

End Collector.

(* ===================================================================== *)
(** ** src/utils/id.ts *)
(* ===================================================================== *)

Module Id.

(** [String.prototype.charAt(pos)]: the empty string out of range. *)
Definition charAt (s : string) (pos : Z) : string :=
  if pos <? 0
  then ""
  else match String.get (Z.to_nat pos) s with
       | Some c => String c ""
       | None => ""
       end.

Definition chars : string :=
  "ABCDEFGHIJKLMNOPQRSTUVWXYZabcdefghijklmnopqrstuvwxyz0123456789".

(** [x | 0]: the number truncated towards zero and wrapped to 32 bits. *)
Definition toInt32 (x : Q) : Z :=
  let truncated := if Qle_bool 0 x then Qfloor x else Qceiling x in
  (truncated + 2 ^ 31) mod 2 ^ 32 - 2 ^ 31.

(** [v.toString(16)] on an integer *)
Definition toString16 (v : Z) : string :=
  NilZero.string_of_int (Z.to_hex_int v).

Section Id.
Context {S : Type}.
Local Open Scope js_scope.

(** The [for] loop of [generateShortId]; [n] iterations remain. *)
Fixpoint shortIdLoop (n : nat) (result : string) : M S string :=
  match n with
  | O => ret result
  | Datatypes.S n' =>
      let* rnd := Math_random in
      shortIdLoop n'
        (result
         +:+ charAt chars
               (Qfloor (rnd * inject_Z (Z.of_nat (String.length chars)))))
  end.

(** [generateShortId(length = 8)] *)
Definition generateShortId (length : option Z) : M S string :=
  shortIdLoop (Z.to_nat (default 8 length)) "".

(** The callback of the fallback of [generateId], called with the
    character matched. *)
Definition replacement (c : Ascii.ascii) : M S string :=
  let* rnd := Math_random in
  let r := toInt32 (rnd * 16) in
  let v := if Ascii.eqb c "x"%char then r else Z.lor (Z.land r 3) 8 in
  ret (toString16 v).

(** [template.replace(/[xy]/g, callback)]: the matches are replaced from
    left to right. *)
Fixpoint replaceXY (template : string) : M S string :=
  match template with
  | EmptyString => ret ""
  | String c rest =>
      if Ascii.eqb c "x"%char || Ascii.eqb c "y"%char
      then
        let* replaced := replacement c in
        let* tail := replaceXY rest in
        ret (replaced +:+ tail)
      else
        let* tail := replaceXY rest in
        ret (String c tail)
  end.

(** The fallback branch of [generateId], taken where [crypto.randomUUID]
    does not exist. *)
Definition generateIdFallback : M S string :=
  replaceXY "xxxxxxxx-xxxx-4xxx-yxxx-xxxxxxxxxxxx".

End Id.

(** The shape of an identifier made from [template]: a lower-case
    hexadecimal digit for every [x], one of 8, 9, a, b for every [y], the
    character of the template elsewhere. *)
Definition isHexDigit (c : Ascii.ascii) : bool :=
  existsb (Ascii.eqb c) (String.list_ascii_of_string "0123456789abcdef").

Definition isVariantDigit (c : Ascii.ascii) : bool :=
  existsb (Ascii.eqb c) (String.list_ascii_of_string "89ab").

Fixpoint matchesTemplate (template id : string) : bool :=
  match template, id with
  | EmptyString, EmptyString => true
  | String t template', String c id' =>
      (if Ascii.eqb t "x"%char then isHexDigit c
       else if Ascii.eqb t "y"%char then isVariantDigit c
       else Ascii.eqb c t)
      && matchesTemplate template' id'
  | _, _ => false
  end.

End Id.

(* ===================================================================== *)
(** ** Scenarios: concrete collectors, plugins and worlds *)
(* ===================================================================== *)

Module Scenarios.
Import Pipeline Schema Retry Collector.

(** A world with an empty trace whose entropy is constant and whose
    identifiers are the decimal numerals. *)
Definition world0 {S} (s : S) (rnd : Q) : World S :=
  mkWorld s 0 (fun _ => rnd) 0 (fun n => pretty n) 0 [].

(** Two validators that both reject, and one that accepts but still lists
    a message. *)
Definition validatorA {S} : ValidatorPlugin S Z :=
  mkPlugin "A" None (fun _ s => (Ok (mkValidationResult false ["a1"; "a2"]), s)).
Definition validatorB {S} : ValidatorPlugin S Z :=
  mkPlugin "B" None (fun _ s => (Ok (mkValidationResult false ["b1"]), s)).
Definition lenient {S} : ValidatorPlugin S Z :=
  mkPlugin "lenient" None
    (fun _ s => (Ok (mkValidationResult true ["ignored"]), s)).

(** An operation over a counter of its own invocations: it throws the
    string "down" twice, then returns the count. *)
Definition flaky : M nat nat :=
  external (fun n => if (n <? 2)%nat
                     then (Throw (ThrowValue "down"), Datatypes.S n)
                     else (Ok n, Datatypes.S n)).

(** An operation that always rejects with an [Error]. *)
Definition broken : M nat nat :=
  external (fun n => (Throw (ThrowError (PlainError "fatal")), Datatypes.S n)).

(** [{ attempts: 3, baseDelay: 100, maxDelay: 10000,
       backoff: 'exponential' }], without and with a [retryOn] that lets
    only "down" pass. *)
Definition threeAttempts : RetryOptions nat :=
  mkRetryOptions (mkRetryConfig 3 100 (Some 10000%Q) Exponential None) None.

Definition onlyWhenDown : RetryOptions nat :=
  mkRetryOptions
    (mkRetryConfig 3 100 (Some 10000%Q) Exponential
       (Some (fun e => match e with
                       | PlainError "down" => true
                       | _ => false
                       end)))
    None.

(** The same options with an [onRetry] callback that throws. *)
Definition impatient : RetryOptions nat :=
  mkRetryOptions (mkRetryConfig 3 100 (Some 10000%Q) Exponential None)
    (Some (fun _ _ _ => throw (ThrowValue "enough"))).

(** The world two failed attempts leave behind when the entropy is a
    constant 1/2 (no jitter): [invocations] calls were made so far, the
    clock stands at 100 + 200. *)
Definition afterTwoFailures (invocations : nat) : World nat :=
  mkWorld invocations 300 (fun _ => 1 # 2) 2 (fun n => pretty n) 0
    [EvAttempt 1; EvSleep 100; EvAttempt 2; EvSleep 200].

(** Collectors over integer data whose plugins and hooks keep a log of
    strings as their store. *)
Definition npsConfig : CollectorConfig Z :=
  mkCollectorConfig "nps" None None None ∅.

(** A transformer that replaces the item's [id] and [type]. *)
Definition relabel : TransformerPlugin (list string) Z :=
  mkPlugin "relabel" None
    (fun item s =>
       (Ok (mkFeedbackItem "fixed" "other" (data item) (metadata item)
              (timestamp item)), s)).

Definition relabelling : FeedbackCollector (list string) Z :=
  register (IsTransformer relabel) (new npsConfig).

(** A transformer that adds a metadata entry and keeps the rest. *)
Definition stamp : TransformerPlugin (list string) Z :=
  mkPlugin "stamp" None
    (fun item s =>
       (Ok (mkFeedbackItem (id item) (type item) (data item)
              (<["seen" := "yes"]> (metadata item)) (timestamp item)), s)).

Definition stamping : FeedbackCollector (list string) Z :=
  register (IsTransformer stamp) (new npsConfig).

(** A handler that logs the ids it handles and whose install hook
    throws. *)
Definition audit : HandlerPlugin (list string) Z :=
  mkPlugin "audit" (Some (fun s => (Throw (ThrowValue "no backend"), s)))
    (fun item s => (Ok tt, s ++ [id item])).

(** Two error observers: the first throws, the second logs. *)
Definition crashingObserver : ErrorHook (list string) :=
  fun _ _ s => (Throw (ThrowValue "observer crashed"), s).
Definition loggingObserver : ErrorHook (list string) :=
  fun _ _ s => (Ok tt, s ++ ["observed"]).

(** A collector whose validator always rejects, observed by both. *)
Definition rejecting : FeedbackCollector (list string) Z :=
  onError loggingObserver
    (onError crashingObserver
       (register (IsValidator validatorB) (new npsConfig))).

(** The same with the logging observer alone, twice. *)
Definition rejectingObserved : FeedbackCollector (list string) Z :=
  onError loggingObserver
    (onError loggingObserver
       (register (IsValidator validatorB) (new npsConfig))).

(** A collector that debounces with [{ wait: 100 }] and has the logging
    observer registered. *)
Definition debounced : FeedbackCollector (list string) Z :=
  onError loggingObserver
    (new (mkCollectorConfig "nps" None (Some (mkDebounceConfig 100 None false))
            None ∅)).

(** A wrapped function that returns its argument, and
    [{ wait: 100, leading: true }], [{ wait: 100 }] and
    [{ wait: 100, maxWait: 200 }]. *)
Definition echo (args : Z) (w : World unit) : Debouncer.FnResult Z * World unit :=
  (Debouncer.Returned args, w).

Definition leadingEdge : DebounceConfig := mkDebounceConfig 100 None true.
Definition trailingEdge : DebounceConfig := mkDebounceConfig 100 None false.
Definition withDeadline : DebounceConfig :=
  mkDebounceConfig 100 (Some 200) false.

(** A validator and a transformer that throw, a handler that logs the
    ids it handles, and one that notes the call and throws. *)
Definition crashingValidator {S} : ValidatorPlugin S Z :=
  mkPlugin "crashing" None (fun _ s => (Throw (ThrowValue "boom"), s)).

Definition crashingTransformer : TransformerPlugin (list string) Z :=
  mkPlugin "crashing" None (fun _ s => (Throw (ThrowValue "boom"), s)).

Definition logger : HandlerPlugin (list string) Z :=
  mkPlugin "logger" None (fun item s => (Ok tt, s ++ [id item])).

Definition offline : HandlerPlugin (list string) Z :=
  mkPlugin "offline" None
    (fun _ s => (Throw (ThrowError (PlainError "offline")), s ++ ["tried"])).

(** Hooks: a before-collect hook that returns nothing, one that answers
    [false], and an after-collect hook. *)
Definition consent : BeforeCollectHook (list string) Z :=
  fun _ s => (Ok None, s ++ ["before"]).
Definition refusal : BeforeCollectHook (list string) Z :=
  fun _ s => (Ok (Some false), s).
Definition thanks : AfterCollectHook (list string) Z :=
  fun _ s => (Ok tt, s ++ ["after"]).

(** A schema that accepts the scores from 0 on. *)
Definition scoreSchema : ZodType Z :=
  fun score =>
    if 0 <=? score
    then ParseSuccess
    else ParseFailure [mkZodIssue ["score"] "must not be negative"].

Definition retrying : RetryConfig := mkRetryConfig 3 100 None Exponential None.

(** A collector with the schema, one plugin of each kind, hooks before
    and after, and retries. *)
Definition complete : FeedbackCollector (list string) Z :=
  onError loggingObserver
    (onAfterCollect thanks
       (onBeforeCollect consent
          (register (IsHandler logger)
             (register (IsTransformer stamp)
                (register (IsValidator lenient)
                   (new (mkCollectorConfig "nps" (Some scoreSchema) None
                           (Some retrying) {["source" := "web"]}))))))).

(** The same collector with a second before-collect hook that refuses. *)
Definition refusing : FeedbackCollector (list string) Z :=
  onBeforeCollect consent (onBeforeCollect refusal complete).

(** A collector whose validator rejects, observed. *)
Definition strict : FeedbackCollector (list string) Z :=
  onError loggingObserver (register (IsValidator validatorB) complete).

(** A collector whose only handler is offline, without and with
    retries. *)
Definition unreachable : FeedbackCollector (list string) Z :=
  register (IsHandler offline) (new npsConfig).
Definition unreachableRetrying : FeedbackCollector (list string) Z :=
  register (IsHandler offline)
    (new (mkCollectorConfig "nps" None None (Some retrying) ∅)).

(** A collector with the schema and default metadata only, and one
    with a memory handler. *)
Definition plain : FeedbackCollector (list string) Z :=
  new (mkCollectorConfig "nps" (Some scoreSchema) None None
         {["source" := "web"]}).

Definition remembering
    : FeedbackCollector (MemoryHandler.MemoryHandler (FeedbackItem Z)) Z :=
  register (IsHandler MemoryHandler.plugin) (new npsConfig).

End Scenarios.

(* ===================================================================== *)
(** * Properties *)
(* ===================================================================== *)

(** ** The memory handler *)

Section MemoryHandlerFacts.
Import MemoryHandler.
Context {Item : Type}.
Implicit Types (l history : list Item) (h : MemoryHandler Item).

Lemma mostRecent_all n l : (length l <= n)%nat -> mostRecent n l = l.
Proof.
  intros Hle. unfold mostRecent.
  replace (length l - n)%nat with 0%nat by lia. reflexivity.
Qed.

Lemma mostRecent_length n l : length (mostRecent n l) = Nat.min n (length l).
Proof. unfold mostRecent. rewrite length_drop. lia. Qed.

Lemma mostRecent_app n l r :
  mostRecent n (mostRecent n l ++ r) = mostRecent n (l ++ r).
Proof.
  destruct (Nat.le_gt_cases (length l) n) as [Hle|Hgt].
  - by rewrite (mostRecent_all n l).
  - unfold mostRecent at 1 3.
    rewrite !length_app, mostRecent_length.
    replace (Nat.min n (length l) + length r - n)%nat with (length r) by lia.
    replace (length l + length r - n)%nat
      with ((length l - n) + length r)%nat by lia.
    unfold mostRecent.
    rewrite <- drop_drop, (drop_app_le l r (length l - n)) by lia.
    reflexivity.
Qed.

Lemma slice_negative (k : Z) l :
  0 < k -> slice (- k) l = mostRecent (Z.to_nat k) l.
Proof.
  intros Hk. unfold slice, mostRecent.
  destruct (Z.ltb_spec (- k) 0); [|lia].
  f_equal. lia.
Qed.

Lemma handle_maxItems item h : maxItems (handle item h) = maxItems h.
Proof. unfold handle. by destruct (_ && _). Qed.

Lemma handle_bounded item h :
  0 < maxItems h ->
  _items (handle item h) = mostRecent (Z.to_nat (maxItems h)) (_items h ++ [item]).
Proof.
  intros Hpos. unfold handle.
  destruct (Z.ltb_spec 0 (maxItems h)); [|lia].
  destruct (Z.ltb_spec (maxItems h) (Z.of_nat (length (_items h ++ [item]))));
    simpl.
  - by apply slice_negative.
  - symmetry. apply mostRecent_all. lia.
Qed.

Lemma handle_unbounded item h :
  maxItems h <= 0 -> _items (handle item h) = _items h ++ [item].
Proof.
  intros Hle. unfold handle.
  destruct (Z.ltb_spec 0 (maxItems h)); [lia|]. reflexivity.
Qed.

Lemma handleAll_bounded history h :
  0 < maxItems h ->
  (length (_items h) <= Z.to_nat (maxItems h))%nat ->
  _items (handleAll history h)
  = mostRecent (Z.to_nat (maxItems h)) (_items h ++ history).
Proof.
  revert h. induction history as [|item history IH]; intros h Hpos Hlen.
  - simpl. rewrite app_nil_r. symmetry. by apply mostRecent_all.
  - change (handleAll (item :: history) h)
      with (handleAll history (handle item h)).
    rewrite IH.
    + rewrite handle_maxItems, handle_bounded by done.
      by rewrite mostRecent_app, <- app_assoc.
    + by rewrite handle_maxItems.
    + rewrite handle_maxItems, handle_bounded by done.
      rewrite mostRecent_length. lia.
Qed.

Lemma handleAll_unbounded history h :
  maxItems h <= 0 -> _items (handleAll history h) = _items h ++ history.
Proof.
  revert h. induction history as [|item history IH]; intros h Hle; simpl.
  - by rewrite app_nil_r.
  - change (handleAll (item :: history) h)
      with (handleAll history (handle item h)).
    rewrite IH by (by rewrite handle_maxItems).
    rewrite handle_unbounded by done. by rewrite <- app_assoc.
Qed.

(** C10.  A handler built with [maxItems = n > 0] holds, after any
    sequence of [handle] calls, the [n] most recently handled items in
    arrival order (all of them while fewer than [n] have arrived), so
    never more than [n]; with [maxItems = 0], which is also the default,
    it holds every item handled, in arrival order. *)
Theorem memory_handler_window (n : Z) history :
  (0 < n ->
   items (handleAll history (create (Some n)))
   = mostRecent (Z.to_nat n) history
   /\ Z.of_nat (count (handleAll history (create (Some n)))) <= n)
  /\ items (handleAll history (create (Some 0))) = history
  /\ items (handleAll history (create None)) = history.
Proof.
  split; [intros Hn; split|split].
  - unfold items. by rewrite handleAll_bounded by (simpl; lia).
  - unfold count. rewrite handleAll_bounded by (simpl; lia). simpl.
    rewrite mostRecent_length. lia.
  - unfold items. by rewrite handleAll_unbounded.
  - unfold items. by rewrite handleAll_unbounded.
Qed.

End MemoryHandlerFacts.

Lemma memory_handler_window_witness :
  0 < 2
  /\ MemoryHandler.items
       (MemoryHandler.handleAll [1; 2; 3] (MemoryHandler.create (Some 2)))
     = [2; 3]
  /\ Z.of_nat
       (MemoryHandler.count
          (MemoryHandler.handleAll [1; 2; 3] (MemoryHandler.create (Some 2))))
     <= 2.
Proof.
  split; [lia|].
  apply (proj1 (memory_handler_window 2 [1; 2; 3])). lia.
Defined.

(** ** The pipeline runner: validators *)

Section ValidatorFacts.
Import Pipeline.
Context {S Data : Type}.
Implicit Types (w : World S) (data : Data).
Implicit Types (validators : list (ValidatorPlugin S Data)).

Lemma reportedErrors_cons (r : ValidationResult) results :
  reportedErrors (r :: results)
  = (if negb (valid r) then errors r else []) ++ reportedErrors results.
Proof.
  unfold reportedErrors. rewrite filter_cons.
  destruct (decide (valid r = false)) as [E|E]; destruct (valid r); done.
Qed.

Lemma reportedErrors_consistent results :
  Forall (fun r => valid r = true -> errors r = []) results ->
  reportedErrors results = concat (map errors results).
Proof.
  induction 1 as [|r results Hr _ IH]; [done|].
  rewrite reportedErrors_cons, IH. simpl.
  destruct (valid r); simpl; [by rewrite Hr|done].
Qed.

Lemma validatorsLoop_answers validators data allErrors w results s' :
  Answers validators data (store w) results s' ->
  validatorsLoop validators data allErrors w
  = (Ok (allErrors ++ reportedErrors results),
     addTrace (map (fun v => EvValidate (name v)) validators) (setStore s' w)).
Proof.
  revert allErrors w results s'.
  induction validators as [|v validators IH];
    intros allErrors [s c e rd u ids tr] results s' Hans;
    inversion Hans as [|? ? ? ? r s1 rs ? Hv Hrest]; subst; simpl in *.
  - unfold ret, addTrace, setStore; simpl. by rewrite !app_nil_r.
  - unfold bind at 1.
    unfold tryCatch, bind, emit, external, ret, addTrace, setStore; simpl.
    rewrite Hv. rewrite (IH _ _ rs s') by done.
    rewrite reportedErrors_cons. unfold addTrace, setStore; simpl.
    rewrite <- !app_assoc. simpl.
    by destruct (valid r); simpl; rewrite ?app_nil_r, <- ?app_assoc.
Qed.

(** C6, as the code has it.  When no validator throws, every validator
    runs, in registration order, whatever the earlier ones reported; the
    combined [errors] are the errors of the results flagged invalid,
    concatenated in registration order; [valid] holds exactly when that
    list is empty.  A result flagged valid contributes nothing, so the
    list is the concatenation of all the results' errors when every valid
    result has an empty [errors]. *)
Theorem runValidators_accumulates validators data w results s' :
  Answers validators data (store w) results s' ->
  exists combined w',
    runValidators validators data w = (Ok combined, w')
    /\ errors combined = reportedErrors results
    /\ (valid combined = true <-> errors combined = [])
    /\ trace w' = trace w ++ map (fun v => EvValidate (name v)) validators
    /\ store w' = s'
    /\ (Forall (fun r => valid r = true -> errors r = []) results ->
        errors combined = concat (map errors results)).
Proof.
  intros Hans. unfold runValidators, bind.
  rewrite (validatorsLoop_answers _ _ _ _ _ _ Hans). simpl.
  eexists _, _. split; [reflexivity|]. simpl.
  repeat split; try done.
  - destruct (reportedErrors results); simpl; [done|discriminate].
  - by intros ->.
  - apply reportedErrors_consistent.
Qed.

End ValidatorFacts.

Lemma runValidators_accumulates_witness :
  exists combined w',
    Pipeline.runValidators
      [Scenarios.validatorA (S := unit); Scenarios.validatorB] 7
      (Scenarios.world0 tt 0)
    = (Ok combined, w')
    /\ Pipeline.errors combined = ["a1"; "a2"; "b1"]
    /\ (Pipeline.valid combined = true <-> Pipeline.errors combined = [])
    /\ trace w' = [EvValidate "A"; EvValidate "B"]
    /\ store w' = tt
    /\ (Forall (fun r => Pipeline.valid r = true -> Pipeline.errors r = [])
          [Pipeline.mkValidationResult false ["a1"; "a2"];
           Pipeline.mkValidationResult false ["b1"]] ->
        Pipeline.errors combined = ["a1"; "a2"; "b1"]).
Proof.
  apply (runValidators_accumulates
           [Scenarios.validatorA (S := unit); Scenarios.validatorB] 7
           (Scenarios.world0 tt 0)
           [Pipeline.mkValidationResult false ["a1"; "a2"];
            Pipeline.mkValidationResult false ["b1"]] tt).
  repeat (eapply Pipeline.Answers_cons; [reflexivity|]).
  apply Pipeline.Answers_nil.
Defined.

(** C6 as claimed fails: a validator whose result is flagged valid but
    lists a message has run and returned, yet the combined list is not
    the concatenation of the validators' errors. *)
Lemma runValidators_drops_errors_of_valid_results :
  Pipeline.Answers [Scenarios.lenient (S := unit)] 7 tt
    [Pipeline.mkValidationResult true ["ignored"]] tt
  /\ exists combined w',
      Pipeline.runValidators [Scenarios.lenient] 7 (Scenarios.world0 tt 0)
      = (Ok combined, w')
      /\ Pipeline.errors combined
         <> concat (map Pipeline.errors
                      [Pipeline.mkValidationResult true ["ignored"]]).
Proof.
  split.
  - eapply Pipeline.Answers_cons; [reflexivity|apply Pipeline.Answers_nil].
  - eexists _, _. split; [reflexivity|]. simpl. discriminate.
Qed.

(** ** The retry executor: the delay between two attempts *)

Section DelayFacts.
Import Retry.
Local Open Scope Q_scope.

Lemma Math_round_le (x y : Q) : x <= y -> (Math_round x <= Math_round y)%Z.
Proof.
  intros Hxy. unfold Math_round. apply Qfloor_resp_le.
  by apply Qplus_le_compat; [|apply Qle_refl].
Qed.

Lemma Math_round_comp (x y : Q) : x == y -> Math_round x = Math_round y.
Proof. intros Hxy. unfold Math_round. apply Qfloor_comp. by rewrite Hxy. Qed.

Lemma policyDelay_nonneg (attempt : Z) (baseDelay : Q) (backoff : Backoff) :
  0 <= baseDelay -> (1 <= attempt)%Z ->
  0 <= policyDelay attempt baseDelay backoff.
Proof.
  intros Hbase Hattempt. destruct backoff; simpl.
  - apply Qmult_le_0_compat; [done|]. by apply Qpower_0_le.
  - apply Qmult_le_0_compat; [done|].
    change 0 with (inject_Z 0). rewrite <- Zle_Qle. lia.
  - done.
Qed.

(** The three policies, as the specification names them. *)
Lemma policyDelay_values (attempt : Z) (baseDelay : Q) :
  (1 <= attempt)%Z ->
  policyDelay attempt baseDelay Fixed == baseDelay
  /\ policyDelay attempt baseDelay Linear == baseDelay * inject_Z attempt
  /\ policyDelay attempt baseDelay Exponential
     == baseDelay * inject_Z (2 ^ (attempt - 1)).
Proof.
  intros Hattempt. repeat split; simpl; try reflexivity.
  rewrite Zpower_Qpower by lia. reflexivity.
Qed.

Lemma jitteredDelay_bounds (rnd : Q) (attempt : Z) (baseDelay maxDelay : Q)
    (backoff : Backoff) :
  0 <= rnd < 1 -> 0 <= baseDelay -> (1 <= attempt)%Z ->
  let policy := policyDelay attempt baseDelay backoff in
  (Math_round (Qmin (policy * (9 # 10)) maxDelay)
   <= jitteredDelay rnd attempt baseDelay maxDelay backoff
   <= Math_round (Qmin (policy * (11 # 10)) maxDelay))%Z.
Proof.
  intros [Hrnd0 Hrnd1] Hbase Hattempt policy.
  pose proof (policyDelay_nonneg attempt baseDelay backoff Hbase Hattempt)
    as Hpolicy.
  fold policy in Hpolicy. unfold jitteredDelay. fold policy.
  split; apply Math_round_le, Q.min_le_compat_r; nra.
Qed.

Lemma jitteredDelay_specified (rnd : Q) (attempt : Z)
    (baseDelay maxDelay : Q) (backoff : Backoff) :
  0 <= baseDelay -> (1 <= attempt)%Z ->
  policyDelay attempt baseDelay backoff <= maxDelay ->
  jitteredDelay rnd attempt baseDelay maxDelay backoff
  = specifiedDelay rnd attempt baseDelay maxDelay backoff.
Proof.
  intros Hbase Hattempt Hcap.
  pose proof (policyDelay_nonneg attempt baseDelay backoff Hbase Hattempt)
    as Hpolicy.
  unfold jitteredDelay, specifiedDelay. apply Math_round_comp.
  rewrite (Q.min_l _ _ Hcap), (Q.max_r _ _ Hpolicy). reflexivity.
Qed.

Context {S : Type}.


End DelayFacts.



(** ** The retry executor: the loop *)

Section RetryFacts.
Import Retry.
Context {S T : Type}.
Implicit Types (fn : M S T) (o : RetryOptions S) (w : World S).

Lemma AtAttempt_positive fn o w0 attempt lastError w :
  AtAttempt fn o w0 attempt lastError w -> 1 <= attempt.
Proof. induction 1; lia. Qed.

(** One iteration of the loop, by the way the attempt ends. *)
Lemma retryLoop_success fn o n attempt lastError w v w1 :
  fn (addTrace [EvAttempt attempt] w) = (Ok v, w1) ->
  retryLoop fn o (Datatypes.S n) attempt lastError w = (Ok v, w1).
Proof. intros Hfn. simpl. unfold tryCatch, bind, emit. by rewrite Hfn. Qed.

Lemma retryLoop_veto fn o n attempt lastError w error w1 :
  fn (addTrace [EvAttempt attempt] w) = (Throw error, w1) ->
  vetoed o (toError error) = true ->
  retryLoop fn o (Datatypes.S n) attempt lastError w
  = (Throw (ThrowError (toError error)), w1).
Proof.
  intros Hfn Hveto. simpl. unfold tryCatch, bind, emit.
  by rewrite Hfn, Hveto.
Qed.

Lemma retryLoop_last fn o n attempt lastError w error w1 :
  fn (addTrace [EvAttempt attempt] w) = (Throw error, w1) ->
  vetoed o (toError error) = false ->
  attempts o <= attempt ->
  retryLoop fn o (Datatypes.S n) attempt lastError w
  = (Throw (ThrowError (RetryExhaustedError (attempts o) (toError error))), w1).
Proof.
  intros Hfn Hveto Hlast. simpl. unfold tryCatch, bind, emit.
  rewrite Hfn, Hveto.
  by destruct (Z.leb_spec (attempts o) attempt); [|lia].
Qed.

Lemma retryLoop_again fn o n attempt lastError w error w1 delay w2 w3 w4 :
  fn (addTrace [EvAttempt attempt] w) = (Throw error, w1) ->
  vetoed o (toError error) = false ->
  attempt < attempts o ->
  calculateDelay attempt (baseDelay o) (maxDelayOrDefault o) (backoff o) w1
  = (Ok delay, w2) ->
  callOnRetry o attempt (toError error) delay w2 = (Ok tt, w3) ->
  sleep delay w3 = (Ok tt, w4) ->
  retryLoop fn o (Datatypes.S n) attempt lastError w
  = retryLoop fn o n (attempt + 1) (Some (toError error)) w4.
Proof.
  intros Hfn Hveto Hmore Hdelay Hhook Hsleep. simpl.
  unfold tryCatch, emit. unfold bind at 1. rewrite Hfn, Hveto.
  destruct (Z.leb_spec (attempts o) attempt); [lia|].
  unfold bind at 1. rewrite Hdelay.
  unfold bind at 1. rewrite Hhook.
  unfold bind at 1. by rewrite Hsleep.
Qed.

(** The run as a whole is the loop taken up where it stands. *)
Lemma withRetry_resumes fn o w0 attempt lastError w :
  AtAttempt fn o w0 attempt lastError w ->
  attempt <= attempts o ->
  withRetry fn o w0
  = retryLoop fn o (Datatypes.S (Z.to_nat (attempts o - attempt))) attempt
      lastError w.
Proof.
  induction 1 as [|attempt lastError w error w1 delay w2 w3 w4
                   Hat IH Hmore Hfn Hveto Hdelay Hhook Hsleep];
    intros Hle.
  - unfold withRetry. f_equal. lia.
  - rewrite IH by lia.
    rewrite (retryLoop_again _ _ _ _ _ _ _ _ _ _ _ _
               Hfn Hveto Hmore Hdelay Hhook Hsleep).
    f_equal. lia.
Qed.

(** C4.  Whatever attempt the run has reached: if that attempt fails and
    [retryOn] answers [false] for its error, the run ends there, in the
    world the failed attempt left (no delay, no [onRetry], no further
    attempt), and rejects with that very error, not with a
    [RetryExhaustedError] around it.  The first attempt is the case
    [AtAttempt_first]. *)
Theorem withRetry_veto fn o w0 attempt lastError w error w1 retryOn :
  AtAttempt fn o w0 attempt lastError w ->
  attempt <= attempts o ->
  fn (addTrace [EvAttempt attempt] w) = (Throw error, w1) ->
  Config.retryOn o = Some retryOn ->
  retryOn (toError error) = false ->
  withRetry fn o w0 = (Throw (ThrowError (toError error)), w1)
  /\ (forall e, error = ThrowError e -> withRetry fn o w0 = (Throw error, w1)).
Proof.
  intros Hat Hle Hfn Hpred Hfalse.
  assert (withRetry fn o w0 = (Throw (ThrowError (toError error)), w1)) as E.
  { rewrite (withRetry_resumes _ _ _ _ _ _ Hat Hle).
    apply retryLoop_veto; [done|]. unfold vetoed. by rewrite Hpred, Hfalse. }
  split; [done|]. intros e ->. exact E.
Qed.

(** C5.  Whatever attempt the run has reached, with at least one attempt
    allowed: if that attempt succeeds, the run ends there with its result,
    in the world the attempt left (no delay, no further attempt); if it is
    the last allowed attempt and it fails with an error [retryOn] lets
    pass, the run rejects with a [RetryExhaustedError] that carries the
    number of attempts made and that last error. *)
Theorem withRetry_outcome fn o w0 attempt lastError w :
  AtAttempt fn o w0 attempt lastError w ->
  attempt <= attempts o ->
  (forall v w1,
      fn (addTrace [EvAttempt attempt] w) = (Ok v, w1) ->
      withRetry fn o w0 = (Ok v, w1))
  /\ (forall error w1,
        fn (addTrace [EvAttempt attempt] w) = (Throw error, w1) ->
        vetoed o (toError error) = false ->
        attempt = attempts o ->
        withRetry fn o w0
        = (Throw (ThrowError (RetryExhaustedError attempt (toError error))),
           w1)).
Proof.
  intros Hat Hle. rewrite (withRetry_resumes _ _ _ _ _ _ Hat Hle). split.
  - intros v w1 Hfn. by apply retryLoop_success.
  - intros error w1 Hfn Hveto ->. apply retryLoop_last; [done..|lia].
Qed.

(** An operation that fails whenever it is tried, with errors [retryOn]
    lets pass and no [onRetry] callback, is tried [attempts] times: every
    attempt up to the last is reached ... *)
Lemma AtAttempt_reached fn o w0 (n : nat) :
  onRetry o = None ->
  (forall w, exists t w',
      fn w = (Throw t, w') /\ vetoed o (toError t) = false) ->
  Z.of_nat n < attempts o ->
  exists lastError w, AtAttempt fn o w0 (1 + Z.of_nat n) lastError w.
Proof.
  intros Hhook Hfails. induction n as [|n IH]; intros Hn.
  - exists None, w0. apply AtAttempt_first.
  - destruct IH as (lastError & w & Hat); [lia|].
    destruct (Hfails (addTrace [EvAttempt (1 + Z.of_nat n)] w))
      as (t & w1 & Hfn & Hveto).
    eexists _, _.
    replace (1 + Z.of_nat (Datatypes.S n)) with (1 + Z.of_nat n + 1) by lia.
    eapply (AtAttempt_next fn o w0 _ _ _ t w1 _ _ _ _ Hat).
    + lia.
    + exact Hfn.
    + exact Hveto.
    + reflexivity.
    + unfold callOnRetry. rewrite Hhook. reflexivity.
    + reflexivity.
Qed.

(** X2: exhaustion.  With at least one attempt allowed and no
    [onRetry] callback, a run over an operation that fails at every try
    with an error [retryOn] lets pass ends with a [RetryExhaustedError]
    that carries [attempts]. *)
Lemma withRetry_exhausts fn o w0 :
  1 <= attempts o ->
  onRetry o = None ->
  (forall w, exists t w',
      fn w = (Throw t, w') /\ vetoed o (toError t) = false) ->
  exists e w',
    withRetry fn o w0
    = (Throw (ThrowError (RetryExhaustedError (attempts o) e)), w').
Proof.
  intros Hattempts Hhook Hfails.
  destruct (AtAttempt_reached fn o w0 (Z.to_nat (attempts o - 1)) Hhook Hfails)
    as (lastError & w & Hat); [lia|].
  replace (1 + Z.of_nat (Z.to_nat (attempts o - 1))) with (attempts o) in Hat
    by lia.
  destruct (Hfails (addTrace [EvAttempt (attempts o)] w))
    as (t & w1 & Hfn & Hveto).
  exists (toError t), w1.
  rewrite (withRetry_resumes _ _ _ _ _ _ Hat) by lia.
  apply retryLoop_last; [done..|lia].
Qed.

End RetryFacts.

Lemma flaky_reaches_third_attempt :
  Retry.AtAttempt Scenarios.flaky Scenarios.threeAttempts
    (Scenarios.world0 0%nat (1 # 2)) 3 (Some (PlainError "down"))
    (Scenarios.afterTwoFailures 2).
Proof.
  change 3 with (1 + 1 + 1).
  eapply Retry.AtAttempt_next with (error := ThrowValue "down");
    [eapply Retry.AtAttempt_next with (error := ThrowValue "down");
       [apply Retry.AtAttempt_first|..]|..];
    reflexivity.
Defined.

Lemma broken_reaches_third_attempt :
  Retry.AtAttempt Scenarios.broken Scenarios.threeAttempts
    (Scenarios.world0 0%nat (1 # 2)) 3 (Some (PlainError "fatal"))
    (Scenarios.afterTwoFailures 2).
Proof.
  change 3 with (1 + 1 + 1).
  eapply Retry.AtAttempt_next with (error := ThrowError (PlainError "fatal"));
    [eapply Retry.AtAttempt_next
       with (error := ThrowError (PlainError "fatal"));
       [apply Retry.AtAttempt_first|..]|..];
    reflexivity.
Defined.

Lemma withRetry_outcome_witness :
  Retry.withRetry Scenarios.flaky Scenarios.threeAttempts
    (Scenarios.world0 0%nat (1 # 2))
  = (Ok 2%nat,
     setStore 3%nat (addTrace [EvAttempt 3] (Scenarios.afterTwoFailures 2)))
  /\ Retry.withRetry Scenarios.broken Scenarios.threeAttempts
       (Scenarios.world0 0%nat (1 # 2))
     = (Throw (ThrowError (RetryExhaustedError 3 (PlainError "fatal"))),
        setStore 3%nat (addTrace [EvAttempt 3] (Scenarios.afterTwoFailures 2))).
Proof.
  split.
  - apply (proj1 (withRetry_outcome _ _ _ _ _ _
                    flaky_reaches_third_attempt ltac:(simpl; lia))).
    reflexivity.
  - apply (proj2 (withRetry_outcome _ _ _ _ _ _
                    broken_reaches_third_attempt ltac:(simpl; lia))
             (ThrowError (PlainError "fatal"))); reflexivity.
Defined.

Lemma withRetry_exhausts_witness :
  exists e w',
    Retry.withRetry Scenarios.broken Scenarios.threeAttempts
      (Scenarios.world0 0%nat (1 # 2))
    = (Throw (ThrowError (RetryExhaustedError 3 e)), w').
Proof.
  apply (withRetry_exhausts Scenarios.broken Scenarios.threeAttempts
           (Scenarios.world0 0%nat (1 # 2))).
  - simpl. lia.
  - reflexivity.
  - intros w. by eexists _, _.
Defined.

Lemma withRetry_veto_witness :
  Retry.withRetry Scenarios.broken Scenarios.onlyWhenDown
    (Scenarios.world0 0%nat (1 # 2))
  = (Throw (ThrowError (PlainError "fatal")),
     setStore 1%nat (addTrace [EvAttempt 1] (Scenarios.world0 0%nat (1 # 2))))
  /\ (forall e,
        ThrowError (PlainError "fatal") = ThrowError e ->
        Retry.withRetry Scenarios.broken Scenarios.onlyWhenDown
          (Scenarios.world0 0%nat (1 # 2))
        = (Throw (ThrowError (PlainError "fatal")),
           setStore 1%nat
             (addTrace [EvAttempt 1] (Scenarios.world0 0%nat (1 # 2))))).
Proof.
  eapply (withRetry_veto Scenarios.broken Scenarios.onlyWhenDown
            (Scenarios.world0 0%nat (1 # 2)) 1 None
            (Scenarios.world0 0%nat (1 # 2))
            (ThrowError (PlainError "fatal"))).
  - apply Retry.AtAttempt_first.
  - simpl; lia.
  - reflexivity.
  - reflexivity.
  - reflexivity.
Defined.

(** ** Frame properties: who draws identifiers *)

Create HintDb frames.

Section Frames.
Context {S : Type}.

Lemma keeps_ret {A} (a : A) : KeepsIds (S := S) (ret a).
Proof. by intros w r w' [= <- <-]. Qed.

Lemma keeps_throw {A} t : KeepsIds (S := S) (A := A) (throw t).
Proof. by intros w r w' [= <- <-]. Qed.

Lemma keeps_bind {A B} (m : M S A) (k : A -> M S B) :
  KeepsIds m -> (forall a, KeepsIds (k a)) -> KeepsIds (bind m k).
Proof.
  intros Hm Hk w r w'. unfold bind.
  destruct (m w) as [[a|t] w1] eqn:E; apply Hm in E as [E1 E2].
  - intros H. apply Hk in H as [H1 H2]. split; congruence.
  - by intros [= <- <-].
Qed.

Lemma keeps_tryCatch {A} (m : M S A) (h : Thrown -> M S A) :
  KeepsIds m -> (forall t, KeepsIds (h t)) -> KeepsIds (tryCatch m h).
Proof.
  intros Hm Hh w r w'. unfold tryCatch.
  destruct (m w) as [[a|t] w1] eqn:E; apply Hm in E as [E1 E2].
  - by intros [= <- <-].
  - intros H. apply Hh in H as [H1 H2]. split; congruence.
Qed.

Lemma keeps_emit e : KeepsIds (S := S) (emit e).
Proof. by intros w r w' [= <- <-]. Qed.

Lemma keeps_external {A} (f : S -> Result A * S) : KeepsIds (external f).
Proof.
  intros w r w'. unfold external. destruct (f (store w)). by intros [= <- <-].
Qed.

Lemma keeps_sleep ms : KeepsIds (S := S) (sleep ms).
Proof. by intros w r w' [= <- <-]. Qed.

Lemma keeps_Math_random : KeepsIds (S := S) Math_random.
Proof. by intros w r w' [= <- <-]. Qed.

Lemma keeps_Date_now : KeepsIds (S := S) Date_now.
Proof. by intros w r w' [= <- <-]. Qed.

End Frames.

#[export] Hint Resolve keeps_ret keeps_throw keeps_emit keeps_external
  keeps_sleep keeps_Math_random keeps_Date_now : frames.

(** Splits a goal [KeepsIds m] along the structure of [m]. *)
Ltac frames :=
  repeat first
    [ apply keeps_bind; [|intros ?]
    | apply keeps_tryCatch; [|intros ?]
    | solve [eauto with frames] ].

Section RetryFrames.
Import Retry.
Context {S T : Type}.

Lemma keeps_calculateDelay attempt baseDelay maxDelay backoff :
  KeepsIds (S := S) (calculateDelay attempt baseDelay maxDelay backoff).
Proof. unfold calculateDelay. frames. Qed.

Lemma keeps_throwExhausted (o : RetryOptions S) lastError :
  KeepsIds (A := T) (throwExhausted o lastError).
Proof. destruct lastError; apply keeps_throw. Qed.

Lemma keeps_retryLoop (fn : M S T) (o : RetryOptions S) n attempt lastError :
  KeepsIds fn ->
  (forall a e d, KeepsIds (callOnRetry o a e d)) ->
  KeepsIds (retryLoop fn o n attempt lastError).
Proof.
  intros Hfn Hhook. revert attempt lastError.
  induction n as [|n IH]; intros attempt lastError; simpl.
  - apply keeps_throwExhausted.
  - frames. destruct (vetoed _ _); [frames|].
    destruct (_ <=? _); [frames|].
    apply keeps_bind; [apply keeps_calculateDelay|intros ?].
    frames.
Qed.

Lemma keeps_withRetry (fn : M S T) (o : RetryOptions S) :
  KeepsIds fn ->
  (forall a e d, KeepsIds (callOnRetry o a e d)) ->
  KeepsIds (withRetry fn o).
Proof. apply keeps_retryLoop. Qed.

End RetryFrames.

Section PipelineFrames.
Import Pipeline.
Context {S Data : Type}.

Lemma keeps_throwPluginError {A} name phase error :
  KeepsIds (S := S) (A := A) (throwPluginError name phase error).
Proof. apply keeps_throw. Qed.
#[local] Hint Resolve keeps_throwPluginError : frames.

Lemma keeps_validatorsLoop (vs : list (ValidatorPlugin S Data)) data acc :
  KeepsIds (validatorsLoop vs data acc).
Proof.
  revert acc. induction vs as [|v vs IH]; intros acc; simpl; frames.
Qed.

Lemma keeps_runValidators (vs : list (ValidatorPlugin S Data)) data :
  KeepsIds (runValidators vs data).
Proof. unfold runValidators. frames. apply keeps_validatorsLoop. Qed.

Lemma keeps_runTransformers (ts : list (TransformerPlugin S Data)) item :
  KeepsIds (runTransformers ts item).
Proof.
  revert item. induction ts as [|t ts IH]; intros item; simpl; frames.
Qed.

Lemma keeps_runHandler (item : FeedbackItem Data) (h : HandlerPlugin S Data) :
  KeepsIds (runHandler item h).
Proof. unfold runHandler. frames. Qed.
#[local] Hint Resolve keeps_runHandler : frames.

Lemma keeps_Promise_all (promises : list (M S unit)) :
  Forall KeepsIds promises -> KeepsIds (Promise_all promises).
Proof.
  induction 1 as [|p promises Hp _ IH]; simpl; [apply keeps_ret|].
  intros w r w'. destruct (p w) as [[[]|t] w1] eqn:E; apply Hp in E as [E1 E2].
  - intros H. apply IH in H as [H1 H2]. split; congruence.
  - intros [= <- <-].
    destruct (Promise_all promises w1) as [r2 w2] eqn:E; simpl.
    apply IH in E as [H1 H2]. split; congruence.
Qed.

Lemma keeps_handlersLoop (item : FeedbackItem Data)
    (hs : list (HandlerPlugin S Data)) :
  KeepsIds (handlersLoop item hs).
Proof. induction hs as [|h hs IH]; simpl; frames. Qed.

Lemma keeps_runHandlers (hs : list (HandlerPlugin S Data)) item parallel :
  KeepsIds (runHandlers hs item parallel).
Proof.
  destruct parallel; simpl.
  - apply keeps_Promise_all, Forall_map, Forall_true.
    intros h. apply keeps_runHandler.
  - apply keeps_handlersLoop.
Qed.

(** Transformers that keep the identity keep it along the whole chain. *)
Lemma runTransformers_identity (ts : list (TransformerPlugin S Data))
    item w item' w' :
  Forall KeepsIdentity ts ->
  runTransformers ts item w = (Ok item', w') ->
  id item' = id item /\ type item' = type item.
Proof.
  intros Hts. revert item w.
  induction Hts as [|t ts Ht _ IH]; intros item w; simpl.
  - by intros [= <- <-].
  - unfold bind at 1. unfold tryCatch, bind, emit, external.
    destruct (transform t item _) as [[item1|e] s1] eqn:E; simpl; [|done].
    intros H. apply IH in H as [H1 H2]. apply Ht in E as [E1 E2].
    split; congruence.
Qed.

End PipelineFrames.

(** ** The orchestrator *)

Section MonadFacts.
Context {S : Type}.

Lemma bind_Ok {A B} (m : M S A) (k : A -> M S B) w b w' :
  bind m k w = (Ok b, w') ->
  exists a w1, m w = (Ok a, w1) /\ k a w1 = (Ok b, w').
Proof.
  unfold bind. destruct (m w) as [[a|t] w1]; [|done]. intros H.
  by exists a, w1.
Qed.

Lemma bind_then_throw {A B} (m : M S A) t w (b : B) w' :
  bind m (fun _ => throw t) w <> (Ok b, w').
Proof. unfold bind, throw. by destruct (m w) as [[a|t'] w1]. Qed.

End MonadFacts.

Section CollectorFacts.
Import Pipeline Schema Retry Collector.
Context {S Data : Type}.
Implicit Types (c : FeedbackCollector S Data) (w : World S) (data : Data).

Lemma keeps_beforeCollectLoop i (hs : list (BeforeCollectHook S Data)) ctx :
  KeepsIds (beforeCollectLoop i hs ctx).
Proof.
  revert i. induction hs as [|h hs IH]; intros i; simpl; frames.
  destruct a0 as [[]|]; frames.
Qed.

Lemma keeps_afterCollectLoop i (hs : list (AfterCollectHook S Data)) item :
  KeepsIds (afterCollectLoop i hs item).
Proof. revert i. induction hs as [|h hs IH]; intros i; simpl; frames. Qed.

Lemma keeps_errorLoop i (hs : list (ErrorHook S)) e ph :
  KeepsIds (errorLoop i hs e ph).
Proof. revert i. induction hs as [|h hs IH]; intros i; simpl; frames. Qed.

Lemma keeps_retryHooksLoop i (hs : list (RetryHook S)) a e d :
  KeepsIds (retryHooksLoop i hs a e d).
Proof. revert i. induction hs as [|h hs IH]; intros i; simpl; frames. Qed.

Lemma keeps_validate c data : KeepsIds (validate c data).
Proof.
  unfold validate. destruct (schema _); [destruct (negb _)|];
    auto using keeps_runValidators with frames.
Qed.

Lemma keeps_runHandlersWithRetry c item :
  KeepsIds (runHandlersWithRetry c item).
Proof.
  unfold runHandlersWithRetry. destruct (retry _).
  - apply keeps_withRetry; [apply keeps_runHandlers|].
    intros a e d. apply keeps_retryHooksLoop.
  - apply keeps_runHandlers.
Qed.

(** What a successful run of the [try] block returns. *)
Lemma collectionBody_success c data md ts w item w' :
  Forall KeepsIdentity (transformers (plugins c)) ->
  collectionBody c data md ts w = (Ok item, w') ->
  type item = cfg_type (config c)
  /\ id item = uuids w (idsDrawn w)
  /\ uuids w' = uuids w
  /\ idsDrawn w' = Datatypes.S (idsDrawn w).
Proof.
  intros Hts. unfold collectionBody.
  intros (? & w1 & H1 & H)%bind_Ok.
  apply keeps_beforeCollectLoop in H1 as [U1 I1].
  apply bind_Ok in H as (vr & w2 & H2 & H).
  apply keeps_validate in H2 as [U2 I2].
  destruct (negb (valid vr)); [done|].
  apply bind_Ok in H as (newId & w3 & H3 & H).
  injection H3 as <- <-.
  apply bind_Ok in H as (item1 & w4 & H4 & H).
  apply bind_Ok in H as (? & w5 & H5 & H).
  apply bind_Ok in H as (? & w6 & H6 & H).
  injection H as <- <-.
  apply keeps_afterCollectLoop in H6 as [U6 I6].
  assert (uuids w5 = uuids w4 /\ idsDrawn w5 = idsDrawn w4) as [U5 I5].
  { destruct (0 <? length (handlers (plugins c)))%nat;
      [by apply keeps_runHandlersWithRetry in H5|by injection H5 as _ <-]. }
  assert (id item1 = uuids w2 (idsDrawn w2)
          /\ type item1 = cfg_type (config c)
          /\ uuids w4 = uuids w2
          /\ idsDrawn w4 = Datatypes.S (idsDrawn w2)) as (E1 & E2 & U4 & I4).
  { destruct (0 <? length (transformers (plugins c)))%nat.
    - pose proof (runTransformers_identity _ _ _ _ _ Hts H4) as [E1 E2].
      apply keeps_runTransformers in H4 as [U4 I4]. simpl in *.
      by rewrite E1, E2, U4, I4.
    - by injection H4 as <- <-. }
  rewrite E1, E2, U6, U5, U4, U2, U1, I6, I5, I4, I2, I1. done.
Qed.

Lemma executeCollection_success c data metadata w item w' :
  executeCollection c data metadata w = (Ok item, w') ->
  collectionBody c data (mergeMetadata (defaultMetadata (config c)) metadata)
    (clock w) w
  = (Ok item, w').
Proof.
  unfold executeCollection, bind at 1, Date_now, tryCatch.
  destruct (collectionBody _ _ _ _ _) as [[item1|t] w1]; [done|].
  intros H. by apply bind_then_throw in H.
Qed.


(** The error hooks, run by [errorLoop]. *)
Lemma errorEvents_cons i (h : ErrorHook S) hs e ph :
  errorEvents i (h :: hs) e ph
  = EvError i e ph :: errorEvents (Datatypes.S i) hs e ph.
Proof.
  unfold errorEvents. simpl. rewrite Nat.add_0_r. f_equal.
  apply imap_ext. intros j ? _. simpl. f_equal. lia.
Qed.

Lemma errorLoop_complete i (hs : list (ErrorHook S)) e ph w s' :
  ObserversComplete e ph hs (store w) s' ->
  errorLoop i hs e ph w
  = (Ok tt, addTrace (errorEvents i hs e ph) (setStore s' w)).
Proof.
  intros H. revert i w H.
  induction hs as [|h hs IH]; intros i w H;
    inversion H as [|? ? ? s1 ? Hh Hrest]; subst; simpl.
  - destruct w. unfold ret, addTrace, setStore; simpl. by rewrite app_nil_r.
  - unfold bind at 1, emit. unfold bind at 1, external. simpl.
    rewrite Hh. rewrite IH by exact Hrest. rewrite errorEvents_cons.
    destruct w. unfold addTrace, setStore; simpl.
    by rewrite <- app_assoc.
Qed.

Lemma errorLoop_crash i (pre post : list (ErrorHook S)) h e ph w s1 t s2 :
  ObserversComplete e ph pre (store w) s1 ->
  h e ph s1 = (Throw t, s2) ->
  errorLoop i (pre ++ h :: post) e ph w
  = (Throw t, addTrace (errorEvents i (pre ++ [h]) e ph) (setStore s2 w)).
Proof.
  intros H Hh. revert i w H.
  induction pre as [|h0 pre IH]; intros i w H;
    inversion H as [|? ? ? s0 ? Hh0 Hrest]; subst; simpl.
  - unfold bind at 1, emit. unfold bind at 1, external. simpl.
    rewrite Hh. destruct w. unfold addTrace, setStore, errorEvents; simpl.
    by rewrite Nat.add_0_r.
  - unfold bind at 1, emit. unfold bind at 1, external. simpl.
    rewrite Hh0. rewrite IH by exact Hrest.
    change (h0 :: pre ++ [h]) with (h0 :: (pre ++ [h])).
    rewrite errorEvents_cons.
    destruct w. unfold addTrace, setStore; simpl.
    by rewrite <- app_assoc.
Qed.

(** C8, as the code has it.  When the pipeline of a collection fails,
    the error hooks are called in registration order with the error (as
    an [Error]) and the phase [getErrorPhase] attributes to it.  If every
    hook completes, all of them have been called and the same error is
    raised again; if one of them throws, the hooks behind it are not
    called and what it threw is raised instead.  Either way the run
    rejects: no item is returned. *)
Theorem executeCollection_reports_failure c data metadata w error w1 :
  collectionBody c data (mergeMetadata (defaultMetadata (config c)) metadata)
    (clock w) w
  = (Throw error, w1) ->
  let phase := getErrorPhase error in
  let observers := Collector.error (hooks c) in
  (exists raised w2,
      executeCollection c data metadata w = (Throw raised, w2))
  /\ (forall s',
        ObserversComplete (toError error) phase observers (store w1) s' ->
        executeCollection c data metadata w
        = (Throw error,
           addTrace (errorEvents 0 observers (toError error) phase)
             (setStore s' w1)))
  /\ (forall pre hook post s1 t s2,
        observers = pre ++ hook :: post ->
        ObserversComplete (toError error) phase pre (store w1) s1 ->
        hook (toError error) phase s1 = (Throw t, s2) ->
        executeCollection c data metadata w
        = (Throw t,
           addTrace (errorEvents 0 (pre ++ [hook]) (toError error) phase)
             (setStore s2 w1))).
Proof.
  intros Hbody phase observers.
  assert (executeCollection c data metadata w
          = bind (errorLoop 0 observers (toError error) phase)
              (fun _ => throw error) w1) as E.
  { unfold executeCollection, bind at 1, Date_now, tryCatch.
    by rewrite Hbody. }
  rewrite E. split; [|split].
  - unfold bind, throw. destruct (errorLoop _ _ _ _ _) as [[[]|t] w2]; eauto.
  - intros s' Hall. unfold bind. by rewrite (errorLoop_complete _ _ _ _ _ _ Hall).
  - intros pre hook post s1 t s2 -> Hpre Hhook. unfold bind.
    by rewrite (errorLoop_crash _ _ _ _ _ _ _ _ _ _ Hpre Hhook).
Qed.

(** The phase handed to the error hooks. *)
Lemma getErrorPhase_attribution :
  (forall errors,
      getErrorPhase (ThrowError (ValidationError errors)) = Some Validation)
  /\ (forall name cause,
        getErrorPhase (ThrowError (PluginError name PhValidate cause))
        = Some Validation
        /\ getErrorPhase (ThrowError (PluginError name PhTransform cause))
           = Some Transform
        /\ getErrorPhase (ThrowError (PluginError name PhHandle cause))
           = Some Handler
        /\ getErrorPhase (ThrowError (PluginError name PhInstall cause))
           = None)
  /\ (forall reason,
        getErrorPhase (ThrowError (CollectionCancelledError reason)) = None)
  /\ (forall attempts lastError,
        getErrorPhase (ThrowError (RetryExhaustedError attempts lastError))
        = None)
  /\ (forall message, getErrorPhase (ThrowError (PlainError message)) = None)
  /\ (forall v, getErrorPhase (ThrowValue v) = None).
Proof. repeat split. Qed.

(** Registration comes first in [use] and is not undone. *)
Lemma runHandler_trace (item : FeedbackItem Data) (h : HandlerPlugin S Data) w :
  trace (snd (runHandler item h w)) = trace w ++ [EvHandle (name h)].
Proof.
  unfold runHandler, tryCatch, bind, emit, external, throwPluginError, throw.
  simpl. by destruct (handle h item (store w)) as [[[]|t] s1].
Qed.

Lemma Promise_all_runHandlers_trace (item : FeedbackItem Data)
    (hs : list (HandlerPlugin S Data)) w :
  trace (snd (Promise_all (map (runHandler item) hs) w))
  = trace w ++ map (fun h => EvHandle (name h)) hs.
Proof.
  revert w. induction hs as [|h hs IH]; intros w; simpl.
  - by rewrite app_nil_r.
  - pose proof (runHandler_trace item h w) as Hh.
    destruct (runHandler item h w) as [[[]|t] w1]; simpl in *;
      rewrite IH, Hh, <- app_assoc; done.
Qed.

(** C9.  When the install hook of a plugin throws, [use] raises a
    [PluginError] with phase [install] that names the plugin, and the
    collector it leaves behind has the plugin registered: it is the last
    entry of the list of its kind, which is the list the pipeline stage
    iterates over.  For a handler this means that every later handler
    stage starts it. *)
Theorem use_install_failure (plugin : FeedbackPlugin S Data) c w install t s' :
  pluginInstall plugin = Some install ->
  install (store w) = (Throw t, s') ->
  use plugin c w
  = (Throw (ThrowError (PluginError (pluginName plugin) PhInstall (toError t))),
     register plugin c,
     setStore s' (addTrace [EvInstall (pluginName plugin)] w))
  /\ plugins (register plugin c) = registerPlugin (plugins c) plugin
  /\ match plugin with
     | IsValidator p =>
         validators (plugins (register plugin c))
         = validators (plugins c) ++ [p]
     | IsTransformer p =>
         transformers (plugins (register plugin c))
         = transformers (plugins c) ++ [p]
     | IsHandler p =>
         handlers (plugins (register plugin c)) = handlers (plugins c) ++ [p]
         /\ forall item w0,
             trace (snd (runHandlers (handlers (plugins (register plugin c)))
                           item true w0))
             = trace w0
               ++ map (fun h => EvHandle (name h)) (handlers (plugins c))
               ++ [EvHandle (name p)]
     end.
Proof.
  intros Hinstall Hthrows. split; [|split; [done|]].
  - unfold use, runInstall. rewrite Hinstall.
    unfold tryCatch, bind, emit, external, throwPluginError, throw. simpl.
    by rewrite Hthrows.
  - destruct plugin as [p|p|p]; simpl; try done.
    split; [done|]. intros item w0.
    by rewrite Promise_all_runHandlers_trace, map_app.
Qed.

End CollectorFacts.

Lemma stamp_keeps_identity : Pipeline.KeepsIdentity Scenarios.stamp.
Proof. by intros item s item' s' [= <- <-]. Qed.



Lemma executeCollection_reports_failure_witness :
  Collector.executeCollection Scenarios.rejectingObserved 7 None
    (Scenarios.world0 [] 0)
  = (Throw (ThrowError (ValidationError ["b1"])),
     addTrace
       [EvError 0 (ValidationError ["b1"]) (Some Validation);
        EvError 1 (ValidationError ["b1"]) (Some Validation)]
       (setStore ["observed"; "observed"]
          (addTrace [EvValidate "B"] (Scenarios.world0 [] 0)))).
Proof.
  apply (proj1 (proj2 (executeCollection_reports_failure
                         Scenarios.rejectingObserved 7 None
                         (Scenarios.world0 [] 0)
                         (ThrowError (ValidationError ["b1"]))
                         (addTrace [EvValidate "B"] (Scenarios.world0 [] 0))
                         eq_refl))).
  repeat (eapply Collector.ObserversComplete_cons; [reflexivity|]).
  apply Collector.ObserversComplete_nil.
Defined.

(** C8 as claimed fails: an error observer that throws keeps the
    observers registered after it from being called, and what it threw
    reaches the caller in place of the pipeline's error.  Here the
    pipeline fails with a [ValidationError]; the first observer throws,
    the second (position 1) is never called and the store it would have
    written to is untouched. *)
Lemma crashing_observer_hides_the_failure :
  Collector.collectionBody Scenarios.rejecting 7 ∅ 0 (Scenarios.world0 [] 0)
  = (Throw (ThrowError (ValidationError ["b1"])),
     addTrace [EvValidate "B"] (Scenarios.world0 [] 0))
  /\ length (Collector.error (Collector.hooks Scenarios.rejecting)) = 2%nat
  /\ Collector.executeCollection Scenarios.rejecting 7 None
       (Scenarios.world0 [] 0)
     = (Throw (ThrowValue "observer crashed"),
        addTrace
          [EvValidate "B";
           EvError 0 (ValidationError ["b1"]) (Some Validation)]
          (Scenarios.world0 [] 0)).
Proof. repeat split. Qed.

Lemma use_install_failure_witness :
  Collector.use (Pipeline.IsHandler Scenarios.audit)
    (Collector.new Scenarios.npsConfig) (Scenarios.world0 [] 0)
  = (Throw (ThrowError (PluginError "audit" PhInstall (PlainError "no backend"))),
     Collector.register (Pipeline.IsHandler Scenarios.audit)
       (Collector.new Scenarios.npsConfig),
     setStore [] (addTrace [EvInstall "audit"] (Scenarios.world0 [] 0)))
  /\ Pipeline.handlers
       (Collector.plugins
          (Collector.register (Pipeline.IsHandler Scenarios.audit)
             (Collector.new Scenarios.npsConfig)))
     = [Scenarios.audit].
Proof.
  pose proof (use_install_failure (Pipeline.IsHandler Scenarios.audit)
                (Collector.new Scenarios.npsConfig) (Scenarios.world0 [] 0)
                (fun s => (Throw (ThrowValue "no backend"), s))
                (ThrowValue "no backend") [] eq_refl eq_refl)
    as (Huse & _ & Hlast & _).
  split; [exact Huse|exact Hlast].
Defined.

(** The handler whose install hook threw handles the next collection. *)
Lemma audit_still_handles :
  Collector.executeCollection
    (Collector.register (Pipeline.IsHandler Scenarios.audit)
       (Collector.new Scenarios.npsConfig))
    7 None (Scenarios.world0 [] 0)
  = (Ok (Pipeline.mkFeedbackItem (pretty 0%nat) "nps" 7 ∅ 0),
     mkWorld [pretty 0%nat] 0 (fun _ => 0%Q) 0 (fun n => pretty n) 1
       [EvHandle "audit"]).
Proof. reflexivity. Qed.

(** ** The coalescing scheduler *)

Section DebouncerFacts.
Import Debouncer.
Context {S A R : Type}.
Variable fn : A -> World S -> FnResult R * World S.
Variable options : DebounceConfig.
Implicit Types (d : Debouncer A) (w : World S) (sys : System S A R).
Implicit Types (calls : list A) (obs : list (Observation A R)).

Lemma settle_outcome (result : FnResult R) promises :
  settle result promises
  = map (fun p => Settled (A := A) p (outcome result)) promises.
Proof. by destruct result. Qed.

Lemma settledPromises_app obs1 obs2 :
  settledPromises (obs1 ++ obs2) = settledPromises obs1 ++ settledPromises obs2.
Proof. apply omap_app. Qed.

Lemma settledPromises_settled (x : Result R) promises :
  settledPromises (map (fun p => Settled (A := A) p x) promises) = promises.
Proof. induction promises as [|p ps IH]; simpl; [done|]. by f_equal. Qed.

Lemma executions_app obs1 obs2 :
  executions (obs1 ++ obs2) = executions obs1 ++ executions obs2.
Proof. apply omap_app. Qed.

Lemma executions_settled (x : Result R) promises :
  executions (map (fun p => Settled (A := A) p x) promises) = [].
Proof. by induction promises. Qed.

Lemma Batched_app calls obs1 obs2 :
  Batched fn calls obs1 -> Batched fn calls obs2 ->
  Batched fn calls (obs1 ++ obs2).
Proof.
  intros H1 H2. induction H1 as [|args result promises p w w' rest Hp Hc Hf _ IH
                                 |promises rest _ IH]; simpl.
  - done.
  - rewrite <- app_assoc. by eapply Batched_execution.
  - rewrite <- app_assoc. by apply Batched_cancel.
Qed.

Lemma Batched_more calls more obs :
  Batched fn calls obs -> Batched fn (calls ++ more) obs.
Proof.
  induction 1 as [|args result promises p w w' rest Hp Hc Hf _ IH
                  |promises rest _ IH].
  - constructor.
  - eapply Batched_execution; eauto. by apply lookup_app_l_Some.
  - by apply Batched_cancel.
Qed.

(** What [execute] does. *)
Lemma execute_idle d w :
  lastArgs d = None ->
  execute fn d w = (create, w, []).
Proof. intros E. unfold execute, clearTimeouts; simpl. by rewrite E. Qed.

Lemma execute_batch d w args :
  lastArgs d = Some args ->
  exists result w',
    fn args w = (result, w')
    /\ execute fn d w
       = (create, w', Invoked args result :: settle result (pendingPromises d)).
Proof.
  intros E. unfold execute, clearTimeouts; simpl. rewrite E.
  destruct (fn args w) as [result w']. by exists result, w'.
Qed.

(** Executing the pending batch of a consistent system. *)
Lemma Consistent_execute calls sys w :
  Consistent fn calls sys ->
  let '(d', w', obs) := execute fn (debouncer sys) w in
  forall w'',
    Consistent fn calls
      (mkSystem d' w'' (promisesCreated sys) (observed sys ++ obs)).
Proof.
  intros [Hb Hp Hc Ha].
  destruct (lastArgs (debouncer sys)) as [args|] eqn:E.
  - destruct (execute_batch _ w _ E) as (result & w' & Hfn & ->).
    destruct Ha as (p & Hlast & Hcall). intros w''.
    split; simpl; try done.
    + apply Batched_app; [done|]. rewrite settle_outcome.
      rewrite <- (app_nil_r (map _ _)).
      eapply Batched_execution; eauto. constructor.
    + rewrite settledPromises_app, settle_outcome. simpl.
      by rewrite settledPromises_settled, app_nil_r.
  - rewrite (execute_idle _ w E). intros w''.
    split; simpl; rewrite ?app_nil_r; try done.
    by rewrite <- Hp, Ha, app_nil_r.
Qed.

Lemma Consistent_step calls sys i :
  Consistent fn calls sys ->
  Consistent fn (calls ++ callArgs [i]) (step fn options sys i).
Proof.
  intros Hsys. destruct i as [args|dt| |]; simpl.
  - (* call *)
    destruct Hsys as [Hb Hp Hc Ha]. unfold call.
    set (d1 := mkDebouncer _ _ (Some args) _ _).
    assert (Consistent fn (calls ++ [args])
              (mkSystem d1 (world sys) (Datatypes.S (promisesCreated sys))
                 (observed sys))) as H1.
    { split; simpl.
      - by apply Batched_more.
      - change (0%nat :: seq 1 (promisesCreated sys))
          with (seq 0 (Datatypes.S (promisesCreated sys))).
        by rewrite app_assoc, Hp, seq_S.
      - rewrite length_app. simpl. lia.
      - exists (promisesCreated sys). split; [apply last_snoc|].
        rewrite Hc. by apply list_lookup_middle. }
    destruct (leading options && negb (leadingExecuted d1)).
    + pose proof (Consistent_execute _ _ (world sys)
                    (mkConsistent _ _
                       (mkSystem
                          (mkDebouncer (timeoutId d1) (maxWaitTimeoutId d1)
                             (lastArgs d1) true (pendingPromises d1))
                          (world sys) (Datatypes.S (promisesCreated sys))
                          (observed sys))
                       (consistent_batched _ _ _ H1)
                       (consistent_partition _ _ _ H1)
                       (consistent_count _ _ _ H1)
                       (consistent_args _ _ _ H1))) as H2.
      simpl in H2. destruct (execute _ _ _) as [[d' w'] obs]. apply H2.
    + destruct H1 as [Hb1 Hp1 Hc1 Ha1].
      destruct (maxWait options) as [mw|];
        [destruct (maxWaitTimeoutId _)|];
        split; simpl in *; rewrite ?app_nil_r; done.
  - (* time passes *)
    rewrite app_nil_r. unfold advance.
    assert (forall w, Consistent fn calls
              (mkSystem (debouncer sys) w (promisesCreated sys)
                 (observed sys ++ []))) as Hidle.
    { intros w. destruct Hsys. split; simpl; by rewrite ?app_nil_r. }
    destruct (nextTimer _) as [due|]; [|apply Hidle].
    destruct (_ <=? _); [|apply Hidle].
    pose proof (Consistent_execute _ _
                  (setClock (Z.max (clock (world sys)) due) (world sys)) Hsys)
      as H.
    destruct (execute _ _ _) as [[d' w'] obs]. apply H.
  - (* flush *)
    rewrite app_nil_r. unfold flush.
    destruct (lastArgs _) eqn:E.
    + pose proof (Consistent_execute _ _ (world sys) Hsys) as H.
      destruct (execute _ _ _) as [[d' w'] obs]. apply H.
    + destruct Hsys. split; simpl; by rewrite ?app_nil_r.
  - (* cancel *)
    rewrite app_nil_r. destruct Hsys as [Hb Hp Hc Ha].
    split; simpl; try done.
    + apply Batched_app; [done|].
      rewrite <- (app_nil_r (map _ _)). apply Batched_cancel. constructor.
    + by rewrite settledPromises_app, settledPromises_settled, app_nil_r.
Qed.

Lemma Consistent_start w : Consistent fn [] (start w).
Proof. split; simpl; try done. constructor. Qed.

Lemma interact_snoc inputs i sys :
  interact fn options (inputs ++ [i]) sys
  = step fn options (interact fn options inputs sys) i.
Proof. unfold interact. by rewrite fold_left_app. Qed.

Lemma callArgs_app (inputs1 inputs2 : list (Input A)) :
  callArgs (inputs1 ++ inputs2) = callArgs inputs1 ++ callArgs inputs2.
Proof. apply omap_app. Qed.

Lemma Consistent_interact inputs w :
  Consistent fn (callArgs inputs) (interact fn options inputs (start w)).
Proof.
  induction inputs as [|i inputs IH] using rev_ind.
  - apply Consistent_start.
  - rewrite interact_snoc, callArgs_app. by apply Consistent_step.
Qed.


(** *** The leading edge *)

(** With [leading] set, [execute] has reset [leadingExecuted] before
    [call] returns: every call finds the flag down, executes at once
    with its own arguments and leaves the fields as they were at
    construction. *)
Lemma leading_step sys i :
  leading options = true ->
  debouncer sys = create ->
  debouncer (step fn options sys i) = create
  /\ executions (observed (step fn options sys i))
     = executions (observed sys) ++ callArgs [i].
Proof.
  intros Hlead Hd. destruct i as [args|dt| |]; simpl.
  - unfold call. rewrite Hlead, Hd. simpl.
    unfold execute, clearTimeouts. simpl.
    destruct (fn args (world sys)) as [result w']. simpl. split; [done|].
    rewrite executions_app. simpl. f_equal.
    by rewrite settle_outcome, executions_settled.
  - unfold advance. rewrite Hd. simpl. by rewrite !app_nil_r.
  - unfold flush. rewrite Hd. simpl. by rewrite !app_nil_r.
  - rewrite Hd. simpl. by rewrite !app_nil_r.
Qed.

(** X1: the leading edge.  With [leading] set, whatever is done with a
    debouncer, every [call] executes the wrapped function at once with
    its own arguments, so the executions are exactly the calls, in order;
    and after every operation the debouncer is back in its initial
    state: [leadingExecuted] is never left set and no timer is armed. *)
Lemma leading_executes_every_call (inputs : list (Input A)) w :
  leading options = true ->
  debouncer (interact fn options inputs (start w)) = create
  /\ executions (observed (interact fn options inputs (start w)))
     = callArgs inputs.
Proof.
  intros Hlead. induction inputs as [|i inputs [IHd IHe]] using rev_ind.
  - done.
  - rewrite interact_snoc, callArgs_app.
    destruct (leading_step _ i Hlead IHd) as [Hd He].
    split; [done|]. by rewrite He, IHe.
Qed.

End DebouncerFacts.

Lemma leading_executes_every_call_witness :
  Debouncer.debouncer
    (Debouncer.interact Scenarios.echo Scenarios.leadingEdge
       [Debouncer.Call 1; Debouncer.Call 2; Debouncer.Advance 500;
        Debouncer.Call 3]
       (Debouncer.start (Scenarios.world0 tt 0)))
  = Debouncer.create
  /\ Debouncer.executions
       (Debouncer.observed
          (Debouncer.interact Scenarios.echo Scenarios.leadingEdge
             [Debouncer.Call 1; Debouncer.Call 2; Debouncer.Advance 500;
              Debouncer.Call 3]
             (Debouncer.start (Scenarios.world0 tt 0))))
     = [1; 2; 3].
Proof.
  exact (leading_executes_every_call Scenarios.echo Scenarios.leadingEdge
           [Debouncer.Call 1; Debouncer.Call 2; Debouncer.Advance 500;
            Debouncer.Call 3]
           (Scenarios.world0 tt 0) eq_refl).
Defined.

(** C1, on the code.  [{ wait: 100, leading: true }], three calls 10 ms
    apart, well within one quiet period: [fn] runs three times, once per
    call, and each promise is resolved with the value of its own call. *)
Lemma leading_burst_executes_every_call :
  Debouncer.observed
    (Debouncer.interact Scenarios.echo Scenarios.leadingEdge
       [Debouncer.Call 1; Debouncer.Advance 10; Debouncer.Call 2;
        Debouncer.Advance 10; Debouncer.Call 3]
       (Debouncer.start (Scenarios.world0 tt 0)))
  = [Debouncer.Invoked 1 (Debouncer.Returned 1); Debouncer.Settled 0 (Ok 1);
     Debouncer.Invoked 2 (Debouncer.Returned 2); Debouncer.Settled 1 (Ok 2);
     Debouncer.Invoked 3 (Debouncer.Returned 3); Debouncer.Settled 2 (Ok 3)].
Proof. reflexivity. Qed.

(** The scenarios of the specification for the trailing edge: calls at
    t = 0, 30, 60 with [wait = 100] give one execution, with the last
    arguments, that answers all three callers ... *)
Lemma trailing_burst_coalesces :
  let sys :=
    Debouncer.interact Scenarios.echo Scenarios.trailingEdge
      [Debouncer.Call 1; Debouncer.Advance 30; Debouncer.Call 2;
       Debouncer.Advance 30; Debouncer.Call 3; Debouncer.Advance 99]
      (Debouncer.start (Scenarios.world0 tt 0)) in
  Debouncer.observed sys = []
  /\ Debouncer.observed (Debouncer.step Scenarios.echo Scenarios.trailingEdge
                           sys (Debouncer.Advance 1))
     = [Debouncer.Invoked 3 (Debouncer.Returned 3);
        Debouncer.Settled 0 (Ok 3); Debouncer.Settled 1 (Ok 3);
        Debouncer.Settled 2 (Ok 3)].
Proof. split; reflexivity. Qed.

(** ... and with [maxWait = 200], calls every 50 ms are cut off by the
    deadline, 200 ms after the first. *)
Lemma deadline_forces_execution :
  let sys :=
    Debouncer.interact Scenarios.echo Scenarios.withDeadline
      [Debouncer.Call 1; Debouncer.Advance 50; Debouncer.Call 2;
       Debouncer.Advance 50; Debouncer.Call 3; Debouncer.Advance 50;
       Debouncer.Call 4; Debouncer.Advance 49]
      (Debouncer.start (Scenarios.world0 tt 0)) in
  Debouncer.observed sys = []
  /\ Debouncer.observed (Debouncer.step Scenarios.echo Scenarios.withDeadline
                           sys (Debouncer.Advance 1))
     = [Debouncer.Invoked 4 (Debouncer.Returned 4);
        Debouncer.Settled 0 (Ok 4); Debouncer.Settled 1 (Ok 4);
        Debouncer.Settled 2 (Ok 4); Debouncer.Settled 3 (Ok 4)].
Proof. split; reflexivity. Qed.


(** ** The orchestrator behind the scheduler *)

(** Two callers coalesced into one batch are answered with one and the
    same item, so with one [id]. *)
Lemma debounced_callers_share_one_item :
  let '(c1, w1, obs1) :=
    Collector.collect 7 None 0 Scenarios.debounced (Scenarios.world0 [] 0) in
  let '(c2, w2, obs2) := Collector.collect 8 None 1 c1 w1 in
  let '(c3, w3, obs3) := Collector.advance 100 c2 w2 in
  let item := Pipeline.mkFeedbackItem (pretty 0%nat) "nps" 8 ∅ 100 in
  obs1 = [] /\ obs2 = []
  /\ obs3 = [Debouncer.Invoked (8, None) (Debouncer.PromiseFulfilled item);
             Debouncer.Settled 0 (Ok item); Debouncer.Settled 1 (Ok item)].
Proof. repeat split. Qed.

(** [cancel()] rejects a buffered [collect] without the pipeline ever
    running: no error observer is called. *)
Lemma cancelled_collect_skips_observers :
  let '(c1, w1, obs1) :=
    Collector.collect 7 None 0 Scenarios.debounced (Scenarios.world0 [] 0) in
  let '(c2, w2, obs2) := Collector.cancel c1 w1 in
  length (Collector.error (Collector.hooks Scenarios.debounced)) = 1%nat
  /\ obs2 = [Debouncer.Settled 0 (Throw Debouncer.cancelled)]
  /\ trace w2 = [] /\ store w2 = [].
Proof. repeat split. Qed.

(* ===================================================================== *)
(** * Further properties of the code *)
(* ===================================================================== *)

(** ** The coalescing scheduler: timers *)

Section DebouncerTimers.
Import Debouncer.
Context {S A R : Type}.
Variable fn : A -> World S -> FnResult R * World S.
Variable options : DebounceConfig.
Implicit Types (d : Debouncer A) (w : World S) (sys : System S A R).

Lemma execute_create d w : (execute fn d w).1.1 = create.
Proof.
  unfold execute, clearTimeouts; simpl.
  destruct (lastArgs d); [|done]. by destruct (fn _ _).
Qed.

Lemma step_appends sys i :
  exists obs, observed (step fn options sys i) = observed sys ++ obs.
Proof.
  destruct i; simpl;
    repeat match goal with |- context [let '(_, _) := ?x in _] =>
             destruct x as [[? ?] ?] end; eauto.
Qed.

Lemma interact_appends inputs sys :
  exists obs, observed (interact fn options inputs sys) = observed sys ++ obs.
Proof.
  revert sys. induction inputs as [|i inputs IH]; intros sys; simpl.
  - exists []. by rewrite app_nil_r.
  - destruct (IH (step fn options sys i)) as [obs2 ->].
    destruct (step_appends sys i) as [obs1 ->].
    exists (obs1 ++ obs2). by rewrite app_assoc.
Qed.

Lemma Timed_create w : Timed options w (create (A := A)).
Proof. split; simpl; try done. Qed.

Lemma Timed_later w t d :
  clock w <= t -> Timed options w d -> Timed options (setClock t w) d.
Proof.
  intros Hle [Hf Hi Hq Hd]. split; simpl; try done.
  - intros Hargs. destruct (Hq Hargs) as (t0 & ? & ?). exists t0. split; [done|lia].
  - intros m Hm. destruct (Hd m Hm) as (mw & ? & ?). exists mw. split; [done|lia].
Qed.

Lemma Timed_step sys i :
  Timed options (world sys) (debouncer sys) ->
  Timed options (world (step fn options sys i))
    (debouncer (step fn options sys i)).
Proof.
  intros HT. pose proof HT as [Hf Hi Hq Hd]. destruct i as [args|dt| |]; simpl.
  - unfold call. simpl. rewrite Hf, andb_true_r.
    destruct (leading options).
    + pose proof (execute_create
        (mkDebouncer (timeoutId (debouncer sys))
           (maxWaitTimeoutId (debouncer sys)) (Some args) true
           (pendingPromises (debouncer sys) ++ [promisesCreated sys]))
        (world sys)) as E.
      destruct (execute _ _ _) as [[d' w'] obs]. simpl in *. subst d'.
      apply Timed_create.
    + destruct (maxWait options) as [mw|] eqn:Emw;
        [destruct (maxWaitTimeoutId (debouncer sys)) as [m|] eqn:Em|];
        simpl; (split; simpl; try done);
        try (intros _; eexists; split; [done|lia]);
        intros m' Hm';
        first [ destruct (Hd _ Hm') as (? & ? & ?); done
              | destruct (Hd _ Hm') as (? & [= <-] & ?);
                eexists; split; [done|lia]
              | injection Hm' as <-; eexists; split; [done|lia] ].
  - unfold advance.
    assert (Timed options
              (setClock (clock (world sys) + Z.max 0 dt) (world sys))
              (debouncer sys)) as Hidle by (apply Timed_later; [lia|done]).
    destruct (nextTimer _) as [due|]; [|done].
    destruct (_ <=? _); [|done].
    pose proof (execute_create (debouncer sys)
                  (setClock (Z.max (clock (world sys)) due) (world sys))) as E.
    destruct (execute _ _ _) as [[d' w'] obs]. simpl in *. subst d'.
    apply Timed_create.
  - unfold flush. destruct (lastArgs _); [|done].
    pose proof (execute_create (debouncer sys) (world sys)) as E.
    destruct (execute _ _ _) as [[d' w'] obs]. simpl in *. subst d'.
    apply Timed_create.
  - apply Timed_create.
Qed.

Lemma Timed_interact inputs w :
  let sys := interact fn options inputs (start w) in
  Timed options (world sys) (debouncer sys).
Proof.
  induction inputs as [|i inputs IH] using rev_ind; simpl.
  - apply Timed_create.
  - unfold interact in *. rewrite fold_left_app. simpl. by apply Timed_step.
Qed.

Lemma Timed_interact_from inputs sys :
  Timed options (world sys) (debouncer sys) ->
  Timed options (world (interact fn options inputs sys))
    (debouncer (interact fn options inputs sys)).
Proof.
  revert sys. induction inputs as [|i inputs IH]; intros sys HT; simpl; [done|].
  by apply IH, Timed_step.
Qed.

(** A debouncer with nothing buffered ignores everything but calls. *)
Lemma idle_step sys i :
  debouncer sys = create -> isCall i = false ->
  debouncer (step fn options sys i) = create
  /\ observed (step fn options sys i) = observed sys
  /\ promisesCreated (step fn options sys i) = promisesCreated sys.
Proof.
  intros Hd Hi. destruct i as [args|dt| |]; [done|..]; simpl.
  - unfold advance. rewrite Hd. simpl. by rewrite app_nil_r.
  - unfold flush. rewrite Hd. simpl. by rewrite app_nil_r.
  - rewrite Hd. simpl. by rewrite app_nil_r.
Qed.

Lemma idle_interact inputs sys :
  debouncer sys = create -> Forall (fun i => isCall i = false) inputs ->
  debouncer (interact fn options inputs sys) = create
  /\ observed (interact fn options inputs sys) = observed sys
  /\ promisesCreated (interact fn options inputs sys) = promisesCreated sys.
Proof.
  intros Hd Hin. revert sys Hd.
  induction Hin as [|i inputs Hi _ IH]; intros sys Hd; simpl; [done|].
  destruct (idle_step sys i Hd Hi) as (Hd1 & Ho1 & Hp1).
  destruct (IH _ Hd1) as (Hd2 & Ho2 & Hp2). by rewrite Hd2, Ho2, Hp2.
Qed.

(** Executing a buffered batch, as a step of a system. *)
Lemma execute_pending d w args :
  lastArgs d = Some args ->
  exists result w',
    fn args w = (result, w')
    /\ execute fn d w
       = (create, w',
          Invoked args result
            :: map (fun p => Settled p (outcome result)) (pendingPromises d)).
Proof.
  intros E. unfold execute, clearTimeouts; simpl. rewrite E.
  destruct (fn args w) as [result w']. exists result, w'.
  split; [done|]. by destruct result.
Qed.

Lemma quiet_period_step sys args :
  Timed options (world sys) (debouncer sys) ->
  lastArgs (debouncer sys) = Some args ->
  exists result,
    observed (step fn options sys (Advance (wait options)))
    = observed sys
      ++ Invoked args result
         :: map (fun p => Settled p (outcome result))
              (pendingPromises (debouncer sys))
    /\ debouncer (step fn options sys (Advance (wait options))) = create.
Proof.
  intros [_ _ Hq Hd] Hargs.
  destruct Hq as (t & Ht & Hle); [by rewrite Hargs|].
  simpl. unfold advance.
  assert (exists due, nextTimer (debouncer sys) = Some due /\ due <= t)
    as (due & -> & Hdue).
  { unfold nextTimer. rewrite Ht.
    destruct (maxWaitTimeoutId _); eexists; (split; [done|lia]). }
  unfold timerDelay in Hle.
  destruct (Z.leb_spec due (clock (world sys) + Z.max 0 (wait options)));
    [|lia].
  destruct (execute_pending (debouncer sys)
              (setClock (Z.max (clock (world sys)) due) (world sys)) args Hargs)
    as (result & w' & _ & ->).
  by exists result.
Qed.

(** X3: the quiet period.  Whatever was done with a debouncer before: if
    a batch is buffered and the caller stays quiet for [wait], the batch
    is executed, once, with the buffered arguments, every waiting caller
    is answered with the outcome, and nothing stays buffered or armed. *)
Theorem quiet_period_executes (inputs : list (Input A)) w args :
  let sys := interact fn options inputs (start w) in
  lastArgs (debouncer sys) = Some args ->
  exists result,
    observed (step fn options sys (Advance (wait options)))
    = observed sys
      ++ Invoked args result
         :: map (fun p => Settled p (outcome result))
              (pendingPromises (debouncer sys))
    /\ debouncer (step fn options sys (Advance (wait options))) = create.
Proof.
  intros sys Hargs. apply quiet_period_step; [|done].
  apply Timed_interact.
Qed.

(** X4: flush.  With a batch buffered, [flush] executes it at once, with
    the buffered arguments, and answers every waiting caller; the timers
    that were armed for it never execute it again, whatever time passes
    afterwards.  With nothing buffered, [flush] does nothing. *)
Theorem flush_executes_once sys (rest : list (Input A)) :
  Forall (fun i => isCall i = false) rest ->
  match lastArgs (debouncer sys) with
  | Some args =>
      exists result w',
        fn args (world sys) = (result, w')
        /\ observed (interact fn options (Flush :: rest) sys)
           = observed sys
             ++ Invoked args result
                :: map (fun p => Settled p (outcome result))
                     (pendingPromises (debouncer sys))
  | None =>
      observed (interact fn options [Flush] sys) = observed sys
      /\ debouncer (interact fn options [Flush] sys) = debouncer sys
  end
  /\ (debouncer sys = create \/ lastArgs (debouncer sys) <> None ->
      debouncer (interact fn options (Flush :: rest) sys) = create).
Proof.
  intros Hrest. simpl. unfold flush.
  destruct (lastArgs (debouncer sys)) as [args|] eqn:Hargs.
  - destruct (execute_pending (debouncer sys) (world sys) args Hargs)
      as (result & w' & Hfn & ->).
    destruct (idle_interact rest
                (mkSystem create w' (promisesCreated sys)
                   (observed sys
                    ++ Invoked args result
                       :: map (fun p => Settled p (outcome result))
                            (pendingPromises (debouncer sys))))
                eq_refl Hrest) as (Hd & Ho & _).
    split; [by exists result, w'|done].
  - simpl. rewrite app_nil_r. split; [done|].
    intros [Hd|?]; [|done].
    by destruct (idle_interact rest
                   (mkSystem (debouncer sys) (world sys) (promisesCreated sys)
                      (observed sys)) Hd Hrest) as (? & _ & _).
Qed.

(** X5: cancel.  [cancel] rejects every waiting caller with the
    cancellation error and runs nothing; the batch it discarded is never
    executed afterwards, whatever time passes and however often [flush]
    or [cancel] follow. *)
Theorem cancel_discards_the_batch sys (rest : list (Input A)) :
  Forall (fun i => isCall i = false) rest ->
  let sys' := interact fn options (Cancel :: rest) sys in
  observed sys'
  = observed sys
    ++ map (fun p => Settled p (Throw cancelled))
         (pendingPromises (debouncer sys))
  /\ executions (observed sys') = executions (observed sys)
  /\ debouncer sys' = create
  /\ pending (debouncer sys') = false.
Proof.
  intros Hrest sys'.
  destruct (idle_interact rest
              (mkSystem create (world sys) (promisesCreated sys)
                 (observed sys
                  ++ map (fun p => Settled p (Throw cancelled))
                       (pendingPromises (debouncer sys))))
              eq_refl Hrest) as (Hd & Ho & _).
  change (interact fn options rest (mkSystem _ _ _ _)) with sys' in Hd, Ho.
  rewrite Hd, Ho. repeat split. simpl.
  by rewrite executions_app, executions_settled, app_nil_r.
Qed.


(** A call on the trailing edge, followed by less than [wait]. *)
Lemma buffered_call sys args gap :
  leading options = false ->
  maxWait options = None ->
  maxWaitTimeoutId (debouncer sys) = None ->
  Z.max 0 gap < timerDelay (wait options) ->
  let sys' := interact fn options [Call args; Advance gap] sys in
  observed sys' = observed sys
  /\ maxWaitTimeoutId (debouncer sys') = None
  /\ lastArgs (debouncer sys') = Some args
  /\ pendingPromises (debouncer sys')
     = pendingPromises (debouncer sys) ++ [promisesCreated sys]
  /\ promisesCreated sys' = Datatypes.S (promisesCreated sys).
Proof.
  intros Hlead Hmw Hm Hgap. simpl. unfold call. rewrite Hlead, Hmw. simpl.
  unfold advance, nextTimer. simpl. rewrite Hm.
  destruct (Z.leb_spec (clock (world sys) + timerDelay (wait options))
              (clock (world sys) + Z.max 0 gap)); [lia|].
  simpl. by rewrite !app_nil_r.
Qed.

Lemma buffered_burst (burst : list (A * Z)) sys :
  leading options = false ->
  maxWait options = None ->
  maxWaitTimeoutId (debouncer sys) = None ->
  Forall (fun '(_, gap) => Z.max 0 gap < timerDelay (wait options)) burst ->
  let sys' := interact fn options (burstInputs burst) sys in
  observed sys' = observed sys
  /\ maxWaitTimeoutId (debouncer sys') = None
  /\ lastArgs (debouncer sys')
     = match last burst with
       | Some (args, _) => Some args
       | None => lastArgs (debouncer sys)
       end
  /\ pendingPromises (debouncer sys')
     = pendingPromises (debouncer sys)
       ++ seq (promisesCreated sys) (length burst)
  /\ promisesCreated sys' = (promisesCreated sys + length burst)%nat.
Proof.
  intros Hlead Hmw Hm Hgaps. revert sys Hm.
  induction Hgaps as [|[args gap] burst Hgap _ IH]; intros sys Hm.
  - simpl. by rewrite app_nil_r, Nat.add_0_r.
  - destruct (buffered_call sys args gap Hlead Hmw Hm Hgap)
      as (Ho & Hm1 & Ha & Hp & Hn).
    cbv zeta in *.
    change (interact fn options (burstInputs ((args, gap) :: burst)) sys)
      with (interact fn options (burstInputs burst)
              (interact fn options [Call args; Advance gap] sys)).
    destruct (IH _ Hm1) as (Ho2 & Hm2 & Ha2 & Hp2 & Hn2).
    rewrite Ho2, Ho, Hm2, Ha2, Ha, Hp2, Hp, Hn2, Hn.
    split; [done|]. split; [done|]. split; [|split].
    + rewrite last_cons. by destruct (last burst) as [[]|].
    + by rewrite <- app_assoc.
    + simpl. lia.
Qed.


Lemma trailing_call sys args :
  leading options = false ->
  world (step fn options sys (Call args)) = world sys
  /\ observed (step fn options sys (Call args)) = observed sys
  /\ lastArgs (debouncer (step fn options sys (Call args))) = Some args
  /\ (forall m,
        maxWaitTimeoutId (debouncer sys) = Some m ->
        maxWaitTimeoutId (debouncer (step fn options sys (Call args)))
        = Some m).
Proof.
  intros Hlead. simpl. unfold call. rewrite Hlead. simpl.
  rewrite app_nil_r. repeat split.
  - by destruct (maxWait options), (maxWaitTimeoutId (debouncer sys)).
  - intros m ->. by destruct (maxWait options).
Qed.

Lemma advance_fires sys dt due args :
  nextTimer (debouncer sys) = Some due ->
  due <= clock (world sys) + Z.max 0 dt ->
  lastArgs (debouncer sys) = Some args ->
  exists result w',
    step fn options sys (Advance dt)
    = mkSystem create w' (promisesCreated sys)
        (observed sys
         ++ Invoked args result
            :: map (fun p => Settled p (outcome result))
                 (pendingPromises (debouncer sys))).
Proof.
  intros Hdue Hle Hargs. simpl. unfold advance. rewrite Hdue.
  destruct (Z.leb_spec due (clock (world sys) + Z.max 0 dt)); [|lia].
  destruct (execute_pending (debouncer sys)
              (setClock (Z.max (clock (world sys)) due) (world sys)) args Hargs)
    as (result & w' & _ & ->).
  by eexists _, _.
Qed.

Lemma advance_waits sys dt due :
  nextTimer (debouncer sys) = Some due ->
  clock (world sys) + Z.max 0 dt < due ->
  step fn options sys (Advance dt)
  = mkSystem (debouncer sys)
      (setClock (clock (world sys) + Z.max 0 dt) (world sys))
      (promisesCreated sys) (observed sys).
Proof.
  intros Hdue Hlt. simpl. unfold advance. rewrite Hdue.
  destruct (Z.leb_spec due (clock (world sys) + Z.max 0 dt)); [lia|].
  by rewrite app_nil_r.
Qed.

(** While a burst runs under a deadline without executing, the deadline
    is still ahead. *)
Lemma deadline_ahead (rest : list (Input A)) sys m :
  leading options = false ->
  maxWaitTimeoutId (debouncer sys) = Some m ->
  lastArgs (debouncer sys) <> None ->
  clock (world sys) < m ->
  Forall (fun i => isCallOrAdvance i = true) rest ->
  executions (observed (interact fn options rest sys))
  = executions (observed sys) ->
  clock (world sys) + elapsed rest < m.
Proof.
  intros Hlead Hm Hargs Hclock Hrest. revert sys Hm Hargs Hclock.
  induction Hrest as [|i rest Hi _ IH]; intros sys Hm Hargs Hclock Hexec.
  { simpl. lia. }
  change (interact fn options (i :: rest) sys)
    with (interact fn options rest (step fn options sys i)) in Hexec.
  destruct i as [args|dt| |]; try done.
  - (* a further call: the deadline stays *)
    destruct (trailing_call sys args Hlead) as (Hw & Ho & Ha & Hkeep).
    specialize (IH (step fn options sys (Call args))).
    rewrite Hw, Ho, Ha in IH. apply IH; auto.
  - (* time passes *)
    assert (exists due, nextTimer (debouncer sys) = Some due /\ due <= m)
      as (due & Hdue & Hle).
    { unfold nextTimer. rewrite Hm.
      destruct (timeoutId _); eexists; (split; [done|lia]). }
    change (elapsed (Advance dt :: rest)) with (Z.max 0 dt + elapsed rest).
    destruct (Z.le_gt_cases due (clock (world sys) + Z.max 0 dt))
      as [Hfire|Hno].
    + (* the timer fires: there is an execution *)
      exfalso. destruct (lastArgs (debouncer sys)) as [args|] eqn:E; [|done].
      destruct (advance_fires sys dt due args Hdue Hfire E)
        as (result & w' & Hstep).
      rewrite Hstep in Hexec.
      destruct (interact_appends rest
                  (mkSystem create w' (promisesCreated sys)
                     (observed sys
                      ++ Invoked args result
                         :: map (fun p => Settled p (outcome result))
                              (pendingPromises (debouncer sys)))))
        as [obs Hobs].
      rewrite Hobs in Hexec. simpl in Hexec.
      rewrite !executions_app in Hexec. simpl in Hexec.
      apply (f_equal length) in Hexec.
      rewrite !length_app in Hexec. simpl in Hexec. lia.
    + rewrite (advance_waits sys dt due Hdue Hno) in Hexec.
      specialize (IH (mkSystem (debouncer sys)
                        (setClock (clock (world sys) + Z.max 0 dt) (world sys))
                        (promisesCreated sys) (observed sys))
                    Hm Hargs ltac:(simpl; lia) Hexec).
      simpl in IH. lia.
Qed.

(** X8: the deadline.  On the trailing edge with [maxWait > 0]: from the
    first call of a burst on an idle debouncer on, however many calls
    follow and re-arm the quiet-period timer, less than [maxWait] can
    pass without an execution. *)
Theorem deadline_bounds_the_burst sys args (rest : list (Input A)) maxWait :
  leading options = false ->
  Config.maxWait options = Some maxWait ->
  0 < maxWait ->
  debouncer sys = create ->
  Forall (fun i => isCallOrAdvance i = true) rest ->
  executions (observed (interact fn options (Call args :: rest) sys))
  = executions (observed sys) ->
  elapsed rest < maxWait.
Proof.
  intros Hlead Hmw Hpos Hd Hrest Hexec.
  change (interact fn options (Call args :: rest) sys)
    with (interact fn options rest (step fn options sys (Call args)))
    in Hexec.
  set (sys1 :=
         mkSystem
           (mkDebouncer (Some (clock (world sys) + timerDelay (wait options)))
              (Some (clock (world sys) + timerDelay maxWait)) (Some args)
              false [promisesCreated sys])
           (world sys) (Datatypes.S (promisesCreated sys)) (observed sys)).
  assert (step fn options sys (Call args) = sys1) as Hstep.
  { simpl. unfold call. rewrite Hlead, Hmw, Hd. simpl.
    by rewrite app_nil_r. }
  rewrite Hstep in Hexec.
  pose proof (deadline_ahead rest sys1 (clock (world sys) + timerDelay maxWait)
                Hlead eq_refl ltac:(done)
                ltac:(simpl; unfold timerDelay; lia) Hrest Hexec) as H.
  simpl in H. unfold timerDelay in H. lia.
Qed.

End DebouncerTimers.

Lemma quiet_period_executes_witness :
  exists result,
    Debouncer.observed
      (Debouncer.step Scenarios.echo Scenarios.trailingEdge
         (Debouncer.interact Scenarios.echo Scenarios.trailingEdge
            [Debouncer.Call 1; Debouncer.Advance 30; Debouncer.Call 2]
            (Debouncer.start (Scenarios.world0 tt 0)))
         (Debouncer.Advance 100))
    = [Debouncer.Invoked 2 result;
       Debouncer.Settled 0 (Debouncer.outcome result);
       Debouncer.Settled 1 (Debouncer.outcome result)]
    /\ Debouncer.debouncer
         (Debouncer.step Scenarios.echo Scenarios.trailingEdge
            (Debouncer.interact Scenarios.echo Scenarios.trailingEdge
               [Debouncer.Call 1; Debouncer.Advance 30; Debouncer.Call 2]
               (Debouncer.start (Scenarios.world0 tt 0)))
            (Debouncer.Advance 100))
       = Debouncer.create.
Proof.
  exact (quiet_period_executes Scenarios.echo Scenarios.trailingEdge
           [Debouncer.Call 1; Debouncer.Advance 30; Debouncer.Call 2]
           (Scenarios.world0 tt 0) 2 eq_refl).
Defined.

Lemma flush_executes_once_witness :
  let sys :=
    Debouncer.interact Scenarios.echo Scenarios.trailingEdge
      [Debouncer.Call 1; Debouncer.Call 2]
      (Debouncer.start (Scenarios.world0 tt 0)) in
  (exists result w',
      Scenarios.echo 2 (Debouncer.world sys) = (result, w')
      /\ Debouncer.observed
           (Debouncer.interact Scenarios.echo Scenarios.trailingEdge
              [Debouncer.Flush; Debouncer.Advance 500; Debouncer.Flush] sys)
         = [Debouncer.Invoked 2 result;
            Debouncer.Settled 0 (Debouncer.outcome result);
            Debouncer.Settled 1 (Debouncer.outcome result)])
  /\ (Debouncer.debouncer sys = Debouncer.create
      \/ Debouncer.lastArgs (Debouncer.debouncer sys) <> None ->
      Debouncer.debouncer
        (Debouncer.interact Scenarios.echo Scenarios.trailingEdge
           [Debouncer.Flush; Debouncer.Advance 500; Debouncer.Flush] sys)
      = Debouncer.create).
Proof.
  exact (flush_executes_once Scenarios.echo Scenarios.trailingEdge
           (Debouncer.interact Scenarios.echo Scenarios.trailingEdge
              [Debouncer.Call 1; Debouncer.Call 2]
              (Debouncer.start (Scenarios.world0 tt 0)))
           [Debouncer.Advance 500; Debouncer.Flush]
           ltac:(repeat constructor)).
Defined.

Lemma cancel_discards_the_batch_witness :
  let sys :=
    Debouncer.interact Scenarios.echo Scenarios.withDeadline
      [Debouncer.Call 1; Debouncer.Call 2]
      (Debouncer.start (Scenarios.world0 tt 0)) in
  let sys' :=
    Debouncer.interact Scenarios.echo Scenarios.withDeadline
      [Debouncer.Cancel; Debouncer.Advance 500; Debouncer.Flush] sys in
  Debouncer.observed sys'
  = [Debouncer.Settled 0 (Throw Debouncer.cancelled);
     Debouncer.Settled 1 (Throw Debouncer.cancelled)]
  /\ Debouncer.executions (Debouncer.observed sys') = []
  /\ Debouncer.debouncer sys' = Debouncer.create
  /\ Debouncer.pending (Debouncer.debouncer sys') = false.
Proof.
  exact (cancel_discards_the_batch Scenarios.echo Scenarios.withDeadline
           (Debouncer.interact Scenarios.echo Scenarios.withDeadline
              [Debouncer.Call 1; Debouncer.Call 2]
              (Debouncer.start (Scenarios.world0 tt 0)))
           [Debouncer.Advance 500; Debouncer.Flush]
           ltac:(repeat constructor)).
Defined.


Lemma deadline_bounds_the_burst_witness :
  Debouncer.elapsed
    [Debouncer.Advance 50; Debouncer.Call 2; Debouncer.Advance 50;
     Debouncer.Call 3; Debouncer.Advance 50; Debouncer.Call 4;
     Debouncer.Advance 49]
  < 200.
Proof.
  apply (deadline_bounds_the_burst Scenarios.echo Scenarios.withDeadline
           (Debouncer.start (Scenarios.world0 tt 0)) 1
           [Debouncer.Advance 50; Debouncer.Call 2; Debouncer.Advance 50;
            Debouncer.Call 3; Debouncer.Advance 50; Debouncer.Call 4;
            Debouncer.Advance 49]
           200);
    try reflexivity.
  repeat constructor.
Defined.

(** ** The retry executor: edges of the loop *)

Section RetryEdges.
Import Retry.
Context {S T : Type}.
Implicit Types (fn : M S T) (o : RetryOptions S) (w : World S).

(** X9: no attempt allowed.  With [attempts <= 0] the loop body never
    runs: the operation is not called, and the rejection is the
    [TypeError] raised while [RetryExhaustedError] is being built from a
    [lastError] that is still [null]. *)
Theorem withRetry_without_attempts fn o w :
  attempts o <= 0 ->
  withRetry fn o w = (Throw (ThrowError TypeError), w).
Proof.
  intros Hle. unfold withRetry.
  replace (Z.to_nat (attempts o)) with 0%nat by lia. reflexivity.
Qed.

(** X10: a throwing [onRetry].  Whatever attempt the run has reached: if
    the attempt fails, may be retried, and the [onRetry] callback throws,
    the run ends with what the callback threw, in the world the callback
    left: no sleep, no further attempt, no [RetryExhaustedError]. *)
Theorem withRetry_onRetry_failure fn o w0 attempt lastError w error w1
    delay w2 t w3 :
  AtAttempt fn o w0 attempt lastError w ->
  attempt < attempts o ->
  fn (addTrace [EvAttempt attempt] w) = (Throw error, w1) ->
  vetoed o (toError error) = false ->
  calculateDelay attempt (baseDelay o) (maxDelayOrDefault o) (backoff o) w1
  = (Ok delay, w2) ->
  callOnRetry o attempt (toError error) delay w2 = (Throw t, w3) ->
  withRetry fn o w0 = (Throw t, w3).
Proof.
  intros Hat Hlt Hfn Hveto Hdelay Hhook.
  rewrite (withRetry_resumes _ _ _ _ _ _ Hat) by lia. simpl.
  unfold tryCatch, emit. unfold bind at 1. rewrite Hfn, Hveto.
  destruct (Z.leb_spec (attempts o) attempt); [lia|].
  unfold bind at 1. rewrite Hdelay. unfold bind at 1. by rewrite Hhook.
Qed.

Lemma jitteredDelay_capped rnd attempt baseDelay maxDelay backoff :
  jitteredDelay rnd attempt baseDelay maxDelay backoff <= Math_round maxDelay.
Proof. unfold jitteredDelay. apply Math_round_le, Q.le_min_r. Qed.

Lemma external_attempt (f : S -> Result T * S) events w r w1 :
  external f (addTrace events w) = (r, w1) ->
  trace w1 = trace w ++ events /\ clock w1 = clock w.
Proof.
  unfold external. simpl. destruct (f (store w)). by intros [= <- <-].
Qed.

Lemma retryLoop_schedule (f : S -> Result T * S) o n attempt lastError w r w' :
  onRetry o = None ->
  attempt + Z.of_nat n = attempts o ->
  retryLoop (external f) o (Datatypes.S n) attempt lastError w = (r, w') ->
  exists delays,
    (length delays <= n)%nat
    /\ trace w' = trace w ++ retrySchedule attempt delays
    /\ Forall (fun delay => delay <= Math_round (maxDelayOrDefault o)) delays
    /\ clock w' = clock w + totalSleep delays.
Proof.
  intros Hhook. revert attempt lastError w.
  induction n as [|n IH]; intros attempt lastError w Hn;
    destruct (external f (addTrace [EvAttempt attempt] w))
      as [[v|error] w1] eqn:Hfn;
    pose proof (external_attempt _ _ _ _ _ Hfn) as [Htrace Hclock].
  1, 3: rewrite (retryLoop_success _ _ _ _ _ _ _ _ Hfn); intros [= <- <-];
    exists []; split_and!; [simpl; lia|done|constructor|simpl; lia].
  all: destruct (vetoed o (toError error)) eqn:Hveto.
  1, 3: rewrite (retryLoop_veto _ _ _ _ _ _ _ _ Hfn Hveto); intros [= <- <-];
    exists []; split_and!; [simpl; lia|done|constructor|simpl; lia].
  all: destruct (Z_le_gt_dec (attempts o) attempt) as [Hlast|Hmore].
  1, 3: rewrite (retryLoop_last _ _ _ _ _ _ _ _ Hfn Hveto Hlast);
    intros [= <- <-];
    exists []; split_and!; [simpl; lia|done|constructor|simpl; lia].
  { lia. }
  set (delay := jitteredDelay (entropy w1 (randomsDrawn w1)) attempt
                  (baseDelay o) (maxDelayOrDefault o) (backoff o)).
  rewrite (retryLoop_again (external f) o (Datatypes.S n) attempt lastError w
             error w1 delay _ _ _ Hfn Hveto ltac:(lia) eq_refl
             ltac:(unfold callOnRetry; rewrite Hhook; reflexivity) eq_refl).
  intros Hrun.
  apply IH in Hrun as (delays & Hlen & Htrace' & Hcap & Hclock'); [|lia].
  exists (delay :: delays). simpl in Htrace', Hclock'.
  rewrite Htrace', Hclock', Htrace, Hclock. simpl. rewrite <- !app_assoc.
  split_and!; [lia|done| |lia].
  constructor; [apply jitteredDelay_capped|done].
Qed.


End RetryEdges.

Lemma withRetry_without_attempts_witness :
  Retry.withRetry Scenarios.flaky
    (Retry.mkRetryOptions (mkRetryConfig 0 100 None Exponential None) None)
    (Scenarios.world0 0%nat 0)
  = (Throw (ThrowError TypeError), Scenarios.world0 0%nat 0).
Proof.
  apply (withRetry_without_attempts Scenarios.flaky
           (Retry.mkRetryOptions (mkRetryConfig 0 100 None Exponential None)
              None)
           (Scenarios.world0 0%nat 0)).
  simpl. lia.
Defined.

Lemma withRetry_onRetry_failure_witness :
  Retry.withRetry Scenarios.flaky Scenarios.impatient
    (Scenarios.world0 0%nat (1 # 2))
  = (Throw (ThrowValue "enough"),
     mkWorld 1%nat 0 (fun _ => 1 # 2) 1 (fun n => pretty n) 0 [EvAttempt 1]).
Proof.
  eapply (withRetry_onRetry_failure Scenarios.flaky Scenarios.impatient
            (Scenarios.world0 0%nat (1 # 2)) 1 None
            (Scenarios.world0 0%nat (1 # 2)) (ThrowValue "down")).
  - apply Retry.AtAttempt_first.
  - simpl. lia.
  - reflexivity.
  - reflexivity.
  - reflexivity.
  - reflexivity.
Defined.


(** ** The pipeline stages *)

Section WorldFacts.
Context {S : Type}.
Implicit Types (w : World S).

Lemma addTrace_nil w : addTrace [] w = w.
Proof. destruct w. unfold addTrace. simpl. by rewrite app_nil_r. Qed.

Lemma addTrace_addTrace events1 events2 w :
  addTrace events2 (addTrace events1 w) = addTrace (events1 ++ events2) w.
Proof. unfold addTrace. simpl. by rewrite app_assoc. Qed.

Lemma setStore_addTrace (s : S) events w :
  setStore s (addTrace events w) = addTrace events (setStore s w).
Proof. reflexivity. Qed.

Lemma setStore_setStore (s1 s2 : S) w :
  setStore s2 (setStore s1 w) = setStore s2 w.
Proof. reflexivity. Qed.

Lemma setStore_store w : setStore (store w) w = w.
Proof. by destruct w. Qed.

End WorldFacts.

Section PipelineStages.
Import Pipeline.
Context {S Data : Type}.
Implicit Types (w : World S) (data : Data) (item : FeedbackItem Data).

(** X13: registration sorts by kind.  Registering plugins one after the
    other appends each to the list of its kind: every list of the
    registry grows by the plugins of that kind, in the order in which
    they were registered, and by nothing else. *)
Theorem registerPlugin_sorts_by_kind
    (plugins : list (FeedbackPlugin S Data)) registry :
  validators (registerAll plugins registry)
  = validators registry ++ omap asValidator plugins
  /\ transformers (registerAll plugins registry)
     = transformers registry ++ omap asTransformer plugins
  /\ handlers (registerAll plugins registry)
     = handlers registry ++ omap asHandler plugins.
Proof.
  revert registry. induction plugins as [|plugin plugins IH]; intros registry.
  - simpl. by rewrite !app_nil_r.
  - change (registerAll (plugin :: plugins) registry)
      with (registerAll plugins (registerPlugin registry plugin)).
    destruct (IH (registerPlugin registry plugin)) as (-> & -> & ->).
    destruct plugin; simpl; by rewrite <- ?app_assoc.
Qed.

(** One turn of the validators' loop. *)
Lemma validatorsLoop_step (v : ValidatorPlugin S Data) rest data allErrors w
    result s1 :
  validate v data (store w) = (Ok result, s1) ->
  validatorsLoop (v :: rest) data allErrors w
  = validatorsLoop rest data
      (if negb (valid result) then allErrors ++ errors result else allErrors)
      (addTrace [EvValidate (name v)] (setStore s1 w)).
Proof.
  intros Hv. simpl. unfold bind at 1.
  unfold tryCatch, bind, emit, external. simpl. by rewrite Hv.
Qed.

Lemma validatorsLoop_throw (v : ValidatorPlugin S Data) rest data allErrors w
    t s1 :
  validate v data (store w) = (Throw t, s1) ->
  validatorsLoop (v :: rest) data allErrors w
  = (Throw (ThrowError (PluginError (name v) PhValidate (toError t))),
     addTrace [EvValidate (name v)] (setStore s1 w)).
Proof.
  intros Hv. simpl. unfold bind at 1.
  unfold tryCatch, bind, emit, external. simpl. by rewrite Hv.
Qed.

Lemma validatorsLoop_fault (before : list (ValidatorPlugin S Data)) v after
    data allErrors w results s1 t s2 :
  Answers before data (store w) results s1 ->
  validate v data s1 = (Throw t, s2) ->
  validatorsLoop (before ++ v :: after) data allErrors w
  = (Throw (ThrowError (PluginError (name v) PhValidate (toError t))),
     addTrace (map (fun v => EvValidate (name v)) (before ++ [v]))
       (setStore s2 w)).
Proof.
  intros Hans Hv. revert allErrors w results Hans.
  induction before as [|b before IH]; intros allErrors w results Hans;
    inversion Hans as [|? ? ? ? r s0 rs ? Hb Hrest]; subst.
  - by apply validatorsLoop_throw.
  - change ((b :: before) ++ v :: after) with (b :: before ++ v :: after).
    rewrite (validatorsLoop_step _ _ _ _ _ _ _ Hb).
    rewrite (IH _ (addTrace [EvValidate (name b)] (setStore s0 w)) _ Hrest).
    by rewrite setStore_addTrace, addTrace_addTrace.
Qed.

(** X14: a throwing validator.  When the validators before it answer and
    one throws, [runValidators] rejects with a [PluginError] that names
    that validator and the phase [validate] and carries the error thrown
    (wrapped in an [Error] when it was not one); the validators behind it
    are not run, and whatever the earlier ones reported is lost with the
    rejection. *)
Theorem runValidators_fault (before : list (ValidatorPlugin S Data)) v after
    data w results s1 t s2 :
  Answers before data (store w) results s1 ->
  validate v data s1 = (Throw t, s2) ->
  runValidators (before ++ v :: after) data w
  = (Throw (ThrowError (PluginError (name v) PhValidate (toError t))),
     addTrace (map (fun v => EvValidate (name v)) (before ++ [v]))
       (setStore s2 w)).
Proof.
  intros Hans Hv. unfold runValidators, bind.
  by rewrite (validatorsLoop_fault _ _ _ _ _ _ _ _ _ _ Hans Hv).
Qed.

(** One turn of the transformers' loop. *)
Lemma runTransformers_step (t : TransformerPlugin S Data) rest item w item1 s1 :
  transform t item (store w) = (Ok item1, s1) ->
  runTransformers (t :: rest) item w
  = runTransformers rest item1 (addTrace [EvTransform (name t)] (setStore s1 w)).
Proof.
  intros Ht. simpl. unfold bind at 1.
  unfold tryCatch, bind, emit, external. simpl. by rewrite Ht.
Qed.

Lemma runTransformers_throw (t : TransformerPlugin S Data) rest item w e s1 :
  transform t item (store w) = (Throw e, s1) ->
  runTransformers (t :: rest) item w
  = (Throw (ThrowError (PluginError (name t) PhTransform (toError e))),
     addTrace [EvTransform (name t)] (setStore s1 w)).
Proof.
  intros Ht. simpl. unfold bind at 1.
  unfold tryCatch, bind, emit, external. simpl. by rewrite Ht.
Qed.

Lemma runTransformers_Transformed (ts : list (TransformerPlugin S Data))
    item w item' s' :
  Transformed ts item (store w) item' s' ->
  runTransformers ts item w
  = (Ok item',
     addTrace (map (fun t => EvTransform (name t)) ts) (setStore s' w)).
Proof.
  revert item w. induction ts as [|t ts IH]; intros item w Hts;
    inversion Hts as [|? ? ? ? item1 s1 ? ? Ht Hrest]; subst.
  - simpl. by rewrite setStore_store, addTrace_nil.
  - rewrite (runTransformers_step _ _ _ _ _ _ Ht).
    rewrite IH by done. by rewrite setStore_addTrace, addTrace_addTrace.
Qed.

Lemma runTransformers_stops (before : list (TransformerPlugin S Data)) t after
    item w item1 s1 e s2 :
  Transformed before item (store w) item1 s1 ->
  transform t item1 s1 = (Throw e, s2) ->
  runTransformers (before ++ t :: after) item w
  = (Throw (ThrowError (PluginError (name t) PhTransform (toError e))),
     addTrace (map (fun t => EvTransform (name t)) (before ++ [t]))
       (setStore s2 w)).
Proof.
  intros Hts Ht. revert item w Hts.
  induction before as [|b before IH]; intros item w Hts;
    inversion Hts as [|? ? ? ? item0 s0 ? ? Hb Hrest]; subst.
  - by apply runTransformers_throw.
  - change ((b :: before) ++ t :: after) with (b :: before ++ t :: after).
    rewrite (runTransformers_step _ _ _ _ _ _ Hb).
    rewrite IH by done. by rewrite setStore_addTrace, addTrace_addTrace.
Qed.

(** X15: the transformer chain.  Transformers run in registration order,
    each on the item its predecessor returned; when none throws, the
    result is the item the last one returned.  When the next transformer
    throws, [runTransformers] rejects with a [PluginError] naming it and
    the phase [transform]; the transformers behind it are not run and the
    items made so far are dropped. *)
Theorem runTransformers_chain (before : list (TransformerPlugin S Data))
    item w item1 s1 :
  Transformed before item (store w) item1 s1 ->
  runTransformers before item w
  = (Ok item1,
     addTrace (map (fun t => EvTransform (name t)) before) (setStore s1 w))
  /\ forall t after e s2,
       transform t item1 s1 = (Throw e, s2) ->
       runTransformers (before ++ t :: after) item w
       = (Throw (ThrowError (PluginError (name t) PhTransform (toError e))),
          addTrace (map (fun t => EvTransform (name t)) (before ++ [t]))
            (setStore s2 w)).
Proof.
  intros Hts. split.
  - by apply runTransformers_Transformed.
  - intros t after e s2 Ht. by eapply runTransformers_stops.
Qed.

(** The closure [runHandler]. *)
Lemma runHandler_done (h : HandlerPlugin S Data) item w s1 :
  handle h item (store w) = (Ok tt, s1) ->
  runHandler item h w = (Ok tt, addTrace [EvHandle (name h)] (setStore s1 w)).
Proof.
  intros Hh. unfold runHandler, tryCatch, bind, emit, external. simpl.
  by rewrite Hh.
Qed.

Lemma runHandler_throw (h : HandlerPlugin S Data) item w e s1 :
  handle h item (store w) = (Throw e, s1) ->
  runHandler item h w
  = (Throw (ThrowError (PluginError (name h) PhHandle (toError e))),
     addTrace [EvHandle (name h)] (setStore s1 w)).
Proof.
  intros Hh. unfold runHandler, tryCatch, bind, emit, external. simpl.
  by rewrite Hh.
Qed.

Lemma runHandlers_Handled (hs : list (HandlerPlugin S Data)) item w s'
    parallel :
  Handled hs item (store w) s' ->
  runHandlers hs item parallel w
  = (Ok tt, addTrace (map (fun h => EvHandle (name h)) hs) (setStore s' w)).
Proof.
  revert w. induction hs as [|h hs IH]; intros w Hhs;
    inversion Hhs as [|? ? ? ? s1 ? Hh Hrest]; subst.
  - destruct parallel; simpl; by rewrite setStore_store, addTrace_nil.
  - pose proof (runHandler_done _ _ _ _ Hh) as Hrun.
    specialize (IH (addTrace [EvHandle (name h)] (setStore s1 w)) Hrest).
    rewrite setStore_addTrace, addTrace_addTrace in IH.
    destruct parallel; simpl in *.
    + by rewrite Hrun.
    + unfold bind at 1. by rewrite Hrun.
Qed.

(** X16: the first failing handler.  When the handlers before it complete
    and one throws, [runHandlers] rejects with a [PluginError] naming
    that handler and the phase [handle], in either mode.  In sequence the
    handlers behind it are not run.  In parallel (the default, and what
    the collector uses) every handler has been started by then: the ones
    behind the failing one run all the same. *)
Theorem runHandlers_first_failure (before : list (HandlerPlugin S Data)) h
    after item w s1 e s2 parallel :
  Handled before item (store w) s1 ->
  handle h item s1 = (Throw e, s2) ->
  let run := runHandlers (before ++ h :: after) item parallel w in
  run.1 = Throw (ThrowError (PluginError (name h) PhHandle (toError e)))
  /\ trace run.2
     = trace w
       ++ map (fun h => EvHandle (name h))
            (before ++ h :: (if parallel then after else []))
  /\ (parallel = false -> store run.2 = s2).
Proof.
  intros Hhs Hh run. subst run. revert w Hhs.
  induction before as [|b before IH]; intros w Hhs;
    inversion Hhs as [|? ? ? ? s0 ? Hb Hrest]; subst.
  - pose proof (runHandler_throw _ _ _ _ _ Hh) as Hrun.
    destruct parallel; simpl.
    + rewrite Hrun. simpl. split_and!; [done| |done].
      rewrite Promise_all_runHandlers_trace. simpl. by rewrite <- app_assoc.
    + unfold bind at 1. rewrite Hrun. simpl. unfold bind. rewrite Hrun.
      done.
  - pose proof (runHandler_done _ _ _ _ Hb) as Hrun.
    specialize (IH (addTrace [EvHandle (name b)] (setStore s0 w)) Hrest).
    destruct IH as (IH1 & IH2 & IH3).
    destruct parallel; simpl in *.
    + rewrite Hrun. rewrite IH1, IH2. by rewrite <- app_assoc.
    + unfold bind at 1 2 3. rewrite Hrun. rewrite IH1, IH2, <- app_assoc.
      by split_and!.
Qed.

End PipelineStages.

(** ** The orchestrator, stage by stage *)

Section MonadSteps.
Context {S : Type}.

Lemma bind_ok {A B} (m : M S A) (k : A -> M S B) w a w1 :
  m w = (Ok a, w1) -> bind m k w = k a w1.
Proof. intros H. unfold bind. by rewrite H. Qed.

Lemma bind_throw {A B} (m : M S A) (k : A -> M S B) w t w1 :
  m w = (Throw t, w1) -> bind m k w = (Throw t, w1).
Proof. intros H. unfold bind. by rewrite H. Qed.

End MonadSteps.

Section CollectorRuns.
Import Pipeline Schema Retry Collector.
Context {S Data : Type}.
Implicit Types (c : FeedbackCollector S Data) (w : World S) (data : Data).
Implicit Types (item : FeedbackItem Data).

Lemma beforeEvents_cons i (h : BeforeCollectHook S Data) hs :
  beforeEvents i (h :: hs)
  = EvBeforeCollect i :: beforeEvents (Datatypes.S i) hs.
Proof.
  unfold beforeEvents. simpl. rewrite Nat.add_0_r. f_equal.
  apply imap_ext. intros j ? _. simpl. f_equal. lia.
Qed.

Lemma afterEvents_cons i (h : AfterCollectHook S Data) hs item :
  afterEvents i (h :: hs) item
  = EvAfterCollect i (id item) :: afterEvents (Datatypes.S i) hs item.
Proof.
  unfold afterEvents. simpl. rewrite Nat.add_0_r. f_equal.
  apply imap_ext. intros j ? _. simpl. f_equal. lia.
Qed.

Lemma beforeCollectLoop_pass i (hs : list (BeforeCollectHook S Data)) context
    w s' :
  HooksPass context hs (store w) s' ->
  beforeCollectLoop i hs context w
  = (Ok tt, addTrace (beforeEvents i hs) (setStore s' w)).
Proof.
  intros H. revert i w H.
  induction hs as [|h hs IH]; intros i w H;
    inversion H as [|? ? ? answer s1 ? Hh Hanswer Hrest]; subst.
  - simpl. by rewrite setStore_store, addTrace_nil.
  - simpl. unfold bind at 1, emit. unfold bind at 1, external. simpl.
    rewrite Hh.
    rewrite beforeEvents_cons.
    change (EvBeforeCollect i :: beforeEvents (Datatypes.S i) hs)
      with ([EvBeforeCollect i] ++ beforeEvents (Datatypes.S i) hs).
    rewrite <- addTrace_addTrace.
    destruct answer as [[]|]; [|done|];
      exact (IH (Datatypes.S i)
               (setStore s1 (addTrace [EvBeforeCollect i] w)) Hrest).
Qed.

Lemma beforeCollectLoop_cancel i (pre : list (BeforeCollectHook S Data)) h
    post context w s1 s2 :
  HooksPass context pre (store w) s1 ->
  h context s1 = (Ok (Some false), s2) ->
  beforeCollectLoop i (pre ++ h :: post) context w
  = (Throw (ThrowError
              (CollectionCancelledError "Cancelled by beforeCollect hook")),
     addTrace (beforeEvents i (pre ++ [h])) (setStore s2 w)).
Proof.
  intros H Hh. revert i w H.
  induction pre as [|h0 pre IH]; intros i w H;
    inversion H as [|? ? ? answer s0 ? Hh0 Hanswer Hrest]; subst.
  - simpl. unfold bind at 1, emit. unfold bind at 1, external. simpl.
    rewrite Hh. unfold beforeEvents. simpl. by rewrite Nat.add_0_r.
  - change ((h0 :: pre) ++ h :: post) with (h0 :: (pre ++ h :: post)).
    change ((h0 :: pre) ++ [h]) with (h0 :: (pre ++ [h])).
    simpl. unfold bind at 1, emit. unfold bind at 1, external. simpl.
    rewrite Hh0.
    rewrite beforeEvents_cons.
    change (EvBeforeCollect i :: beforeEvents (Datatypes.S i) (pre ++ [h]))
      with ([EvBeforeCollect i] ++ beforeEvents (Datatypes.S i) (pre ++ [h])).
    rewrite <- addTrace_addTrace.
    destruct answer as [[]|]; [|done|];
      exact (IH (Datatypes.S i)
               (setStore s0 (addTrace [EvBeforeCollect i] w)) Hrest).
Qed.

Lemma afterCollectLoop_complete i (hs : list (AfterCollectHook S Data)) item
    w s' :
  HooksComplete item hs (store w) s' ->
  afterCollectLoop i hs item w
  = (Ok tt, addTrace (afterEvents i hs item) (setStore s' w)).
Proof.
  intros H. revert i w H.
  induction hs as [|h hs IH]; intros i w H;
    inversion H as [|? ? ? s1 ? Hh Hrest]; subst.
  - simpl. by rewrite setStore_store, addTrace_nil.
  - simpl. unfold bind at 1, emit. unfold bind at 1, external. simpl.
    rewrite Hh.
    rewrite afterEvents_cons.
    change (EvAfterCollect i (id item) :: afterEvents (Datatypes.S i) hs item)
      with ([EvAfterCollect i (id item)]
            ++ afterEvents (Datatypes.S i) hs item).
    rewrite <- addTrace_addTrace.
    exact (IH (Datatypes.S i)
             (setStore s1 (addTrace [EvAfterCollect i (id item)] w)) Hrest).
Qed.

Lemma validate_answers c data w results s' :
  (forall sch, schema (config c) = Some sch -> sch data = ParseSuccess) ->
  Answers (validators (plugins c)) data (store w) results s' ->
  validate c data w
  = (Ok (mkValidationResult (Nat.eqb (length (reportedErrors results)) 0)
           (reportedErrors results)),
     addTrace (map (fun v => EvValidate (name v)) (validators (plugins c)))
       (setStore s' w)).
Proof.
  intros Hsch Hans.
  assert (runValidators (validators (plugins c)) data w
          = (Ok (mkValidationResult
                   (Nat.eqb (length (reportedErrors results)) 0)
                   (reportedErrors results)),
             addTrace
               (map (fun v => EvValidate (name v)) (validators (plugins c)))
               (setStore s' w))) as Hrun.
  { unfold runValidators, bind.
    by rewrite (validatorsLoop_answers _ _ _ _ _ _ Hans). }
  unfold validate. destruct (schema (config c)) as [sch|]; [|done].
  unfold validateWithSchema. by rewrite (Hsch sch eq_refl).
Qed.

Lemma withRetry_first_attempt {T} (fn : M S T) (o : RetryOptions S) w v w1 :
  1 <= attempts o ->
  fn (addTrace [EvAttempt 1] w) = (Ok v, w1) ->
  withRetry fn o w = (Ok v, w1).
Proof.
  intros Hn Hfn. unfold withRetry.
  replace (Z.to_nat (attempts o))
    with (Datatypes.S (Z.to_nat (attempts o - 1))) by lia.
  by apply retryLoop_success.
Qed.

Lemma handler_stage_completes c item w s' :
  Handled (handlers (plugins c)) item (store w) s' ->
  (forall r, retry (config c) = Some r -> 1 <= attempts r) ->
  (if (0 <? length (handlers (plugins c)))%nat
   then runHandlersWithRetry c item
   else ret tt) w
  = (Ok tt, addTrace (handlerEvents c) (setStore s' w)).
Proof.
  intros Hhs Hretry. unfold handlerEvents, runHandlersWithRetry.
  destruct (handlers (plugins c)) as [|h hs] eqn:E.
  - inversion Hhs; subst. simpl. unfold ret.
    by rewrite setStore_store, addTrace_nil.
  - change (0 <? length (h :: hs))%nat with true. cbv iota.
    destruct (retry (config c)) as [r|].
    + apply withRetry_first_attempt; [by apply Hretry|].
      rewrite (runHandlers_Handled _ _ _ s' true) by done.
      by rewrite setStore_addTrace, addTrace_addTrace.
    + by apply runHandlers_Handled.
Qed.

Lemma transformer_stage_completes c item0 w item s' :
  Transformed (transformers (plugins c)) item0 (store w) item s' ->
  (if (0 <? length (transformers (plugins c)))%nat
   then runTransformers (transformers (plugins c)) item0
   else ret item0) w
  = (Ok item,
     addTrace (map (fun t => EvTransform (name t)) (transformers (plugins c)))
       (setStore s' w)).
Proof.
  intros Hts. destruct (transformers (plugins c)) as [|t ts] eqn:E.
  - inversion Hts; subst. simpl. unfold ret.
    by rewrite setStore_store, addTrace_nil.
  - by apply runTransformers_Transformed.
Qed.

(** What [executeCollection] does when its [try] block fails and the
    error hooks complete. *)
Lemma executeCollection_rethrows c data metadata w error w1 s' :
  collectionBody c data (mergeMetadata (defaultMetadata (config c)) metadata)
    (clock w) w
  = (Throw error, w1) ->
  ObserversComplete (toError error) (getErrorPhase error)
    (Collector.error (hooks c)) (store w1) s' ->
  executeCollection c data metadata w
  = (Throw error,
     addTrace (errorEvents 0 (Collector.error (hooks c)) (toError error)
                 (getErrorPhase error))
       (setStore s' w1)).
Proof.
  intros Hbody Hobs.
  unfold executeCollection, bind at 1, Date_now, tryCatch.
  rewrite Hbody. unfold bind.
  by rewrite (errorLoop_complete _ _ _ _ _ _ Hobs).
Qed.

(** The [try] block when every stage completes. *)
Lemma collectionBody_stages c data merged timestamp w s1 results s2 item s3
    s4 s5 :
  let context :=
    mkCollectionContext (cfg_type (config c)) data merged timestamp in
  let item0 :=
    mkFeedbackItem (uuids w (idsDrawn w)) (cfg_type (config c)) data merged
      timestamp in
  HooksPass context (beforeCollect (hooks c)) (store w) s1 ->
  (forall sch, schema (config c) = Some sch -> sch data = ParseSuccess) ->
  Answers (validators (plugins c)) data s1 results s2 ->
  reportedErrors results = [] ->
  Transformed (transformers (plugins c)) item0 s2 item s3 ->
  Handled (handlers (plugins c)) item s3 s4 ->
  (forall r, retry (config c) = Some r -> 1 <= attempts r) ->
  HooksComplete item (afterCollect (hooks c)) s4 s5 ->
  exists w',
    collectionBody c data merged timestamp w = (Ok item, w')
    /\ trace w'
       = trace w
         ++ beforeEvents 0 (beforeCollect (hooks c))
         ++ map (fun v => EvValidate (name v)) (validators (plugins c))
         ++ map (fun t => EvTransform (name t)) (transformers (plugins c))
         ++ handlerEvents c
         ++ afterEvents 0 (afterCollect (hooks c)) item
    /\ store w' = s5
    /\ idsDrawn w' = Datatypes.S (idsDrawn w)
    /\ uuids w' = uuids w
    /\ clock w' = clock w.
Proof.
  intros context item0 Hbefore Hsch Hans Hnone Hts Hhs Hretry Hafter.
  unfold collectionBody. fold context.
  rewrite (bind_ok _ _ _ _ _ (beforeCollectLoop_pass 0 _ _ _ _ Hbefore)).
  rewrite (bind_ok _ _ _ _ _
             (validate_answers c data
                (addTrace (beforeEvents 0 (beforeCollect (hooks c)))
                   (setStore s1 w)) results s2 Hsch Hans)).
  rewrite Hnone. cbn [valid length Nat.eqb negb errors].
  unfold bind at 1, generateId at 1.
  match goal with |- context [bind _ _ ?w0] =>
    rewrite (bind_ok _ _ w0 _ _
               (transformer_stage_completes c item0 w0 item s3 Hts))
  end.
  match goal with |- context [bind _ _ ?w0] =>
    rewrite (bind_ok _ _ w0 _ _
               (handler_stage_completes c item w0 s4 Hhs Hretry))
  end.
  match goal with |- context [bind _ _ ?w0] =>
    rewrite (bind_ok _ _ w0 _ _
               (afterCollectLoop_complete 0 _ item w0 s5 Hafter))
  end.
  eexists. split; [reflexivity|]. simpl.
  by rewrite <- !app_assoc.
Qed.


(** X19: a before-collect hook that answers [false].  The hooks before it
    have run; the hooks behind it, the validators and everything after
    them are not run, and no identifier is drawn.  The error hooks are
    called with a [CollectionCancelledError] and no phase, and the
    collection rejects with that error. *)
Theorem executeCollection_cancelled_by_hook c data metadata w pre hook post
    s1 s2 s3 :
  let merged := mergeMetadata (defaultMetadata (config c)) metadata in
  let context :=
    mkCollectionContext (cfg_type (config c)) data merged (clock w) in
  let cancelled :=
    CollectionCancelledError "Cancelled by beforeCollect hook" in
  beforeCollect (hooks c) = pre ++ hook :: post ->
  HooksPass context pre (store w) s1 ->
  hook context s1 = (Ok (Some false), s2) ->
  ObserversComplete cancelled None (Collector.error (hooks c)) s2 s3 ->
  exists w',
    executeCollection c data metadata w = (Throw (ThrowError cancelled), w')
    /\ trace w'
       = trace w
         ++ beforeEvents 0 (pre ++ [hook])
         ++ errorEvents 0 (Collector.error (hooks c)) cancelled None
    /\ store w' = s3
    /\ idsDrawn w' = idsDrawn w.
Proof.
  intros merged context cancelled Hhooks Hpre Hhook Hobs.
  eexists. split.
  - eapply executeCollection_rethrows.
    + unfold collectionBody. fold merged. fold context. rewrite Hhooks.
      apply bind_throw. by eapply beforeCollectLoop_cancel.
    + exact Hobs.
  - simpl. by rewrite <- !app_assoc.
Qed.

(** X20: data the validators reject.  When the before-collect hooks pass,
    the configured schema (if any) accepts the data and the validators
    report at least one error, the collection rejects with a
    [ValidationError] carrying exactly the reported errors; no
    identifier is drawn and no transformer, handler or after-collect hook
    runs; the error hooks are called with the phase [validation]. *)
Theorem executeCollection_rejects_invalid_data c data metadata w s1 results
    s2 s3 :
  let merged := mergeMetadata (defaultMetadata (config c)) metadata in
  let context :=
    mkCollectionContext (cfg_type (config c)) data merged (clock w) in
  let invalid := ValidationError (reportedErrors results) in
  HooksPass context (beforeCollect (hooks c)) (store w) s1 ->
  (forall sch, schema (config c) = Some sch -> sch data = ParseSuccess) ->
  Answers (validators (plugins c)) data s1 results s2 ->
  reportedErrors results <> [] ->
  ObserversComplete invalid (Some Validation) (Collector.error (hooks c))
    s2 s3 ->
  exists w',
    executeCollection c data metadata w = (Throw (ThrowError invalid), w')
    /\ trace w'
       = trace w
         ++ beforeEvents 0 (beforeCollect (hooks c))
         ++ map (fun v => EvValidate (name v)) (validators (plugins c))
         ++ errorEvents 0 (Collector.error (hooks c)) invalid
              (Some Validation)
    /\ store w' = s3
    /\ idsDrawn w' = idsDrawn w.
Proof.
  intros merged context invalid Hbefore Hsch Hans Hsome Hobs.
  eexists. split.
  - eapply executeCollection_rethrows.
    + unfold collectionBody. fold merged. fold context.
      rewrite (bind_ok _ _ _ _ _ (beforeCollectLoop_pass 0 _ _ _ _ Hbefore)).
      rewrite (bind_ok _ _ _ _ _
                 (validate_answers c data
                    (addTrace (beforeEvents 0 (beforeCollect (hooks c)))
                       (setStore s1 w)) results s2 Hsch Hans)).
      cbn [valid errors].
      destruct (reportedErrors results) as [|e es] eqn:E; [done|].
      reflexivity.
    + exact Hobs.
  - simpl. by rewrite <- !app_assoc.
Qed.

(** X21: data the configured schema rejects.  The schema is consulted
    before any validator plugin: when it fails, no validator runs (not
    even the one the constructor registered for the same schema) and the
    collection rejects with a [ValidationError] carrying the schema's
    issues, each formatted as [path: message] with the path joined by
    dots, or as the bare message when the path is empty. *)
Theorem executeCollection_schema_rejects c data metadata w s1 sch issues s3 :
  let merged := mergeMetadata (defaultMetadata (config c)) metadata in
  let context :=
    mkCollectionContext (cfg_type (config c)) data merged (clock w) in
  let invalid := ValidationError (formatZodErrors issues) in
  HooksPass context (beforeCollect (hooks c)) (store w) s1 ->
  schema (config c) = Some sch ->
  sch data = ParseFailure issues ->
  ObserversComplete invalid (Some Validation) (Collector.error (hooks c))
    s1 s3 ->
  exists w',
    executeCollection c data metadata w = (Throw (ThrowError invalid), w')
    /\ trace w'
       = trace w
         ++ beforeEvents 0 (beforeCollect (hooks c))
         ++ errorEvents 0 (Collector.error (hooks c)) invalid
              (Some Validation)
    /\ store w' = s3
    /\ idsDrawn w' = idsDrawn w.
Proof.
  intros merged context invalid Hbefore Hschema Hfail Hobs.
  eexists. split.
  - eapply executeCollection_rethrows.
    + unfold collectionBody. fold merged. fold context.
      rewrite (bind_ok _ _ _ _ _ (beforeCollectLoop_pass 0 _ _ _ _ Hbefore)).
      unfold validate. rewrite Hschema. unfold validateWithSchema.
      rewrite Hfail. cbn [valid negb errors]. reflexivity.
    + exact Hobs.
  - simpl. by rewrite <- !app_assoc.
Qed.


Lemma runHandler_rejection (h : HandlerPlugin S Data) item w t w' :
  runHandler item h w = (Throw t, w') ->
  exists cause, t = ThrowError (PluginError (name h) PhHandle cause).
Proof.
  unfold runHandler, tryCatch, bind, emit, external, throwPluginError, throw.
  simpl. destruct (handle h item (store w)) as [[[]|e] s1]; [done|].
  intros [= <- <-]. eauto.
Qed.

Lemma runHandlers_rejection (hs : list (HandlerPlugin S Data)) item parallel
    w t w' :
  runHandlers hs item parallel w = (Throw t, w') ->
  exists h cause,
    h ∈ hs /\ t = ThrowError (PluginError (name h) PhHandle cause).
Proof.
  revert w. induction hs as [|h hs IH]; intros w.
  - by destruct parallel.
  - assert (forall w1, runHandlers hs item parallel w1 = (Throw t, w') ->
              exists h0 cause,
                h0 ∈ h :: hs
                /\ t = ThrowError (PluginError (name h0) PhHandle cause))
      as IH'.
    { intros w1 (h0 & cause & Hin & ->)%IH. exists h0, cause.
      split; [by right|done]. }
    destruct (runHandler item h w) as [[[]|t1] w1] eqn:Hh.
    + destruct parallel; simpl.
      * rewrite Hh. apply (IH' w1).
      * unfold bind at 1. rewrite Hh. apply (IH' w1).
    + destruct (runHandler_rejection _ _ _ _ _ Hh) as [cause ->].
      destruct parallel; simpl.
      * rewrite Hh. intros [= <- <-]. exists h, cause. split; [by left|done].
      * unfold bind at 1. rewrite Hh. intros [= <- <-].
        exists h, cause. split; [by left|done].
Qed.

Lemma retryLoop_rejection {T} (fn : M S T) (o : RetryOptions S) n attempt
    lastError w t w' :
  (forall a e d w1, exists w2, callOnRetry o a e d w1 = (Ok tt, w2)) ->
  attempt + Z.of_nat n = attempts o ->
  retryLoop fn o (Datatypes.S n) attempt lastError w = (Throw t, w') ->
  exists e w1,
    (fn w1).1 = Throw e
    /\ (vetoed o (toError e) = true /\ t = ThrowError (toError e)
        \/ vetoed o (toError e) = false
           /\ t = ThrowError (RetryExhaustedError (attempts o) (toError e))).
Proof.
  intros Hhooks. revert attempt lastError w.
  induction n as [|n IH]; intros attempt lastError w Hn;
    destruct (fn (addTrace [EvAttempt attempt] w)) as [[v|e] w1] eqn:Hfn.
  1, 3: by rewrite (retryLoop_success _ _ _ _ _ _ _ _ Hfn).
  all: assert ((fn (addTrace [EvAttempt attempt] w)).1 = Throw e) as Hthrow
         by (by rewrite Hfn).
  all: destruct (vetoed o (toError e)) eqn:Hveto.
  1, 3: rewrite (retryLoop_veto _ _ _ _ _ _ _ _ Hfn Hveto);
    intros [= <- <-]; exists e, (addTrace [EvAttempt attempt] w);
    split; [done|by left].
  all: destruct (Z_le_gt_dec (attempts o) attempt) as [Hlast|Hmore].
  1, 3: rewrite (retryLoop_last _ _ _ _ _ _ _ _ Hfn Hveto Hlast);
    intros [= <- <-]; exists e, (addTrace [EvAttempt attempt] w);
    split; [done|by right].
  { lia. }
  destruct (calculateDelay attempt (baseDelay o) (maxDelayOrDefault o)
              (backoff o) w1) as [rd w2] eqn:Hdelay.
  assert (exists delay, rd = Ok delay) as [delay ->].
  { unfold calculateDelay, bind, Math_random, ret in Hdelay.
    injection Hdelay as <- _. eauto. }
  destruct (Hhooks attempt (toError e) delay w2) as [w3 Hhook].
  rewrite (retryLoop_again fn o (Datatypes.S n) attempt lastError w
             e w1 delay w2 w3 _ Hfn Hveto ltac:(lia) Hdelay Hhook eq_refl).
  intros Hrun. apply IH in Hrun; [done|lia].
Qed.


Lemma retryHooksLoop_completes i (hs : list (RetryHook S)) a e d w :
  Forall (fun hook : RetryHook S =>
            forall a e d s, exists s', hook a e d s = (Ok tt, s')) hs ->
  exists w', retryHooksLoop i hs a e d w = (Ok tt, w').
Proof.
  intros Hhs. revert i w.
  induction Hhs as [|h hs Hh _ IH]; intros i w; simpl.
  - by eexists.
  - unfold bind at 1, emit. unfold bind at 1, external. simpl.
    destruct (Hh a e d (store w)) as [s' ->]. apply IH.
Qed.

(** X23: the phase of a handler failure.  When the handler stage of a
    collector fails (and no retry hook throws): without a retry
    configuration the error is the [PluginError] of a registered handler,
    which the error hooks see with the phase [handler].  With a retry
    configuration that has no [retryOn], the error is never a
    [PluginError]: it is a [RetryExhaustedError] around the handler's
    [PluginError] (or the [TypeError] of a run without attempts), and the
    error hooks get no phase for it. *)
Theorem handler_failure_phase c item w t w' :
  Forall (fun hook : RetryHook S =>
            forall a e d s, exists s', hook a e d s = (Ok tt, s'))
    (retryHooks (hooks c)) ->
  runHandlersWithRetry c item w = (Throw t, w') ->
  match retry (config c) with
  | None =>
      getErrorPhase t = Some Handler
      /\ exists h cause,
           h ∈ handlers (plugins c)
           /\ t = ThrowError (PluginError (name h) PhHandle cause)
  | Some r =>
      retryOn r = None ->
      getErrorPhase t = None
      /\ (1 <= attempts r ->
          exists h cause,
            h ∈ handlers (plugins c)
            /\ t = ThrowError
                     (RetryExhaustedError (attempts r)
                        (PluginError (name h) PhHandle cause)))
  end.
Proof.
  intros Hhooks. unfold runHandlersWithRetry.
  destruct (retry (config c)) as [r|].
  - unfold withRetry. simpl.
    destruct (Z_le_gt_dec (attempts r) 0) as [Hnone|Hsome].
    { replace (Z.to_nat (attempts r)) with 0%nat by lia.
      simpl. unfold throw. intros [= <- <-] _.
      split; [done|]. intros ?. exfalso. lia. }
    replace (Z.to_nat (attempts r))
      with (Datatypes.S (Z.to_nat (attempts r - 1))) by lia.
    intros Hrun HretryOn.
    apply retryLoop_rejection in Hrun as (e & w1 & Hfn & Hcases).
    + destruct (Promise_all _ w1) as [r1 w2] eqn:Hhs.
      simpl in Hfn. subst r1.
      apply (runHandlers_rejection _ item true) in Hhs
        as (h & cause & Hin & ->).
      unfold vetoed in Hcases. simpl in Hcases. rewrite HretryOn in Hcases.
      destruct Hcases as [[? _]|[_ ->]]; [done|].
      split; [done|]. intros _. by exists h, cause.
    + intros a e d w1. unfold callOnRetry. simpl.
      by apply retryHooksLoop_completes.
    + simpl. lia.
  - intros (h & cause & Hin & ->)%runHandlers_rejection.
    split; [done|]. by exists h, cause.
Qed.

End CollectorRuns.

Section MemoryCollector.
Import Pipeline Schema Retry Collector.
Context {Data : Type}.

(** One collection by a collector that only has the memory handler. *)
Lemma memory_collector_step (cfg : CollectorConfig Data) data
    (w : World (MemoryHandler.MemoryHandler (FeedbackItem Data))) :
  schema cfg = None ->
  (forall r, retry cfg = Some r -> 1 <= attempts r) ->
  let c := register (IsHandler MemoryHandler.plugin) (new cfg) in
  let item :=
    mkFeedbackItem (uuids w (idsDrawn w)) (cfg_type cfg) data
      (defaultMetadata cfg) (clock w) in
  exists w' : World (MemoryHandler.MemoryHandler (FeedbackItem Data)),
    executeCollection c data None w = (Ok item, w')
    /\ store w' = MemoryHandler.handle item (store w)
    /\ idsDrawn w' = Datatypes.S (idsDrawn w)
    /\ uuids w' = uuids w.
Proof.
  intros Hschema Hretry c item.
  assert (config c = cfg /\ plugins c
          = mkPluginRegistry [] [] [MemoryHandler.plugin]
          /\ hooks c = mkHookRegistry [] [] [] []) as (Hcfg & Hplugins & Hhooks).
  { subst c. unfold new. rewrite Hschema. done. }
  destruct (collectionBody_stages c data (defaultMetadata cfg) (clock w) w
              (store w) [] (store w) item
              (store w) (MemoryHandler.handle item (store w))
              (MemoryHandler.handle item (store w)))
    as (w' & Hbody & _ & Hstore & Hids & Huuids & _).
  - rewrite Hhooks. constructor.
  - rewrite Hcfg, Hschema. done.
  - rewrite Hplugins. constructor.
  - done.
  - rewrite Hplugins, Hcfg. constructor.
  - rewrite Hplugins. econstructor; [reflexivity|constructor].
  - by rewrite Hcfg.
  - rewrite Hhooks. constructor.
  - exists w'. split; [|done].
    unfold executeCollection, bind at 1, Date_now, tryCatch.
    rewrite Hcfg. simpl mergeMetadata. by rewrite Hbody.
Qed.

(** X24: the memory handler behind a collector.  A collector made from a
    configuration without schema (and, if it retries, with at least one
    attempt) on which only a memory handler is registered resolves every
    collection; the items it returns carry the data collected, in order,
    and the identifiers drawn, and the handler has handled exactly these
    items, in this order: a handler that starts empty holds the most
    recent [maxItems] of them, or all of them without a limit. *)
Theorem memory_handler_records_collections (cfg : CollectorConfig Data)
    inputs (w : World (MemoryHandler.MemoryHandler (FeedbackItem Data))) :
  schema cfg = None ->
  (forall r, retry cfg = Some r -> 1 <= attempts r) ->
  let c := register (IsHandler MemoryHandler.plugin) (new cfg) in
  exists collected
         (w' : World (MemoryHandler.MemoryHandler (FeedbackItem Data))),
    collectAll c inputs w = (Ok collected, w')
    /\ map Pipeline.data collected = inputs
    /\ map id collected
       = map (uuids w) (seq (idsDrawn w) (length inputs))
    /\ store w' = MemoryHandler.handleAll collected (store w)
    /\ forall limit,
         store w = MemoryHandler.create limit ->
         MemoryHandler.items (store w')
         = if 0 <? default 0 limit
           then MemoryHandler.mostRecent (Z.to_nat (default 0 limit)) collected
           else collected.
Proof.
  intros Hschema Hretry c.
  assert (exists collected
            (w' : World (MemoryHandler.MemoryHandler (FeedbackItem Data))),
    collectAll c inputs w = (Ok collected, w')
    /\ map Pipeline.data collected = inputs
    /\ map id collected
       = map (uuids w) (seq (idsDrawn w) (length inputs))
    /\ store w' = MemoryHandler.handleAll collected (store w))
    as (collected & w' & Hrun & Hdata & Hids & Hstore).
  { clear -Hschema Hretry. revert w.
    induction inputs as [|data inputs IH]; intros w.
    - exists [], w. by split_and!.
    - destruct (memory_collector_step cfg data w Hschema Hretry)
        as (w1 & Hstep & Hstore1 & Hids1 & Huuids1).
      destruct (IH w1) as (collected & w' & Hrun & Hdata & Hids & Hstore).
      eexists (_ :: collected), w'. split_and!.
      + simpl. rewrite (bind_ok _ _ _ _ _ Hstep).
        by rewrite (bind_ok _ _ _ _ _ Hrun).
      + simpl. by rewrite Hdata.
      + simpl. by rewrite Hids, Huuids1, Hids1.
      + rewrite Hstore, Hstore1. done. }
  exists collected, w'. split_and!; try done.
  intros limit Hcreate. rewrite Hstore, Hcreate. unfold MemoryHandler.items.
  destruct (Z.ltb_spec 0 (default 0 limit)).
  - by rewrite handleAll_bounded by (simpl; lia).
  - by rewrite handleAll_unbounded.
Qed.

End MemoryCollector.

(** ** The memory handler's queries *)

Section MemoryHandlerQueries.
Import MemoryHandler.
Context {Item : Type}.
Implicit Types (history : list Item) (limit : option Z).

Lemma handleAll_maxItems history (h : MemoryHandler Item) :
  maxItems (handleAll history h) = maxItems h.
Proof.
  revert h. induction history as [|item history IH]; intros h; [done|].
  change (handleAll (item :: history) h)
    with (handleAll history (handle item h)).
  by rewrite IH, handle_maxItems.
Qed.

Lemma handleAll_create limit history :
  _items (handleAll history (create limit))
  = if 0 <? default 0 limit
    then mostRecent (Z.to_nat (default 0 limit)) history
    else history.
Proof.
  destruct (Z.ltb_spec 0 (default 0 limit)).
  - by rewrite handleAll_bounded by (simpl; lia).
  - by rewrite handleAll_unbounded.
Qed.

Lemma last_drop (l : list Item) k :
  (k < length l)%nat -> list.last (drop k l) = list.last l.
Proof.
  intros Hk. rewrite !last_lookup, lookup_drop, length_drop.
  f_equal. lia.
Qed.

(** X25: the queries of the memory handler.  After any sequence of
    [handle] calls on a new handler, whatever its limit: [last] is the
    item handled last ([undefined] when there was none); [count] is the
    number of items handled, capped by a positive limit; and [find] sees
    the retained items only, in arrival order: an item the limit has
    pushed out is not found any more. *)
Theorem memory_handler_queries limit history (predicate : Item -> bool) :
  let h := handleAll history (create limit) in
  let retained :=
    if 0 <? default 0 limit
    then mostRecent (Z.to_nat (default 0 limit)) history
    else history in
  last h = list.last history
  /\ count h
     = (if 0 <? default 0 limit
        then Nat.min (Z.to_nat (default 0 limit)) (length history)
        else length history)
  /\ find predicate h = List.filter predicate retained.
Proof.
  intros h retained.
  assert (_items h = retained) as Hitems by apply handleAll_create.
  unfold last, count, find. rewrite Hitems. subst retained. split_and!.
  - assert (forall l : list Item,
              match l with [] => None | _ => l !! (length l - 1)%nat end
              = list.last l) as Hlast.
    { intros l. rewrite last_lookup. destruct l; [done|].
      f_equal. simpl. lia. }
    rewrite Hlast.
    destruct (Z.ltb_spec 0 (default 0 limit)); [|done].
    unfold mostRecent. destruct history as [|item history]; [done|].
    apply last_drop. simpl. lia.
  - destruct (0 <? default 0 limit); [|done]. apply mostRecent_length.
  - done.
Qed.

(** X26: [clear].  Clearing a handler forgets every item and keeps the
    limit: from then on it behaves like a new handler made with the same
    options. *)
Theorem memory_handler_clear limit history more :
  handleAll more (clear (handleAll history (create limit)))
  = handleAll more (create limit).
Proof.
  unfold clear. by rewrite handleAll_maxItems.
Qed.

End MemoryHandlerQueries.

(** X27: [findByType].  Of the items a collector has stored in a memory
    handler without limit, [findByType] returns those whose [type] is the
    one asked for, in arrival order, and no other. *)
Theorem memory_handler_findByType {Data} type
    (history : list (Pipeline.FeedbackItem Data)) item :
  item ∈ MemoryHandler.findByType type
           (MemoryHandler.handleAll history (MemoryHandler.create None))
  <-> item ∈ history /\ Pipeline.type item = type.
Proof.
  unfold MemoryHandler.findByType. rewrite handleAll_unbounded by done.
  simpl. rewrite !list_elem_of_In, filter_In.
  by rewrite String.eqb_eq.
Qed.

(** ** Schema validators *)

Section SchemaFacts.
Import Pipeline Schema.
Context {S Data : Type}.

Lemma zod_Answers (schemas : list (ZodType Data)) data (s : S) :
  Answers (map createZodValidator schemas) data s
    (map (fun schema => validateWithSchema schema data) schemas) s.
Proof.
  induction schemas as [|schema schemas IH]; simpl.
  - constructor.
  - econstructor; [reflexivity|exact IH].
Qed.

Lemma zod_reportedErrors (schemas : list (ZodType Data)) data :
  reportedErrors (map (fun schema => validateWithSchema schema data) schemas)
  = concat
      (map (fun schema : ZodType Data =>
              match schema data with
              | ParseSuccess => []
              | ParseFailure issues => formatZodErrors issues
              end) schemas).
Proof.
  induction schemas as [|schema schemas IH]; [done|].
  simpl. rewrite reportedErrors_cons, IH. unfold validateWithSchema.
  by destruct (schema data).
Qed.

(** X17: validators made from schemas.  Validators made by
    [createZodValidator] (under the default name) never throw and leave
    the store alone; run together, they report the issues of every
    schema that fails, formatted, in the order of the schemas, and the
    data is valid exactly when nothing is reported. *)
Theorem zod_validators_report_every_issue (schemas : list (ZodType Data))
    data (w : World S) :
  let reported :=
    concat
      (map (fun schema : ZodType Data =>
              match schema data with
              | ParseSuccess => []
              | ParseFailure issues => formatZodErrors issues
              end) schemas) in
  runValidators (map createZodValidator schemas) data w
  = (Ok (mkValidationResult (Nat.eqb (length reported) 0) reported),
     addTrace (map (fun _ => EvValidate "zod-validator") schemas) w).
Proof.
  intros reported. unfold runValidators, bind.
  rewrite (validatorsLoop_answers _ _ _ _ _ _ (zod_Answers schemas data _)).
  simpl. rewrite zod_reportedErrors. fold reported.
  rewrite setStore_store. by rewrite map_map.
Qed.

End SchemaFacts.

(** ** Identifiers *)

Section IdFacts.
Import Id.
Context {S : Type}.
Implicit Types (w : World S).

Lemma string_app_assoc (s1 s2 s3 : string) :
  (s1 +:+ s2) +:+ s3 = s1 +:+ (s2 +:+ s3).
Proof.
  induction s1 as [|c s1 IH]; [done|].
  change (String c ((s1 +:+ s2) +:+ s3) = String c (s1 +:+ (s2 +:+ s3))).
  by f_equal.
Qed.

Lemma string_app_nil_r (s : string) : s +:+ "" = s.
Proof.
  induction s as [|c s IH]; [done|].
  change (String c (s +:+ "") = String c s). by f_equal.
Qed.

Lemma get_In n (s : string) c :
  String.get n s = Some c -> In c (String.list_ascii_of_string s).
Proof.
  revert n. induction s as [|c0 s IH]; intros n; [done|].
  destruct n as [|n]; simpl.
  - intros [= ->]. by left.
  - intros H. right. by eapply IH.
Qed.

Lemma get_Some n (s : string) :
  (n < String.length s)%nat -> exists c, String.get n s = Some c.
Proof.
  revert n. induction s as [|c0 s IH]; intros n; simpl; [lia|].
  destruct n as [|n]; [by eexists|].
  intros Hn. apply IH. lia.
Qed.

Lemma charAt_in_range (s : string) pos :
  0 <= pos < Z.of_nat (String.length s) ->
  exists c,
    charAt s pos = String c "" /\ In c (String.list_ascii_of_string s).
Proof.
  intros Hpos. unfold charAt.
  destruct (Z.ltb_spec pos 0); [lia|].
  destruct (get_Some (Z.to_nat pos) s) as [c Hc]; [lia|].
  rewrite Hc. exists c. split; [done|by eapply get_In].
Qed.

Lemma floor_scaled (rnd : Q) n :
  (0 <= rnd)%Q -> (rnd < 1)%Q -> 0 < n ->
  0 <= Qfloor (rnd * inject_Z n) < n.
Proof.
  intros H0 H1 Hn.
  assert (0 < inject_Z n)%Q as Hq.
  { change 0%Q with (inject_Z 0). by rewrite <- Zlt_Qlt. }
  split.
  - change 0 with (Qfloor 0). apply Qfloor_resp_le. nra.
  - rewrite Zlt_Qlt.
    apply Qle_lt_trans with (rnd * inject_Z n)%Q; [apply Qfloor_le|nra].
Qed.

Lemma shortIdLoop_alphabet n result w :
  (forall k, (0 <= entropy w k)%Q /\ (entropy w k < 1)%Q) ->
  exists suffix w',
    shortIdLoop n result w = (Ok (result +:+ suffix), w')
    /\ String.length suffix = n
    /\ Forall (fun c => In c (String.list_ascii_of_string chars))
         (String.list_ascii_of_string suffix)
    /\ randomsDrawn w' = (randomsDrawn w + n)%nat.
Proof.
  revert result w. induction n as [|n IH]; intros result w Hrange.
  - exists "", w. simpl. split_and!; [|done|constructor|lia].
    by rewrite string_app_nil_r.
  - cbn [shortIdLoop]. unfold bind at 1, Math_random.
    destruct (charAt_in_range chars
                (Qfloor (entropy w (randomsDrawn w)
                         * inject_Z (Z.of_nat (String.length chars)))))
      as (c & -> & Hc).
    { destruct (Hrange (randomsDrawn w)). by apply floor_scaled. }
    match goal with |- context [shortIdLoop n ?r ?w1] =>
      destruct (IH r w1 Hrange) as (suffix & w' & -> & Hlen & Hall & Hdrawn)
    end.
    exists (String c suffix), w'. rewrite string_app_assoc. simpl in *.
    split_and!; [done|by rewrite Hlen|by constructor|lia].
Qed.

(** X28: short identifiers.  As long as [Math.random] answers in [0, 1),
    [generateShortId(length)] returns a string of exactly [length]
    characters (8 by default, none for a length of 0 or less), each of
    them a letter or a digit of the alphabet, and draws one random number
    for each. *)
Theorem generateShortId_alphabet (len : option Z) w :
  (forall k, (0 <= entropy w k)%Q /\ (entropy w k < 1)%Q) ->
  exists id w',
    generateShortId len w = (Ok id, w')
    /\ String.length id = Z.to_nat (default 8%Z len)
    /\ Forall (fun c => In c (String.list_ascii_of_string chars))
         (String.list_ascii_of_string id)
    /\ randomsDrawn w'
       = (randomsDrawn w + Z.to_nat (default 8%Z len))%nat.
Proof.
  intros Hrange. unfold generateShortId.
  destruct (shortIdLoop_alphabet (Z.to_nat (default 8%Z len)) "" w Hrange)
    as (suffix & w' & Hrun & Hlen & Hall & Hdrawn).
  by exists suffix, w'.
Qed.

Lemma toInt32_digit (rnd : Q) :
  (0 <= rnd)%Q -> (rnd < 1)%Q -> 0 <= toInt32 (rnd * 16) < 16.
Proof.
  intros H0 H1. unfold toInt32.
  assert (Qle_bool 0 (rnd * 16) = true) as ->.
  { apply Qle_bool_iff. nra. }
  pose proof (floor_scaled rnd 16 H0 H1 ltac:(lia)) as Hfloor.
  change (inject_Z 16) with 16%Q in Hfloor.
  rewrite Z.mod_small by lia. lia.
Qed.

Lemma digit_cases v :
  0 <= v < 16 ->
  v = 0 \/ v = 1 \/ v = 2 \/ v = 3 \/ v = 4 \/ v = 5 \/ v = 6 \/ v = 7
  \/ v = 8 \/ v = 9 \/ v = 10 \/ v = 11 \/ v = 12 \/ v = 13 \/ v = 14
  \/ v = 15.
Proof. lia. Qed.

Lemma hex_digit v :
  0 <= v < 16 ->
  exists c, toString16 v = String c "" /\ isHexDigit c = true.
Proof.
  intros Hv. destruct (digit_cases v Hv) as [H|H]; repeat destruct H as [H|H];
    subst v; eexists; split; reflexivity.
Qed.

Lemma variant_digit r :
  0 <= r < 16 ->
  exists c,
    toString16 (Z.lor (Z.land r 3) 8) = String c ""
    /\ isVariantDigit c = true.
Proof.
  intros Hr. destruct (digit_cases r Hr) as [H|H]; repeat destruct H as [H|H];
    subst r; eexists; split; reflexivity.
Qed.

Lemma replaceXY_shape (template : string) w :
  (forall k, (0 <= entropy w k)%Q /\ (entropy w k < 1)%Q) ->
  exists id w',
    replaceXY template w = (Ok id, w')
    /\ matchesTemplate template id = true
    /\ entropy w' = entropy w.
Proof.
  revert w. induction template as [|c template IH]; intros w Hrange.
  - by exists "", w.
  - cbn [replaceXY matchesTemplate].
    destruct (Hrange (randomsDrawn w)) as [H0 H1].
    pose proof (toInt32_digit _ H0 H1) as Hdigit.
    destruct (Ascii.eqb c "x") eqn:Hx; [|destruct (Ascii.eqb c "y") eqn:Hy];
      cbn [orb].
    + destruct (hex_digit _ Hdigit) as (d & Hd & Hhex).
      unfold bind at 1, replacement. unfold bind at 1, Math_random.
      rewrite Hx. unfold ret at 1. rewrite Hd.
      match goal with |- context [bind (replaceXY template) _ ?w1] =>
        destruct (IH w1 Hrange) as (tail & w' & Hrun & Hshape & Hentropy);
        rewrite (bind_ok _ _ w1 _ _ Hrun)
      end.
      exists (String d tail), w'. simpl. by rewrite Hhex, Hshape.
    + destruct (variant_digit _ Hdigit) as (d & Hd & Hvariant).
      unfold bind at 1, replacement. unfold bind at 1, Math_random.
      rewrite Hx. unfold ret at 1. rewrite Hd.
      match goal with |- context [bind (replaceXY template) _ ?w1] =>
        destruct (IH w1 Hrange) as (tail & w' & Hrun & Hshape & Hentropy);
        rewrite (bind_ok _ _ w1 _ _ Hrun)
      end.
      exists (String d tail), w'. simpl. by rewrite Hvariant, Hshape.
    + destruct (IH w Hrange) as (tail & w' & Hrun & Hshape & Hentropy).
      rewrite (bind_ok _ _ w _ _ Hrun).
      exists (String c tail), w'. by rewrite Ascii.eqb_refl, Hshape.
Qed.

Lemma matchesTemplate_length (template id : string) :
  matchesTemplate template id = true ->
  String.length id = String.length template.
Proof.
  revert id. induction template as [|t template IH]; intros [|c id]; simpl;
    try done.
  intros [_ H]%andb_prop. by rewrite (IH id).
Qed.

(** X29: the fallback of [generateId].  Where [crypto.randomUUID] is
    missing and as long as [Math.random] answers in [0, 1), the
    identifier made has the shape of a version 4 UUID: 36 characters, in
    groups of 8, 4, 4, 4 and 12 lower-case hexadecimal digits separated
    by hyphens, with 4 as the first digit of the third group and 8, 9, a
    or b as the first digit of the fourth. *)
Theorem generateIdFallback_shape w :
  (forall k, (0 <= entropy w k)%Q /\ (entropy w k < 1)%Q) ->
  exists id w',
    generateIdFallback w = (Ok id, w')
    /\ matchesTemplate "xxxxxxxx-xxxx-4xxx-yxxx-xxxxxxxxxxxx" id = true
    /\ String.length id = 36%nat.
Proof.
  intros Hrange. unfold generateIdFallback.
  destruct (replaceXY_shape "xxxxxxxx-xxxx-4xxx-yxxx-xxxxxxxxxxxx" w Hrange)
    as (id & w' & Hrun & Hshape & _).
  exists id, w'. split_and!; [done..|].
  by rewrite (matchesTemplate_length _ _ Hshape).
Qed.

End IdFacts.

(** ** The further properties at work *)

Lemma runValidators_fault_witness :
  Pipeline.runValidators
    [Scenarios.validatorA; Scenarios.crashingValidator; Scenarios.validatorB]
    7 (Scenarios.world0 tt 0)
  = (Throw (ThrowError (PluginError "crashing" PhValidate (PlainError "boom"))),
     addTrace [EvValidate "A"; EvValidate "crashing"]
       (setStore tt (Scenarios.world0 tt 0))).
Proof.
  apply (runValidators_fault [Scenarios.validatorA]
           Scenarios.crashingValidator [Scenarios.validatorB] 7
           (Scenarios.world0 tt 0)
           [Pipeline.mkValidationResult false ["a1"; "a2"]] tt
           (ThrowValue "boom") tt).
  - econstructor; [reflexivity|constructor].
  - reflexivity.
Defined.

Lemma runTransformers_chain_witness :
  Pipeline.runTransformers [Scenarios.stamp]
    (Pipeline.mkFeedbackItem "1" "nps" 7 ∅ 0) (Scenarios.world0 [] 0)
  = (Ok (Pipeline.mkFeedbackItem "1" "nps" 7 (<["seen" := "yes"]> ∅) 0),
     addTrace [EvTransform "stamp"] (setStore [] (Scenarios.world0 [] 0)))
  /\ Pipeline.runTransformers
       [Scenarios.stamp; Scenarios.crashingTransformer; Scenarios.relabel]
       (Pipeline.mkFeedbackItem "1" "nps" 7 ∅ 0) (Scenarios.world0 [] 0)
     = (Throw (ThrowError
                 (PluginError "crashing" PhTransform (PlainError "boom"))),
        addTrace [EvTransform "stamp"; EvTransform "crashing"]
          (setStore [] (Scenarios.world0 [] 0))).
Proof.
  destruct (runTransformers_chain [Scenarios.stamp]
              (Pipeline.mkFeedbackItem "1" "nps" 7 ∅ 0)
              (Scenarios.world0 [] 0)
              (Pipeline.mkFeedbackItem "1" "nps" 7 (<["seen" := "yes"]> ∅) 0)
              [])
    as [Hchain Hfault].
  - econstructor; [reflexivity|constructor].
  - split; [exact Hchain|].
    apply (Hfault Scenarios.crashingTransformer [Scenarios.relabel]
             (ThrowValue "boom") []).
    reflexivity.
Defined.

Lemma runHandlers_first_failure_witness :
  let run parallel :=
    Pipeline.runHandlers [Scenarios.logger; Scenarios.offline; Scenarios.logger]
      (Pipeline.mkFeedbackItem "1" "nps" 7 ∅ 0) parallel
      (Scenarios.world0 [] 0) in
  ((run true).1
   = Throw (ThrowError
              (PluginError "offline" PhHandle (PlainError "offline")))
   /\ trace (run true).2
      = [EvHandle "logger"; EvHandle "offline"; EvHandle "logger"])
  /\ ((run false).1
      = Throw (ThrowError
                 (PluginError "offline" PhHandle (PlainError "offline")))
      /\ trace (run false).2 = [EvHandle "logger"; EvHandle "offline"]
      /\ store (run false).2 = ["1"; "tried"]).
Proof.
  assert (Pipeline.Handled [Scenarios.logger]
            (Pipeline.mkFeedbackItem "1" "nps" 7 ∅ 0) [] ["1"]) as Hbefore.
  { econstructor; [reflexivity|constructor]. }
  split.
  - destruct (runHandlers_first_failure [Scenarios.logger] Scenarios.offline
                [Scenarios.logger] (Pipeline.mkFeedbackItem "1" "nps" 7 ∅ 0)
                (Scenarios.world0 [] 0) ["1"]
                (ThrowError (PlainError "offline")) ["1"; "tried"] true
                Hbefore eq_refl) as (Hresult & Htrace & _).
    split; [exact Hresult|exact Htrace].
  - destruct (runHandlers_first_failure [Scenarios.logger] Scenarios.offline
                [Scenarios.logger] (Pipeline.mkFeedbackItem "1" "nps" 7 ∅ 0)
                (Scenarios.world0 [] 0) ["1"]
                (ThrowError (PlainError "offline")) ["1"; "tried"] false
                Hbefore eq_refl) as (Hresult & Htrace & Hstore).
    split; [exact Hresult|]. split; [exact Htrace|exact (Hstore eq_refl)].
Defined.


Lemma executeCollection_cancelled_by_hook_witness :
  exists w',
    Collector.executeCollection Scenarios.refusing 9 None
      (Scenarios.world0 [] 0)
    = (Throw (ThrowError
                (CollectionCancelledError "Cancelled by beforeCollect hook")),
       w')
    /\ trace w'
       = [EvBeforeCollect 0; EvBeforeCollect 1;
          EvError 0
            (CollectionCancelledError "Cancelled by beforeCollect hook") None]
    /\ store w' = ["before"; "observed"]
    /\ idsDrawn w' = 0%nat.
Proof.
  destruct (executeCollection_cancelled_by_hook Scenarios.refusing 9 None
           (Scenarios.world0 [] 0) [Scenarios.consent] Scenarios.refusal
           [Scenarios.consent] ["before"] ["before"] ["before"; "observed"])
    as (w' & Hrun & Htrace & Hstore & Hids).
  - reflexivity.
  - econstructor; [reflexivity|discriminate|constructor].
  - reflexivity.
  - econstructor; [reflexivity|constructor].
  - exists w'. split; [exact Hrun|]. split; [exact Htrace|].
    split; [exact Hstore|exact Hids].
Defined.

Lemma executeCollection_rejects_invalid_data_witness :
  exists w',
    Collector.executeCollection Scenarios.strict 9 None
      (Scenarios.world0 [] 0)
    = (Throw (ThrowError (ValidationError ["b1"])), w')
    /\ trace w'
       = [EvBeforeCollect 0; EvValidate "zod-validator"; EvValidate "lenient";
          EvValidate "B";
          EvError 0 (ValidationError ["b1"]) (Some Validation);
          EvError 1 (ValidationError ["b1"]) (Some Validation)]
    /\ store w' = ["before"; "observed"; "observed"]
    /\ idsDrawn w' = 0%nat.
Proof.
  destruct (executeCollection_rejects_invalid_data Scenarios.strict 9 None
           (Scenarios.world0 [] 0) ["before"]
           [Pipeline.mkValidationResult true [];
            Pipeline.mkValidationResult true ["ignored"];
            Pipeline.mkValidationResult false ["b1"]]
           ["before"] ["before"; "observed"; "observed"])
    as (w' & Hrun & Htrace & Hstore & Hids).
  - econstructor; [reflexivity|discriminate|constructor].
  - intros sch [= <-]. reflexivity.
  - econstructor; [reflexivity|].
    econstructor; [reflexivity|].
    econstructor; [reflexivity|constructor].
  - discriminate.
  - econstructor; [reflexivity|].
    econstructor; [reflexivity|constructor].
  - exists w'. split; [exact Hrun|]. split; [exact Htrace|].
    split; [exact Hstore|exact Hids].
Defined.

Lemma executeCollection_schema_rejects_witness :
  exists w',
    Collector.executeCollection Scenarios.complete (-1) None
      (Scenarios.world0 [] 0)
    = (Throw (ThrowError (ValidationError ["score: must not be negative"])),
       w')
    /\ trace w'
       = [EvBeforeCollect 0;
          EvError 0 (ValidationError ["score: must not be negative"])
            (Some Validation)]
    /\ store w' = ["before"; "observed"]
    /\ idsDrawn w' = 0%nat.
Proof.
  destruct (executeCollection_schema_rejects Scenarios.complete (-1) None
           (Scenarios.world0 [] 0) ["before"] Scenarios.scoreSchema
           [Schema.mkZodIssue ["score"] "must not be negative"]
           ["before"; "observed"])
    as (w' & Hrun & Htrace & Hstore & Hids).
  - econstructor; [reflexivity|discriminate|constructor].
  - reflexivity.
  - reflexivity.
  - econstructor; [reflexivity|constructor].
  - exists w'. split; [exact Hrun|]. split; [exact Htrace|].
    split; [exact Hstore|exact Hids].
Defined.



Lemma handler_failure_phase_witness :
  (Collector.getErrorPhase
     (ThrowError (PluginError "offline" PhHandle (PlainError "offline")))
   = Some Handler
   /\ exists h cause,
        h ∈ Pipeline.handlers (Collector.plugins Scenarios.unreachable)
        /\ ThrowError (PluginError "offline" PhHandle (PlainError "offline"))
           = ThrowError (PluginError (Pipeline.name h) PhHandle cause))
  /\ (Collector.getErrorPhase
        (ThrowError
           (RetryExhaustedError 3
              (PluginError "offline" PhHandle (PlainError "offline"))))
      = None
      /\ (1 <= 3 ->
          exists h cause,
            h ∈ Pipeline.handlers
                  (Collector.plugins Scenarios.unreachableRetrying)
            /\ ThrowError
                 (RetryExhaustedError 3
                    (PluginError "offline" PhHandle (PlainError "offline")))
               = ThrowError
                   (RetryExhaustedError 3
                      (PluginError (Pipeline.name h) PhHandle cause)))).
Proof.
  split.
  - exact (handler_failure_phase Scenarios.unreachable
             (Pipeline.mkFeedbackItem "1" "nps" 7 ∅ 0) (Scenarios.world0 [] 0)
             (ThrowError (PluginError "offline" PhHandle (PlainError "offline")))
             (mkWorld ["tried"] 0 (fun _ => 0%Q) 0 (fun n => pretty n) 0
                [EvHandle "offline"])
             (List.Forall_nil _) eq_refl).
  - refine (handler_failure_phase Scenarios.unreachableRetrying
              (Pipeline.mkFeedbackItem "1" "nps" 7 ∅ 0)
              (Scenarios.world0 [] (1 # 2))
              (ThrowError
                 (RetryExhaustedError 3
                    (PluginError "offline" PhHandle (PlainError "offline"))))
              (mkWorld ["tried"; "tried"; "tried"] 300 (fun _ => 1 # 2) 2
                 (fun n => pretty n) 0
                 [EvAttempt 1; EvHandle "offline"; EvSleep 100;
                  EvAttempt 2; EvHandle "offline"; EvSleep 200;
                  EvAttempt 3; EvHandle "offline"])
              (List.Forall_nil _) _ eq_refl).
    vm_compute. reflexivity.
Defined.

Lemma memory_handler_records_collections_witness :
  exists collected
         (w' : World (MemoryHandler.MemoryHandler (Pipeline.FeedbackItem Z))),
    Collector.collectAll Scenarios.remembering [7; 9]
      (Scenarios.world0 (MemoryHandler.create (Some 1)) 0)
    = (Ok collected, w')
    /\ map Pipeline.data collected = [7; 9]
    /\ MemoryHandler.items (store w') = MemoryHandler.mostRecent 1 collected.
Proof.
  destruct (memory_handler_records_collections Scenarios.npsConfig [7; 9]
              (Scenarios.world0 (MemoryHandler.create (Some 1)) 0))
    as (collected & w' & Hrun & Hdata & _ & _ & Hlimit).
  - reflexivity.
  - intros r [=].
  - exists collected, w'. split; [exact Hrun|]. split; [exact Hdata|].
    exact (Hlimit (Some 1) eq_refl).
Defined.

Lemma generateShortId_alphabet_witness :
  exists id (w' : World unit),
    Id.generateShortId (Some 4) (Scenarios.world0 tt (1 # 2)) = (Ok id, w')
    /\ String.length id = 4%nat
    /\ Forall (fun c => In c (String.list_ascii_of_string Id.chars))
         (String.list_ascii_of_string id)
    /\ randomsDrawn w' = 4%nat.
Proof.
  apply (generateShortId_alphabet (Some 4) (Scenarios.world0 tt (1 # 2))).
  intros k. split; [discriminate|reflexivity].
Defined.

Lemma generateIdFallback_shape_witness :
  exists id (w' : World unit),
    Id.generateIdFallback (Scenarios.world0 tt (1 # 2)) = (Ok id, w')
    /\ Id.matchesTemplate "xxxxxxxx-xxxx-4xxx-yxxx-xxxxxxxxxxxx" id = true
    /\ String.length id = 36%nat.
Proof.
  apply (generateIdFallback_shape (Scenarios.world0 tt (1 # 2))).
  intros k. split; [discriminate|reflexivity].
Defined.
